(** * DHT sensor loggers: the polling loop and its sinks

    The development follows [rpi0w-bookworm-dht11.py] (class
    [DHT11SensorLogger] and [main]) and, for the conversion and the row
    guard, the loop of [DHT22/trixie-logger-gen2/main.py].

    Conventions.
    - A Python float is read as the rational number it stands for ([Q]);
      [nan] and the infinities are left out.  The values stored in a
      reading went through [round(x, 1)]: they are kept as their number
      of tenths (type [decimal1], the integer [k] for the float printed as
      [k/10]), and a float read back from the text of such a value is
      that decimal.  The rounding of float arithmetic is written out
      where it shows in a result, in the average of [get_statistics]:
      its sum and quotient are those of doubles ([binary64]).
    - Text is [list ascii]; the data file is its text.  [csv.writer],
      [csv.DictReader] and [float] are written out at the level of
      characters; the JSON file is the document that [json.load] returns.
    - Statements run in a state-and-exception monad [M].  What the
      environment decides in one iteration of the loop (the clock, the
      two driver accesses, failures of [print] and of the file system, a
      signal) is a [Cycle]; a run takes the list of its iterations.
    - [sys.exit] raises [SystemExit]; SIGINT and SIGTERM run
      [signal_handler] at the point the program has reached. *)

From Stdlib Require Import ZArith QArith Qround Qabs Qpower.
From Stdlib Require Import List Ascii String Bool Lia Lqa.
From Stdlib Require Import DecimalN.
Import ListNotations.

Open Scope Z_scope.

(** ** Numbers *)

(** A float rounded to one decimal place, as its number of tenths. *)
Definition decimal1 := Z.

Definition Q_of_decimal1 (k : decimal1) : Q := k # 10.

(** Nearest integer, ties to even: the rounding of Python's [round] and of
    the [.1f] format. *)
Definition round_half_even (x : Q) : Z :=
  let fl := Qfloor x in
  match Qcompare (x - inject_Z fl) (1 # 2) with
  | Lt => fl
  | Gt => fl + 1
  | Eq => if Z.even fl then fl else fl + 1
  end.

(** [round(x, 1)]. *)
Definition round1 (x : Q) : decimal1 := round_half_even (x * 10).

(** [temperature_c * 9.0 / 5.0 + 32.0]. *)
Definition fahrenheit (temperature_c : Q) : Q :=
  (temperature_c * 9 / 5 + 32)%Q.


(** ** Text *)

Definition COMMA : ascii := ","%char.
Definition QUOTE : ascii := ascii_of_nat 34.
Definition CR : ascii := ascii_of_nat 13.
Definition LF : ascii := ascii_of_nat 10.
Definition DOT : ascii := "."%char.
Definition MINUS : ascii := "-"%char.
Definition PLUS : ascii := "+"%char.

Definition text (s : string) : list ascii := list_ascii_of_string s.

Fixpoint chars_of_uint (d : Decimal.uint) : list ascii :=
  match d with
  | Decimal.Nil => []
  | Decimal.D0 d => "0"%char :: chars_of_uint d
  | Decimal.D1 d => "1"%char :: chars_of_uint d
  | Decimal.D2 d => "2"%char :: chars_of_uint d
  | Decimal.D3 d => "3"%char :: chars_of_uint d
  | Decimal.D4 d => "4"%char :: chars_of_uint d
  | Decimal.D5 d => "5"%char :: chars_of_uint d
  | Decimal.D6 d => "6"%char :: chars_of_uint d
  | Decimal.D7 d => "7"%char :: chars_of_uint d
  | Decimal.D8 d => "8"%char :: chars_of_uint d
  | Decimal.D9 d => "9"%char :: chars_of_uint d
  end.

Definition digit_of_char (c : ascii) : option (Decimal.uint -> Decimal.uint) :=
  match c with
  | "0"%char => Some Decimal.D0
  | "1"%char => Some Decimal.D1
  | "2"%char => Some Decimal.D2
  | "3"%char => Some Decimal.D3
  | "4"%char => Some Decimal.D4
  | "5"%char => Some Decimal.D5
  | "6"%char => Some Decimal.D6
  | "7"%char => Some Decimal.D7
  | "8"%char => Some Decimal.D8
  | "9"%char => Some Decimal.D9
  | _ => None
  end.

Definition is_digit (c : ascii) : bool :=
  match digit_of_char c with Some _ => true | None => false end.

Fixpoint uint_of_chars (s : list ascii) : option Decimal.uint :=
  match s with
  | [] => Some Decimal.Nil
  | c :: r =>
      match digit_of_char c, uint_of_chars r with
      | Some d, Some u => Some (d u)
      | _, _ => None
      end
  end.

(** [str(n)] for a natural number. *)
Definition str_N (n : N) : list ascii := chars_of_uint (N.to_uint n).

(** [str(x)] for the float of [k] tenths: Python prints the shortest
    decimal that reads back as the same float, here [k/10] with one
    fractional digit (the exponent form only starts at [1e16]). *)
Definition str_float (k : decimal1) : list ascii :=
  (if k <? 0 then [MINUS] else []) ++
  str_N (Z.to_N (Z.abs k / 10)) ++ DOT :: str_N (Z.to_N (Z.abs k mod 10)).

Definition pow10 (n : nat) : positive := Nat.iter n (Pos.mul 10) 1%positive.

Fixpoint split_at (sep : ascii) (s : list ascii)
  : list ascii * option (list ascii) :=
  match s with
  | [] => ([], None)
  | c :: r =>
      if Ascii.eqb c sep then ([], Some r)
      else let (a, b) := split_at sep r in (c :: a, b)
  end.

(** The digits of a float: digits, optionally a point and more digits,
    with a digit somewhere. *)
Definition parse_unsigned (body : list ascii) : option Q :=
  let (int_part, rest) := split_at DOT body in
  let frac_part := match rest with Some f => f | None => [] end in
  match uint_of_chars int_part, uint_of_chars frac_part with
  | Some i, Some f =>
      match int_part ++ frac_part with
      | [] => None
      | _ =>
          let den := pow10 (List.length frac_part) in
          Some (Z.of_N (N.of_uint i) * Z.pos den + Z.of_N (N.of_uint f) # den)
      end
  | _, _ => None
  end.

(** [float(s)] on plain decimal notation, with an optional sign.  [None]
    stands for [ValueError] (the exponent, [inf]/[nan], underscore and
    surrounding-blank forms that Python also reads are never written by
    the loggers and are left out). *)
Definition parse_float (s : list ascii) : option Q :=
  match s with
  | c :: r =>
      if Ascii.eqb c MINUS then option_map Qopp (parse_unsigned r)
      else if Ascii.eqb c PLUS then parse_unsigned r
      else parse_unsigned s
  | [] => None
  end.

(** *** Timestamps *)

Record datetime := {
  year : N; month : N; day : N;
  hour : N; minute : N; second : N; microsecond : N
}.

Definition zero_pad (width : nat) (n : N) : list ascii :=
  let d := str_N n in
  repeat "0"%char (width - List.length d) ++ d.

(** [datetime.isoformat()]. *)
Definition isoformat (t : datetime) : list ascii :=
  zero_pad 4 (year t) ++ "-"%char :: zero_pad 2 (month t) ++
  "-"%char :: zero_pad 2 (day t) ++ "T"%char :: zero_pad 2 (hour t) ++
  ":"%char :: zero_pad 2 (minute t) ++ ":"%char :: zero_pad 2 (second t) ++
  (if N.eqb (microsecond t) 0 then []
   else DOT :: zero_pad 6 (microsecond t)).

(** [datetime.strftime("%Y-%m-%d %H:%M:%S")]. *)
Definition strftime_ymd_hms (t : datetime) : list ascii :=
  zero_pad 4 (year t) ++ "-"%char :: zero_pad 2 (month t) ++
  "-"%char :: zero_pad 2 (day t) ++ " "%char :: zero_pad 2 (hour t) ++
  ":"%char :: zero_pad 2 (minute t) ++ ":"%char :: zero_pad 2 (second t).

(** ** The reading *)

(** The dictionary built by [read_sensor]: its four keys always hold a
    string and three rounded floats. *)
Record Reading := {
  timestamp : list ascii;
  temperature_c : decimal1;
  temperature_f : decimal1;
  humidity_percent : decimal1
}.

(** ** The [csv] module, default dialect *)

Definition special (c : ascii) : bool :=
  Ascii.eqb c COMMA || Ascii.eqb c QUOTE || Ascii.eqb c CR || Ascii.eqb c LF.

Fixpoint double_quotes (f : list ascii) : list ascii :=
  match f with
  | [] => []
  | c :: r =>
      if Ascii.eqb c QUOTE then QUOTE :: QUOTE :: double_quotes r
      else c :: double_quotes r
  end.

(** A field is quoted only when it has to be ([QUOTE_MINIMAL]). *)
Definition write_field (f : list ascii) : list ascii :=
  if existsb special f then QUOTE :: double_quotes f ++ [QUOTE] else f.

Fixpoint join (sep : ascii) (fields : list (list ascii)) : list ascii :=
  match fields with
  | [] => []
  | [f] => f
  | f :: rest => f ++ sep :: join sep rest
  end.

(** [csv.writer(f).writerow(fields)]: the text added to the file, which was
    opened with [newline=''], so the terminator stays [\r\n]. *)
Definition writerow (fields : list (list ascii)) : list ascii :=
  match fields with
  | [[]] => [QUOTE; QUOTE; CR; LF]
  | _ => join COMMA (map write_field fields) ++ [CR; LF]
  end.

(** Reading a file opened in text mode without [newline]: [\r\n] and a
    lone [\r] arrive as [\n]. *)
Fixpoint universal_newlines (s : list ascii) : list ascii :=
  match s with
  | [] => []
  | c :: r =>
      if Ascii.eqb c CR then
        match r with
        | c' :: r' =>
            if Ascii.eqb c' LF then LF :: universal_newlines r'
            else LF :: universal_newlines r
        | [] => [LF]
        end
      else c :: universal_newlines r
  end.

Inductive reader_state :=
  | START_RECORD | START_FIELD | IN_FIELD
  | IN_QUOTED_FIELD | QUOTE_IN_QUOTED_FIELD.

(** [csv.reader] over the lines of such a file.  [field] and [fields] are
    the field and the record being collected.  A line ends at [\n], where
    an open record is closed unless a quoted field is running; an empty
    line gives the empty record. *)
Fixpoint reader (st : reader_state) (field : list ascii)
    (fields : list (list ascii)) (s : list ascii)
  : list (list (list ascii)) :=
  match s with
  | [] =>
      match st with
      | START_RECORD => []
      | _ => [fields ++ [field]]
      end
  | c :: r =>
      match st with
      | START_RECORD | START_FIELD =>
          if Ascii.eqb c LF then
            match st with
            | START_RECORD => [] :: reader START_RECORD [] [] r
            | _ => (fields ++ [field]) :: reader START_RECORD [] [] r
            end
          else if Ascii.eqb c QUOTE then reader IN_QUOTED_FIELD field fields r
          else if Ascii.eqb c COMMA then
            reader START_FIELD [] (fields ++ [field]) r
          else reader IN_FIELD (field ++ [c]) fields r
      | IN_FIELD =>
          if Ascii.eqb c LF then
            (fields ++ [field]) :: reader START_RECORD [] [] r
          else if Ascii.eqb c COMMA then
            reader START_FIELD [] (fields ++ [field]) r
          else reader IN_FIELD (field ++ [c]) fields r
      | IN_QUOTED_FIELD =>
          if Ascii.eqb c QUOTE then reader QUOTE_IN_QUOTED_FIELD field fields r
          else reader IN_QUOTED_FIELD (field ++ [c]) fields r
      | QUOTE_IN_QUOTED_FIELD =>
          if Ascii.eqb c QUOTE then
            reader IN_QUOTED_FIELD (field ++ [c]) fields r
          else if Ascii.eqb c COMMA then
            reader START_FIELD [] (fields ++ [field]) r
          else if Ascii.eqb c LF then
            (fields ++ [field]) :: reader START_RECORD [] [] r
          else reader IN_FIELD (field ++ [c]) fields r
      end
  end.

(** The records of a file as [csv.reader(open(path, 'r'))] yields them. *)
Definition csv_records (file : list ascii) : list (list (list ascii)) :=
  reader START_RECORD [] [] (universal_newlines file).

(** The number of lines of a file: its line breaks, and one more when
    text follows the last break. *)
Fixpoint count_lines_from (in_line : bool) (s : list ascii) : nat :=
  match s with
  | [] => if in_line then 1%nat else 0%nat
  | c :: r =>
      if Ascii.eqb c LF then S (count_lines_from false r)
      else count_lines_from true r
  end.

Definition count_lines (file : list ascii) : nat :=
  count_lines_from false (universal_newlines file).

(** A row of [csv.DictReader]: a value is [None] for a key the row is too
    short for ([restval]).  Later columns of the same name win, as in
    [dict(zip(fieldnames, row))]. *)
Definition row_dict := list (list ascii * option (list ascii)).

Fixpoint zip_row (fieldnames row : list (list ascii)) : row_dict :=
  match fieldnames, row with
  | [], _ => []
  | k :: ks, [] => (k, None) :: zip_row ks []
  | k :: ks, v :: vs => (k, Some v) :: zip_row ks vs
  end.

Fixpoint list_ascii_eqb (a b : list ascii) : bool :=
  match a, b with
  | [], [] => true
  | x :: a', y :: b' => Ascii.eqb x y && list_ascii_eqb a' b'
  | _, _ => false
  end.

(** [row[key]]: [None] is [KeyError]. *)
Fixpoint getitem (d : row_dict) (key : list ascii)
  : option (option (list ascii)) :=
  match d with
  | [] => None
  | (k, v) :: rest =>
      match getitem rest key with
      | Some later => Some later
      | None => if list_ascii_eqb k key then Some v else None
      end
  end.

(** [csv.DictReader(f)]: the first record names the columns, empty records
    are skipped. *)
Definition DictReader (file : list ascii) : list row_dict :=
  match csv_records file with
  | [] => []
  | fieldnames :: rows =>
      map (zip_row fieldnames)
          (filter (fun r => match r with [] => false | _ => true end) rows)
  end.

Definition csv_header : list (list ascii) :=
  [text "timestamp"; text "temperature_c"; text "temperature_f";
   text "humidity_percent"].

Definition csv_row (data : Reading) : list (list ascii) :=
  [timestamp data; str_float (temperature_c data);
   str_float (temperature_f data); str_float (humidity_percent data)].

(** A data row read back as a reading: the four columns by name, the
    numbers through [float] and brought to tenths. *)
Definition reading_of_row (d : row_dict) : option Reading :=
  match getitem d (text "timestamp"), getitem d (text "temperature_c"),
        getitem d (text "temperature_f"), getitem d (text "humidity_percent")
  with
  | Some (Some ts), Some (Some c), Some (Some f), Some (Some h) =>
      match parse_float c, parse_float f, parse_float h with
      | Some c', Some f', Some h' =>
          Some {| timestamp := ts; temperature_c := round1 c';
                  temperature_f := round1 f'; humidity_percent := round1 h' |}
      | _, _, _ => None
      end
  | _, _, _, _ => None
  end.

(** ** Statistics *)

Record Summary := { min : Q; max : Q; avg : Q }.

Record Statistics := {
  stats_readings_count : nat;
  temperature : Summary;
  humidity : Summary
}.

(** The binary exponent of a non-zero [x]: the [e] with
    [2 ^ e <= |x| < 2 ^ (e + 1)]. *)
Definition exponent (x : Q) : Z :=
  let a := Z.log2 (Z.abs (Qnum x)) - Z.log2 (Zpos (Qden x)) in
  if Qle_bool (2 ^ a) (Qabs x) then a else a - 1.

(** The double nearest to [x], ties to even: 53 significant bits.  The
    exponent is not bounded: the values are sensor readings and their
    sums, far from the ends of the range of a double. *)
Definition binary64 (x : Q) : Q :=
  match Qnum x with
  | 0 => 0%Q
  | _ => let ulp := (2 ^ (exponent x - 52))%Q in
         (inject_Z (round_half_even (x / ulp)) * ulp)%Q
  end.

(** [x + y] and [x / y] on doubles. *)
Definition float_add (x y : Q) : Q := binary64 (x + y).

Definition float_div (x y : Q) : Q := binary64 (x / y).

(** [min(xs)] and [max(xs)] of a non-empty list, given by its head and
    tail: the first of several equal extremes is kept. *)
Definition list_min (x : Q) (xs : list Q) : Q :=
  fold_left (fun m y => match Qcompare y m with Lt => y | _ => m end) xs x.

Definition list_max (x : Q) (xs : list Q) : Q :=
  fold_left (fun m y => match Qcompare y m with Gt => y | _ => m end) xs x.

(** [sum(xs)] of a list of floats: from 0, the items are added from left
    to right, each addition rounded (the builtin of Python 3.11, which
    the script names).  An item is the double of its decimal. *)
Definition fsum (xs : list Q) : Q :=
  fold_left (fun acc y => float_add acc (binary64 y)) xs 0%Q.

(** [len(xs)], an integer: the division turns it into a float as it
    is. *)
Definition len {A} (xs : list A) : Q := inject_Z (Z.of_nat (List.length xs)).

Definition summary (x : Q) (xs : list Q) : Summary :=
  {| min := list_min x xs; max := list_max x xs;
     avg := float_div (fsum (x :: xs)) (len (x :: xs)) |}.

(** The body of the [for row in reader] loop of [get_statistics]; [None]
    is an exception ([KeyError], [TypeError] or [ValueError]). *)
Definition data_point (row : row_dict) : option (Q * Q) :=
  match getitem row (text "temperature_c") with
  | Some (Some c) =>
      match parse_float c with
      | Some c' =>
          match getitem row (text "humidity_percent") with
          | Some (Some h) =>
              match parse_float h with
              | Some h' => Some (c', h')
              | None => None
              end
          | _ => None
          end
      | None => None
      end
  | _ => None
  end.

Fixpoint data_points (rows : list row_dict) : option (list (Q * Q)) :=
  match rows with
  | [] => Some []
  | row :: rest =>
      match data_point row, data_points rest with
      | Some p, Some ps => Some (p :: ps)
      | _, _ => None
      end
  end.

(** The part of [get_statistics] after the file was read. *)
Definition statistics_of (points : list (Q * Q)) : option Statistics :=
  match points with
  | [] => None
  | p :: ps =>
      let temps := map fst ps in
      let humidities := map snd ps in
      Some {| stats_readings_count := List.length points;
              temperature := summary (fst p) temps;
              humidity := summary (snd p) humidities |}
  end.

(** ** The [json] module *)

#[local] Set Warnings "-register-all".

(** What a file holds for [json.load]: a document, or a text that
    [json.load] rejects ([JCut]: the text of a [json.dump] that was cut
    short, the file having been emptied when it was opened for
    writing). *)
Inductive json :=
  | JNull
  | JNumber (x : Q)
  | JString (s : list ascii)
  | JArray (items : list json)
  | JObject (members : list (list ascii * json))
  | JCut.

(** The document [json.dump] writes for one reading; [json.load] gives it
    back. *)
Definition json_of_reading (data : Reading) : json :=
  JObject
    [(text "timestamp", JString (timestamp data));
     (text "temperature_c", JNumber (Q_of_decimal1 (temperature_c data)));
     (text "temperature_f", JNumber (Q_of_decimal1 (temperature_f data)));
     (text "humidity_percent",
       JNumber (Q_of_decimal1 (humidity_percent data)))].

(** ** Exceptions, the log and the state *)

Inductive exn :=
  | RuntimeError          (* what the driver raises on a bad frame *)
  | OSError               (* a file operation failed *)
  | OtherException        (* any other subclass of Exception *)
  | KeyboardInterrupt
  | SystemExit (status : Z).

(** [isinstance(e, Exception)]: [KeyboardInterrupt] and [SystemExit] only
    derive from [BaseException]. *)
Definition is_Exception (e : exn) : bool :=
  match e with
  | RuntimeError | OSError | OtherException => true
  | KeyboardInterrupt | SystemExit _ => false
  end.

Inductive level := DEBUG | INFO | WARNING | ERROR.

Inductive message :=
  | CsvFileCreated
  | LoggerInitialized
  | DataWillBeSavedTo
  | ShutdownSignalReceived
  | SensorReadSuccessful
  | SensorReturnedNone
  | SensorReadError
  | UnexpectedSensorError
  | DataSavedToCsv
  | ErrorSavingCsv
  | DataSavedToJson
  | ErrorSavingJson
  | ErrorCalculatingStatistics
  | StartingMonitoring
  | PressCtrlCToStop
  | StatisticsAfter (stats : Statistics)
  | TooManyConsecutiveErrors
  | KeyboardInterruptReceived
  | UnexpectedMainLoopError
  | SensorCleanupCompleted
  | FinalStatistics (stats : Statistics)
  | ErrorDuringCleanup
  | FatalError.

(** Where a signal can reach the loop: at the loop test, in open code of
    the body, and inside each [try] block the body enters; in
    [save_to_json] also while [json.dump] writes to the emptied file. *)
Inductive point :=
  | AtLoopTest | InReadSensor | AtDisplay | InSaveCsv | InSaveJson
  | InJsonDump | InGetStatistics | AtErrorCount | AtSleep | AtHandlerSleep.

Inductive access := Yields (value : option Q) | Fails (e : exn).

(** What the environment does during one iteration.  A file operation
    or [print] that fails raises [OSError]; [self.sensor.exit()] that fails
    raises some [Exception]. *)
Record Cycle := {
  now : datetime;                    (* datetime.now() *)
  sensor_temperature : access;       (* self.sensor.temperature *)
  sensor_humidity : access;          (* self.sensor.humidity *)
  print_error : bool;                (* print in display_data fails *)
  csv_append_error : bool;           (* open(csv_file, 'a') fails *)
  json_read_error : bool;            (* open(json_file, 'r') fails *)
  json_write_error : bool;           (* open(json_file, 'w') fails *)
  csv_read_error : bool;             (* open(csv_file, 'r') fails *)
  sensor_exit_error : bool;          (* self.sensor.exit() fails *)
  signal : option point              (* SIGINT or SIGTERM arriving when
                                        control is at this point *)
}.

Record State := {
  running : bool;                    (* self.running *)
  consecutive_errors : Z;            (* local of run *)
  readings_count : Z;                (* local of run *)
  csv_file : list ascii;             (* the text of self.csv_file *)
  json_file : option json;           (* self.json_file, None: no file *)
  log : list (level * message);      (* records the logger let through *)
  console : list Reading;            (* readings printed *)
  sensor_exit_calls : nat;           (* calls of self.sensor.exit() *)
  cleanup_calls : nat;               (* calls of self.cleanup() *)
  signals_handled : nat              (* calls of self.signal_handler *)
}.

Definition set_running (b : bool) (s : State) : State :=
  {| running := b; consecutive_errors := consecutive_errors s;
     readings_count := readings_count s; csv_file := csv_file s;
     json_file := json_file s; log := log s; console := console s;
     sensor_exit_calls := sensor_exit_calls s;
     cleanup_calls := cleanup_calls s;
     signals_handled := signals_handled s |}.

Definition set_consecutive_errors (n : Z) (s : State) : State :=
  {| running := running s; consecutive_errors := n;
     readings_count := readings_count s; csv_file := csv_file s;
     json_file := json_file s; log := log s; console := console s;
     sensor_exit_calls := sensor_exit_calls s;
     cleanup_calls := cleanup_calls s;
     signals_handled := signals_handled s |}.

Definition set_readings_count (n : Z) (s : State) : State :=
  {| running := running s; consecutive_errors := consecutive_errors s;
     readings_count := n; csv_file := csv_file s;
     json_file := json_file s; log := log s; console := console s;
     sensor_exit_calls := sensor_exit_calls s;
     cleanup_calls := cleanup_calls s;
     signals_handled := signals_handled s |}.

Definition set_csv_file (f : list ascii) (s : State) : State :=
  {| running := running s; consecutive_errors := consecutive_errors s;
     readings_count := readings_count s; csv_file := f;
     json_file := json_file s; log := log s; console := console s;
     sensor_exit_calls := sensor_exit_calls s;
     cleanup_calls := cleanup_calls s;
     signals_handled := signals_handled s |}.

Definition set_json_file (f : option json) (s : State) : State :=
  {| running := running s; consecutive_errors := consecutive_errors s;
     readings_count := readings_count s; csv_file := csv_file s;
     json_file := f; log := log s; console := console s;
     sensor_exit_calls := sensor_exit_calls s;
     cleanup_calls := cleanup_calls s;
     signals_handled := signals_handled s |}.

Definition set_log (l : list (level * message)) (s : State) : State :=
  {| running := running s; consecutive_errors := consecutive_errors s;
     readings_count := readings_count s; csv_file := csv_file s;
     json_file := json_file s; log := l; console := console s;
     sensor_exit_calls := sensor_exit_calls s;
     cleanup_calls := cleanup_calls s;
     signals_handled := signals_handled s |}.

Definition set_console (l : list Reading) (s : State) : State :=
  {| running := running s; consecutive_errors := consecutive_errors s;
     readings_count := readings_count s; csv_file := csv_file s;
     json_file := json_file s; log := log s; console := l;
     sensor_exit_calls := sensor_exit_calls s;
     cleanup_calls := cleanup_calls s;
     signals_handled := signals_handled s |}.

Definition set_sensor_exit_calls (n : nat) (s : State) : State :=
  {| running := running s; consecutive_errors := consecutive_errors s;
     readings_count := readings_count s; csv_file := csv_file s;
     json_file := json_file s; log := log s; console := console s;
     sensor_exit_calls := n;
     cleanup_calls := cleanup_calls s;
     signals_handled := signals_handled s |}.

Definition set_cleanup_calls (n : nat) (s : State) : State :=
  {| running := running s; consecutive_errors := consecutive_errors s;
     readings_count := readings_count s; csv_file := csv_file s;
     json_file := json_file s; log := log s; console := console s;
     sensor_exit_calls := sensor_exit_calls s;
     cleanup_calls := n;
     signals_handled := signals_handled s |}.

Definition set_signals_handled (n : nat) (s : State) : State :=
  {| running := running s; consecutive_errors := consecutive_errors s;
     readings_count := readings_count s; csv_file := csv_file s;
     json_file := json_file s; log := log s; console := console s;
     sensor_exit_calls := sensor_exit_calls s;
     cleanup_calls := cleanup_calls s;
     signals_handled := n |}.

(** ** Statements *)

Inductive result (A : Type) :=
  | Normal (a : A)
  | Raised (e : exn).

Arguments Normal {A} a.
Arguments Raised {A} e.

Definition M (A : Type) : Type := State -> result A * State.

Definition ret {A} (a : A) : M A := fun s => (Normal a, s).

Definition bind {A B} (m : M A) (k : A -> M B) : M B :=
  fun s =>
    match m s with
    | (Normal a, s') => k a s'
    | (Raised e, s') => (Raised e, s')
    end.

Definition raise {A} (e : exn) : M A := fun s => (Raised e, s).

Definition get {A} (f : State -> A) : M A := fun s => (Normal (f s), s).

Definition modify (f : State -> State) : M unit := fun s => (Normal tt, f s).

Declare Scope stmt_scope.
Delimit Scope stmt_scope with stmt.
Notation "x <- m ;; k" := (bind m (fun x => k))
  (at level 61, m at next level, right associativity) : stmt_scope.
Notation "m ;; k" := (bind m (fun _ => k))
  (at level 61, right associativity) : stmt_scope.
Open Scope stmt_scope.

(** [try: body] followed by [except] clauses: [clauses e] is the handler
    of the first clause that matches [e], if one does. *)
Definition try_except {A} (body : M A) (clauses : exn -> option (M A)) : M A :=
  fun s =>
    match body s with
    | (Raised e, s') =>
        match clauses e with
        | Some handler => handler s'
        | None => (Raised e, s')
        end
    | done => done
    end.

Definition when (b : bool) (m : M unit) : M unit := if b then m else ret tt.

(** An operation of the environment that raises [e] when it fails. *)
Definition may_raise (fails : bool) (e : exn) : M unit :=
  if fails then raise e else ret tt.

(** The module's logger is set to [logging.INFO]: debug records are
    dropped, the others are appended to the log. *)
Definition logger (l : level) (m : message) : M unit :=
  match l with
  | DEBUG => ret tt
  | _ => modify (fun s => set_log (log s ++ [(l, m)]) s)
  end.

Definition point_eqb (p q : point) : bool :=
  match p, q with
  | AtLoopTest, AtLoopTest | InReadSensor, InReadSensor
  | AtDisplay, AtDisplay | InSaveCsv, InSaveCsv | InSaveJson, InSaveJson
  | InJsonDump, InJsonDump
  | InGetStatistics, InGetStatistics | AtErrorCount, AtErrorCount
  | AtSleep, AtSleep | AtHandlerSleep, AtHandlerSleep => true
  | _, _ => false
  end.

(** ** The methods of [DHT11SensorLogger] *)

Section Cycle.

Variable c : Cycle.

(** [get_statistics].  [interruption] is what may happen on entering the
    [try] block: a signal in the loop, nothing when [cleanup] calls it (a
    second signal during the handler is not considered). *)
Definition get_statistics_with (interruption : M unit)
  : M (option Statistics) :=
  try_except
    (interruption ;;
     may_raise (csv_read_error c) OSError ;;
     file <- get csv_file ;;
     match data_points (DictReader file) with
     | Some points => ret (statistics_of points)
     | None => raise OtherException       (* a row that does not convert *)
     end)
    (fun e =>
       if is_Exception e
       then Some (logger ERROR ErrorCalculatingStatistics ;; ret None)
       else None).

Definition cleanup : M unit :=
  modify (fun s => set_cleanup_calls (S (cleanup_calls s)) s) ;;
  try_except
    (modify (fun s => set_sensor_exit_calls (S (sensor_exit_calls s)) s) ;;
     may_raise (sensor_exit_error c) OtherException ;;
     logger INFO SensorCleanupCompleted ;;
     stats <- get_statistics_with (ret tt) ;;
     match stats with
     | Some stats => logger INFO (FinalStatistics stats)
     | None => ret tt
     end)
    (fun e =>
       if is_Exception e then Some (logger ERROR ErrorDuringCleanup)
       else None).

Definition signal_handler : M unit :=
  modify (fun s => set_signals_handled (S (signals_handled s)) s) ;;
  logger INFO ShutdownSignalReceived ;;
  modify (set_running false) ;;
  cleanup ;;
  raise (SystemExit 0).

(** A place where a pending signal is served. *)
Definition tick (p : point) : M unit :=
  match signal c with
  | Some q => if point_eqb p q then signal_handler else ret tt
  | None => ret tt
  end.

Definition sensor_get (a : access) : M (option Q) :=
  match a with
  | Yields v => ret v
  | Fails e => raise e
  end.

Definition read_sensor : M (option Reading) :=
  try_except
    (tick InReadSensor ;;
     temperature_c <- sensor_get (sensor_temperature c) ;;
     humidity <- sensor_get (sensor_humidity c) ;;
     match temperature_c, humidity with
     | Some temperature_c, Some humidity =>
         let temperature_f := fahrenheit temperature_c in
         let data :=
           {| timestamp := isoformat (now c);
              temperature_c := round1 temperature_c;
              temperature_f := round1 temperature_f;
              humidity_percent := round1 humidity |} in
         logger DEBUG SensorReadSuccessful ;;
         ret (Some data)
     | _, _ =>
         logger WARNING SensorReturnedNone ;;
         ret None
     end)
    (fun e =>
       match e with
       | RuntimeError => Some (logger DEBUG SensorReadError ;; ret None)
       | _ =>
           if is_Exception e
           then Some (logger ERROR UnexpectedSensorError ;; ret None)
           else None
       end).

Definition save_to_csv (data : Reading) : M unit :=
  try_except
    (tick InSaveCsv ;;
     may_raise (csv_append_error c) OSError ;;
     modify (fun s => set_csv_file (csv_file s ++ writerow (csv_row data)) s) ;;
     logger DEBUG DataSavedToCsv)
    (fun e =>
       if is_Exception e then Some (logger ERROR ErrorSavingCsv) else None).

(** [open(self.json_file, 'w')] empties the file, and [json.dump] then
    writes the text piece by piece: a signal served in between leaves the
    file cut.  The file operations themselves fail when the file is
    opened ([Cycle]). *)
Definition save_to_json (data : Reading) : M unit :=
  try_except
    (tick InSaveJson ;;
     file <- get json_file ;;
     json_data <-
       match file with
       | Some document =>
           may_raise (json_read_error c) OSError ;;
           match document with
           | JCut => raise OtherException   (* json.load rejects the text *)
           | _ => ret document
           end
       | None => ret (JArray [])
       end ;;
     match json_data with
     | JArray items =>
         may_raise (json_write_error c) OSError ;;
         modify (set_json_file (Some JCut)) ;;
         tick InJsonDump ;;
         modify (set_json_file (Some (JArray (items ++ [json_of_reading data])))) ;;
         logger DEBUG DataSavedToJson
     | _ => raise OtherException          (* no append on this value *)
     end)
    (fun e =>
       if is_Exception e then Some (logger ERROR ErrorSavingJson) else None).

Definition display_data (data : Reading) : M unit :=
  may_raise (print_error c) OSError ;;
  modify (fun s => set_console (console s ++ [data]) s).

Definition get_statistics : M (option Statistics) :=
  get_statistics_with (tick InGetStatistics).

Definition max_consecutive_errors : Z := 10.

(** The statistics are logged after every tenth reading. *)
Definition log_statistics : M unit :=
  n <- get readings_count ;;
  if n mod 10 =? 0 then
    stats <- get_statistics ;;
    match stats with
    | Some stats => logger INFO (StatisticsAfter stats)
    | None => ret tt
    end
  else ret tt.

(** A reading goes to the console and to the files. *)
Definition dispatch (display save_csv save_json : bool) (data : Reading)
  : M unit :=
  when display (tick AtDisplay ;; display_data data) ;;
  when save_csv (save_to_csv data) ;;
  when save_json (save_to_json data) ;;
  log_statistics.

(** The branch of [if data:] for a reading. *)
Definition on_reading (display save_csv save_json : bool) (data : Reading)
  : M unit :=
  modify (fun s => set_readings_count (readings_count s + 1) s) ;;
  modify (set_consecutive_errors 0) ;;
  dispatch display save_csv save_json data.

(** The [else] branch. *)
Definition on_failure : M unit :=
  modify (fun s => set_consecutive_errors (consecutive_errors s + 1) s) ;;
  n <- get consecutive_errors ;;
  if n >=? max_consecutive_errors then
    logger ERROR TooManyConsecutiveErrors ;;
    modify (set_consecutive_errors 0)
  else ret tt.

(** The clauses of the [try] in the loop. *)
Definition run_clauses (e : exn) : option (M unit) :=
  match e with
  | KeyboardInterrupt =>
      Some (logger INFO KeyboardInterruptReceived ;;
            modify (set_running false))
  | _ =>
      if is_Exception e
      then Some (logger ERROR UnexpectedMainLoopError ;; tick AtHandlerSleep)
      else None
  end.

(** One pass through the body of [while self.running]; the two sleeps are
    places where a signal is served. *)
Definition run_body (display save_csv save_json : bool) : M unit :=
  try_except
    (data <- read_sensor ;;
     match data with
     | Some data => on_reading display save_csv save_json data
     | None => tick AtErrorCount ;; on_failure
     end ;;
     tick AtSleep)
    run_clauses.

End Cycle.

(** The loop of [run] over the iterations the environment describes; it
    stops early when [self.running] is false or an exception leaves it. *)
Fixpoint run_loop (display save_csv save_json : bool) (cycles : list Cycle)
  : M unit :=
  match cycles with
  | [] => ret tt
  | c :: rest =>
      tick c AtLoopTest ;;
      r <- get running ;;
      if r then
        run_body c display save_csv save_json ;;
        run_loop display save_csv save_json rest
      else ret tt
  end.

Definition run (display save_csv save_json : bool) (cycles : list Cycle)
  : M unit :=
  logger INFO StartingMonitoring ;;
  logger INFO PressCtrlCToStop ;;
  modify (set_consecutive_errors 0) ;;
  modify (set_readings_count 0) ;;
  run_loop display save_csv save_json cycles.

(** [_init_csv_file]: the file is opened with ['w'] and gets the header
    row. *)
Definition _init_csv_file (open_error : bool) : M unit :=
  may_raise open_error OSError ;;
  modify (set_csv_file (writerow csv_header)) ;;
  logger INFO CsvFileCreated.

(** [__init__]: the sensor object is made, which fails when the driver or
    the hardware is missing, then the data file of this run is started.
    The two signal handlers are installed here, so from now on SIGINT
    runs [signal_handler] and raises no [KeyboardInterrupt]. *)
Definition __init__ (sensor_error : option exn) (open_error : bool) : M unit :=
  match sensor_error with
  | Some e => raise e
  | None =>
      modify (set_running true) ;;
      _init_csv_file open_error ;;
      logger INFO LoggerInitialized ;;
      logger INFO DataWillBeSavedTo
  end.

(** [main], with its configuration: display and CSV on, JSON off. *)
Definition main (sensor_error : option exn) (open_error : bool)
    (cycles : list Cycle) : M unit :=
  try_except
    (__init__ sensor_error open_error ;;
     run true true false cycles)
    (fun e =>
       if is_Exception e
       then Some (logger ERROR FatalError ;; raise (SystemExit 1))
       else None).

(** The state the process starts in: nothing logged, and the two data
    files of this run, named after the second it starts in, not there. *)
Definition fresh : State :=
  {| running := false; consecutive_errors := 0; readings_count := 0;
     csv_file := []; json_file := None; log := []; console := [];
     sensor_exit_calls := 0; cleanup_calls := 0; signals_handled := 0 |}.

(** ** The loop of [DHT22/trixie-logger-gen2/main.py] *)

Module DHT22.

(** [temperature_c * 9 / 5 + 32 if temperature_c is not None else None]. *)
Definition temperature_f (temperature_c : option Q) : option Q :=
  match temperature_c with
  | Some t => Some (fahrenheit t)
  | None => None
  end.

(** The [.1f] format of a float. *)
Definition format_1f (x : Q) : list ascii := str_float (round1 x).

(** The row one iteration appends to the log file, if it appends one. *)
Definition logged_row (now : datetime) (temperature_c humidity : option Q)
  : option (list (list ascii)) :=
  let temperature_f := temperature_f temperature_c in
  match humidity, temperature_c with
  | Some h, Some t =>
      match temperature_f with
      | Some f =>
          Some [strftime_ymd_hms now; format_1f t; format_1f f; format_1f h]
      | None => None                      (* the format raises TypeError *)
      end
  | _, _ => None
  end.

End DHT22.

(** ** Notions used in the statements *)

(** *** Text *)

(** A character that is neither a delimiter, a quote nor a line break. *)
Definition plain_char (c : ascii) : bool := negb (special c).

Definition plain (s : list ascii) : bool := forallb plain_char s.

(** A row the writer leaves unquoted and the reader takes as one record
    of several fields. *)
Definition plain_row (row : list (list ascii)) : bool :=
  forallb plain row && (2 <=? List.length row)%nat.

(** No carriage return or line feed. *)
Definition unbroken (s : list ascii) : bool :=
  forallb (fun c => negb (Ascii.eqb c CR) && negb (Ascii.eqb c LF)) s.

(** The text of the data file after [_init_csv_file] and one
    [save_to_csv] for each reading of [ds], in this order. *)
Definition csv_text (ds : list Reading) : list ascii :=
  List.concat (map writerow (csv_header :: map csv_row ds)).

(** The same rows as the reader receives them, each closed by [\n]. *)
Definition unix_text (rows : list (list (list ascii))) : list ascii :=
  List.concat (map (fun row => join COMMA row ++ [LF]) rows).

(** *** Outcomes of statements *)

Definition raised {A} (r : result A) : option exn :=
  match r with
  | Normal _ => None
  | Raised e => Some e
  end.

(** The exceptions some [except] clause of the program names. *)
Definition catchable (e : exn) : Prop :=
  is_Exception e = true \/ e = KeyboardInterrupt.

(** [obeys T m]: from any state, [m] ends in a state that [T] relates to
    the initial one, for the way it ended ([None]: normally). *)
Definition obeys (T : option exn -> State -> State -> Prop) {A} (m : M A)
  : Prop :=
  forall s, T (raised (fst (m s))) s (snd (m s)).

(** Relations that compose along sequences and through handlers. *)
Class Stable (T : option exn -> State -> State -> Prop) : Prop := {
  stable_refl : forall s, T None s s;
  stable_seq : forall o s1 s2 s3, T None s1 s2 -> T o s2 s3 -> T o s1 s3;
  stable_caught : forall e o s1 s2 s3,
    catchable e -> T (Some e) s1 s2 -> T o s2 s3 -> T o s1 s3
}.

(** The value of [f] is not changed. *)
Definition same {B} (f : State -> B) : option exn -> State -> State -> Prop :=
  fun _ s s' => f s' = f s.

(** A property of the state that is never lost. *)
Definition keeps (I : State -> Prop) : option exn -> State -> State -> Prop :=
  fun _ s s' => I s -> I s'.

(** The value of [f] is kept, and what is raised is an [Exception]. *)
Definition carries {B} (f : State -> B) : option exn -> State -> State -> Prop :=
  fun o s s' => f s' = f s /\ forall e, o = Some e -> is_Exception e = true.

(** The state after a sequence of records was logged. *)
Definition emit (records : list (level * message)) (s : State) : State :=
  fold_left (fun s r => set_log (log s ++ [r]) s) records s.

(** *** One read attempt, as the driver decides it *)

(** The exception the two accesses meet, if any; the humidity is only
    read after the temperature was. *)
Definition read_error (c : Cycle) : option exn :=
  match sensor_temperature c with
  | Fails e => Some e
  | Yields _ =>
      match sensor_humidity c with
      | Fails e => Some e
      | Yields _ => None
      end
  end.

(** The pair of values, when both accesses gave one. *)
Definition read_values (c : Cycle) : option (Q * Q) :=
  match sensor_temperature c, sensor_humidity c with
  | Yields (Some t), Yields (Some h) => Some (t, h)
  | _, _ => None
  end.

(** The driver missed a frame: it raised [RuntimeError], or gave [None]
    for a value. *)
Definition transient_read_failure (c : Cycle) : Prop :=
  read_error c = Some RuntimeError \/
  (read_error c = None /\ read_values c = None).

(** The driver raised an exception of another class. *)
Definition fatal_driver_failure (c : Cycle) : Prop :=
  exists e, read_error c = Some e /\ is_Exception e = true /\ e <> RuntimeError.

(** A signal arrives, or an access is left by an exception that is no
    [Exception], such as [KeyboardInterrupt]. *)
Definition interrupt_requested (c : Cycle) : Prop :=
  signal c <> None \/ exists e, read_error c = Some e /\ is_Exception e = false.

(** The attempt gives no reading. *)
Definition failed_read (c : Cycle) : Prop :=
  transient_read_failure c \/ fatal_driver_failure c.

(** What [read_sensor] returns and logs when no signal arrives in it
    (lemma [read_sensor_quiet]). *)
Definition read_result (c : Cycle) : result (option Reading) :=
  match read_error c with
  | Some e => if is_Exception e then Normal None else Raised e
  | None =>
      match read_values c with
      | Some (t, h) =>
          Normal (Some {| timestamp := isoformat (now c);
                          temperature_c := round1 t;
                          temperature_f := round1 (fahrenheit t);
                          humidity_percent := round1 h |})
      | None => Normal None
      end
  end.

Definition read_log (c : Cycle) : list (level * message) :=
  match read_error c with
  | Some RuntimeError => []
  | Some e => if is_Exception e then [(ERROR, UnexpectedSensorError)] else []
  | None =>
      match read_values c with
      | Some _ => []
      | None => [(WARNING, SensorReturnedNone)]
      end
  end.

(** What [read_sensor] returns in an iteration. *)
Definition returns_no_reading (c : Cycle) : Prop :=
  forall s, fst (read_sensor c s) = Normal None.

Definition returns_reading (c : Cycle) (data : Reading) : Prop :=
  forall s, fst (read_sensor c s) = Normal (Some data).

(** *** The failure counter *)

(** The records [run] logs when the counter reaches the threshold. *)
Definition is_threshold (r : level * message) : bool :=
  match snd r with
  | TooManyConsecutiveErrors => true
  | _ => false
  end.

Definition threshold_warnings (l : list (level * message)) : nat :=
  List.length (filter is_threshold l).

Definition below_threshold (s : State) : Prop :=
  0 <= consecutive_errors s < max_consecutive_errors.

(** *** Signals *)

(** The calls of the handler, of [cleanup] and of [self.sensor.exit()]. *)
Definition calls (s : State) : nat * nat * nat :=
  (signals_handled s, cleanup_calls s, sensor_exit_calls s).

(** Either no signal was served and nothing was cleaned up, or one signal
    was: the handler then ran [cleanup] once, which called
    [self.sensor.exit()] once, and left through [sys.exit(0)]. *)
Definition served : option exn -> State -> State -> Prop :=
  fun o s s' =>
    calls s' = calls s \/
    (o = Some (SystemExit 0) /\ running s' = false /\
     signals_handled s' = S (signals_handled s) /\
     cleanup_calls s' = S (cleanup_calls s) /\
     sensor_exit_calls s' = S (sensor_exit_calls s)).

(** *** The sinks *)

(** [save_to_csv], respectively [save_to_json], for each reading in turn,
    each in its iteration. *)
Fixpoint save_all_to_csv (cds : list (Cycle * Reading)) : M unit :=
  match cds with
  | [] => ret tt
  | (c, data) :: rest => save_to_csv c data ;; save_all_to_csv rest
  end.

Fixpoint save_all_to_json (cds : list (Cycle * Reading)) : M unit :=
  match cds with
  | [] => ret tt
  | (c, data) :: rest => save_to_json c data ;; save_all_to_json rest
  end.

(** A reading produced in an iteration in which no signal arrives and
    the data file, respectively the JSON file, can be written. *)
Definition recorded_in_csv (cd : Cycle * Reading) : Prop :=
  returns_reading (fst cd) (snd cd) /\ signal (fst cd) = None /\
  csv_append_error (fst cd) = false.

Definition recorded_in_json (cd : Cycle * Reading) : Prop :=
  returns_reading (fst cd) (snd cd) /\ signal (fst cd) = None /\
  json_read_error (fst cd) = false /\ json_write_error (fst cd) = false.

(** An object of the JSON file read back as a reading. *)
Definition reading_of_json (j : json) : option Reading :=
  match j with
  | JObject [(k1, JString ts); (k2, JNumber c); (k3, JNumber f);
             (k4, JNumber h)] =>
      if list_ascii_eqb k1 (text "timestamp")
         && list_ascii_eqb k2 (text "temperature_c")
         && list_ascii_eqb k3 (text "temperature_f")
         && list_ascii_eqb k4 (text "humidity_percent")
      then Some {| timestamp := ts; temperature_c := round1 c;
                   temperature_f := round1 f; humidity_percent := round1 h |}
      else None
  | _ => None
  end.

(** The objects [save_to_json] finds: none without a file; [None] when
    the file does not hold a sequence. *)
Definition json_items (s : State) : option (list json) :=
  match json_file s with
  | None => Some []
  | Some (JArray items) => Some items
  | Some _ => None
  end.

(** A file operation of [save_to_json] fails (the file is only read when
    it exists). *)
Definition json_fails (c : Cycle) (s : State) : bool :=
  match json_file s with
  | Some _ => json_read_error c || json_write_error c
  | None => json_write_error c
  end.

(** What the sinks have written, with the flag of the loop. *)
Definition written (s : State)
  : bool * list ascii * option json * list Reading :=
  (running s, csv_file s, json_file s, console s).

(** *** Statistics *)

(** The temperature and humidity of a reading as [get_statistics] reads
    them from its row. *)
Definition point_of (d : Reading) : Q * Q :=
  (Q_of_decimal1 (temperature_c d), Q_of_decimal1 (humidity_percent d)).

Definition total (xs : list Q) : Q := fold_right Qplus 0%Q xs.

Definition is_min (m : Q) (xs : list Q) : Prop :=
  In m xs /\ forall y, In y xs -> (m <= y)%Q.

Definition is_max (m : Q) (xs : list Q) : Prop :=
  In m xs /\ forall y, In y xs -> (y <= m)%Q.

(** [m] is the arithmetic mean of the non-empty list [xs]. *)
Definition is_mean (m : Q) (xs : list Q) : Prop :=
  xs <> [] /\ (m * len xs == total xs)%Q.

(** The relative error of one rounding to a double is at most
    [2 ^ -53]. *)
Definition unit_roundoff : Q := 1 # 9007199254740992.

(** [(1 + unit_roundoff) ^ n]: what [n] roundings in a row make of 1 at
    most. *)
Fixpoint compound (n : nat) : Q :=
  match n with
  | O => 1%Q
  | S n => (compound n * (1 + unit_roundoff))%Q
  end.

(** How far the float average of [xs] can be from the arithmetic mean:
    every item is rounded to a double and so is every addition, and at
    last the quotient, each time by [unit_roundoff] of the value at
    most; the values are at most the mean of the magnitudes. *)
Definition rounding (xs : list Q) : Q :=
  ((compound (2 * List.length xs + 1) - 1)
   * (total (map Qabs xs) / len xs))%Q.

(** [m] is the arithmetic mean of the non-empty list [xs] up to the
    rounding of the float sum and quotient. *)
Definition is_rounded_mean (m : Q) (xs : list Q) : Prop :=
  xs <> [] /\ (Qabs (m - total xs / len xs) <= rounding xs)%Q.

(** *** Environments used as examples *)

Definition noon : datetime :=
  {| year := 2024; month := 6; day := 1;
     hour := 12; minute := 0; second := 0; microsecond := 250000 |}.

(** An iteration in which the driver gives the two values and nothing
    fails. *)
Definition measured (t h : Q) : Cycle :=
  {| now := noon;
     sensor_temperature := Yields (Some t); sensor_humidity := Yields (Some h);
     print_error := false; csv_append_error := false;
     json_read_error := false; json_write_error := false;
     csv_read_error := false; sensor_exit_error := false; signal := None |}.

(** The reading of [measured 21.5 40]. *)
Definition sample_reading : Reading :=
  {| timestamp := isoformat noon; temperature_c := 215;
     temperature_f := 707; humidity_percent := 400 |}.

(** Three readings of 20.0, 22.0 and 24.0 degrees. *)
Definition three_readings : list Reading :=
  [{| timestamp := isoformat noon; temperature_c := 200;
      temperature_f := 680; humidity_percent := 450 |};
   {| timestamp := isoformat noon; temperature_c := 220;
      temperature_f := 716; humidity_percent := 500 |};
   {| timestamp := isoformat noon; temperature_c := 240;
      temperature_f := 752; humidity_percent := 555 |}].

(** Three readings of 21.6 degrees. *)
Definition steady_readings : list Reading :=
  let d := {| timestamp := isoformat noon; temperature_c := 216;
              temperature_f := 709; humidity_percent := 400 |} in
  [d; d; d].

(** An iteration in which the driver misses the frame. *)
Definition missed : Cycle :=
  {| now := noon;
     sensor_temperature := Fails RuntimeError; sensor_humidity := Yields None;
     print_error := false; csv_append_error := false;
     json_read_error := false; json_write_error := false;
     csv_read_error := false; sensor_exit_error := false; signal := None |}.

(** An iteration with a reading in which the data file cannot be
    opened. *)
Definition csv_unwritable : Cycle :=
  {| now := noon;
     sensor_temperature := Yields (Some (215 # 10));
     sensor_humidity := Yields (Some (40 # 1));
     print_error := false; csv_append_error := true;
     json_read_error := false; json_write_error := false;
     csv_read_error := false; sensor_exit_error := false; signal := None |}.

(** An iteration in which a signal arrives at [p]. *)
Definition signalled (p : point) : Cycle :=
  {| now := noon;
     sensor_temperature := Yields (Some (215 # 10));
     sensor_humidity := Yields (Some (40 # 1));
     print_error := false; csv_append_error := false;
     json_read_error := false; json_write_error := false;
     csv_read_error := false; sensor_exit_error := false; signal := Some p |}.

(** The state [run] is entered in by [main] when [__init__] went through. *)
Definition started : State :=
  snd (__init__ None false fresh).

(** An environment and a start in which the signal that arrives at [p]
    is served there: a failed read for the [else] branch, a failing
    [print] for the clause of the loop, a tenth reading for the
    statistics. *)
Definition reaching (p : point) : Cycle * State :=
  let c := signalled p in
  let failing :=
    {| now := now c; sensor_temperature := Yields None;
       sensor_humidity := sensor_humidity c; print_error := false;
       csv_append_error := false; json_read_error := false;
       json_write_error := false; csv_read_error := false;
       sensor_exit_error := false; signal := Some p |} in
  let unprintable :=
    {| now := now c; sensor_temperature := sensor_temperature c;
       sensor_humidity := sensor_humidity c; print_error := true;
       csv_append_error := false; json_read_error := false;
       json_write_error := false; csv_read_error := false;
       sensor_exit_error := false; signal := Some p |} in
  match p with
  | AtErrorCount => (failing, started)
  | AtHandlerSleep => (unprintable, started)
  | InGetStatistics => (c, set_readings_count 9 started)
  | _ => (c, started)
  end.

(** *** Whole runs *)

(** The reading [read_sensor] returns in an iteration, if it returns
    one. *)
Definition reading_of (c : Cycle) : option Reading :=
  match fst (read_sensor c fresh) with
  | Normal data => data
  | Raised _ => None
  end.

(** What an iteration adds to [readings_count]. *)
Definition counted (c : Cycle) : Z :=
  match reading_of c with
  | Some _ => 1
  | None => 0
  end.

(** The reading an iteration appends to the data file when [save_csv] is
    set: [save_to_csv] is reached unless [print] fails, and writes unless
    its [open] fails. *)
Definition appended (display : bool) (c : Cycle) : list Reading :=
  match reading_of c with
  | Some data =>
      if (display && print_error c) || csv_append_error c then []
      else [data]
  | None => []
  end.

(** The rows [save_to_csv] writes for the readings [ds]. *)
Definition rows_of (ds : list Reading) : list ascii :=
  List.concat (map writerow (map csv_row ds)).

(** A text made of the header row and one row for each reading of some
    list. *)
Definition header_and_rows (file : list ascii) : Prop :=
  exists ds,
    forallb (fun d => plain (timestamp d)) ds = true /\ file = csv_text ds.

(** The same with a last row that ends after its second field. *)
Definition cut_short (file : list ascii) : Prop :=
  exists ds ts k,
    forallb (fun d => plain (timestamp d)) ds = true /\
    plain ts = true /\
    file = csv_text ds ++ join COMMA [ts; str_float k].

(** The JSON file is only ever extended, by objects of readings, unless
    a signal ends the run while [json.dump] writes ([cut]): then it is
    left with a cut text.  A file that holds no sequence is left as it
    is. *)
Definition json_grows (cut : Prop) : option exn -> State -> State -> Prop :=
  fun o s s' =>
    match json_items s with
    | Some items =>
        (exists ds, json_items s' = Some (items ++ map json_of_reading ds)) \/
        (json_file s' = Some JCut /\ o = Some (SystemExit 0) /\ cut)
    | None => json_file s' = json_file s
    end.

(** A signal arrives in one of the iterations while [json.dump]
    writes. *)
Definition cut_in (cycles : list Cycle) : Prop :=
  Exists (fun c => signal c = Some InJsonDump) cycles.

(** A JSON file with one stored reading. *)
Definition one_stored : State :=
  set_json_file (Some (JArray [json_of_reading sample_reading])) started.

(** Nothing is said about the states. *)
Definition anything : option exn -> State -> State -> Prop :=
  fun _ _ _ => True.

(** What is raised is no [Exception]: it passes every [except Exception]
    clause. *)
Definition passes : option exn -> State -> State -> Prop :=
  fun o _ _ => forall e, o = Some e -> is_Exception e = false.

(** [__init__] raises an [Exception]: the sensor object cannot be made,
    or the data file cannot be opened. *)
Definition init_fails (sensor_error : option exn) (open_error : bool) : bool :=
  match sensor_error with
  | Some e => is_Exception e
  | None => open_error
  end.

(** An iteration in which the driver raises [KeyboardInterrupt]. *)
Definition interrupted : Cycle :=
  {| now := noon;
     sensor_temperature := Yields (Some (215 # 10));
     sensor_humidity := Fails KeyboardInterrupt;
     print_error := false; csv_append_error := false;
     json_read_error := false; json_write_error := false;
     csv_read_error := false; sensor_exit_error := false; signal := None |}.

(** An iteration with a reading in which [print] fails. *)
Definition unprintable : Cycle :=
  {| now := noon;
     sensor_temperature := Yields (Some (215 # 10));
     sensor_humidity := Yields (Some (40 # 1));
     print_error := true; csv_append_error := false;
     json_read_error := false; json_write_error := false;
     csv_read_error := false; sensor_exit_error := false; signal := None |}.

(** * The console scripts *)

(** The other four scripts keep no state but the sensor object: each is
    a loop that reads, prints and sleeps.  A script is modelled by how it
    ends and by the events it causes, in order.  A [print] raises
    [OSError] when the standard output is lost (a closed pipe), and
    prints nothing then. *)

Module Console.

Section Traces.

Context {E : Type}.

Definition T (A : Type) : Type := (result A * list E)%type.

Definition pure {A} (a : A) : T A := (Normal a, []).

Definition throw {A} (e : exn) : T A := (Raised e, []).

Definition does (x : E) : T unit := (Normal tt, [x]).

(** [m] after the events [t]. *)
Definition after {A} (t : list E) (m : T A) : T A := (fst m, t ++ snd m).

Definition andthen {A B} (m : T A) (k : A -> T B) : T B :=
  match fst m with
  | Normal a => after (snd m) (k a)
  | Raised e => (Raised e, snd m)
  end.

(** [try: body] with [except] clauses, as [try_except]. *)
Definition attempt {A} (body : T A) (clauses : exn -> option (T A)) : T A :=
  match fst body with
  | Normal _ => body
  | Raised e =>
      match clauses e with
      | Some handler => after (snd body) handler
      | None => body
      end
  end.

(** [try: body] with [finally: final]: [final] runs however [body]
    ends, and an exception of [final] replaces the outcome of [body]. *)
Definition finally {A} (body : T A) (final : T unit) : T A :=
  match fst final with
  | Normal _ => (fst body, snd body ++ snd final)
  | Raised e => (Raised e, snd body ++ snd final)
  end.

End Traces.

Arguments T : clear implicits.

Declare Scope trace_scope.
Delimit Scope trace_scope with trace.
Notation "x <- m ;; k" := (andthen m (fun x => k))
  (at level 61, m at next level, right associativity) : trace_scope.
Notation "m ;; k" := (andthen m (fun _ => k))
  (at level 61, right associativity) : trace_scope.
#[local] Open Scope trace_scope.

(** ** Events *)

(** What a script prints; the texts are named, the values they show are
    kept. *)
Inductive line :=
  | Blank
  | Notice                   (* a line of fixed text *)
  | Library_not_installed
  | Initialization_error
  | Stamp (now : datetime)                      (* printed with end="" *)
  | Values (c f : decimal1) (humidity : Q)      (* [.1f], [.1f], as is *)
  | Failed_to_retrieve
  | Reading_failed
  | Directory_error
  | File_error
  | Logging_to
  | Row (fields : list (list ascii))
  | Sensor_read_failure
  | Error_reading
  | Unexpected_error
  | Stopped_by_user
  | Resources_released
  | Time (now : list ascii)
  | Water_detected (raw_value : Z)
  | Dry (raw_value : Z)
  | Script_stopped.

Inductive event :=
  | Get_temperature                   (* dht_sensor.temperature *)
  | Get_humidity                      (* dht_sensor.humidity *)
  | Print (l : line)
  | Sleep (tenths : Z)                (* time.sleep, in tenths of a second *)
  | Create (row : list (list ascii))  (* open(path, 'w'), one row written *)
  | Append (row : list (list ascii))  (* open(path, 'a'), one row written *)
  | Exit_sensor                       (* dht_sensor.exit() *)
  | Power (on : bool)                 (* sensor_power.value = on *)
  | Get_channel.                      (* chan.value *)

Definition Script (A : Type) : Type := T event A.

(** ** The environment of the temperature scripts *)

(** What reaches an iteration from outside: Ctrl-C, where control is
    then (in the [try] block, in the clause for [RuntimeError], or during
    the sleep), or the loss of the standard output ([NoOutput]), with
    which every [print] of the iteration raises. *)
Inductive place := InTry | InClause | AtSleep | NoOutput.

Definition place_eqb (p q : place) : bool :=
  match p, q with
  | InTry, InTry | InClause, InClause | AtSleep, AtSleep
  | NoOutput, NoOutput => true
  | _, _ => false
  end.

(** What the environment does during one iteration. *)
Record Poll := {
  poll_temperature : access;          (* dht_sensor.temperature *)
  poll_humidity : access;             (* dht_sensor.humidity *)
  poll_now : datetime;                (* datetime.now() *)
  append_error : bool;                (* open(path, 'a') fails *)
  interrupt : option place            (* what reaches the iteration from
                                         outside: Ctrl-C when control is
                                         there, or no output *)
}.

(** How the construction of the sensor object ends: well, with the
    exception the first [except] clause names ([ImportError],
    [ValueError]), or with another [Exception]. *)
Inductive construction := Constructed | Named_error | Other_error.

(** A place where a pending Ctrl-C raises [KeyboardInterrupt]. *)
Definition check (p : Poll) (here : place) : Script unit :=
  match interrupt p with
  | Some q => if place_eqb here q then throw KeyboardInterrupt else pure tt
  | None => pure tt
  end.

(** [print(...)]: it raises when the standard output is lost. *)
Definition say (lost : bool) (l : line) : Script unit :=
  if lost then throw OSError else does (Print l).

Definition output_lost (p : Poll) : bool :=
  match interrupt p with
  | Some NoOutput => true
  | _ => false
  end.

Definition sensor_get (x : event) (a : access) : Script (option Q) :=
  does x ;;
  match a with
  | Yields v => pure v
  | Fails e => throw e
  end.

Definition sleep (p : Poll) (tenths : Z) : Script unit :=
  check p AtSleep ;; does (Sleep tenths).

(** The middle of the [try] block of the two DHT11 scripts. *)
Definition report (p : Poll) (temperature_c humidity : option Q)
  : Script unit :=
  match humidity, temperature_c with
  | Some humidity, Some temperature_c =>
      let temperature_f := (temperature_c * (9 / 5) + 32)%Q in
      say (output_lost p) (Stamp (poll_now p)) ;;
      say (output_lost p)
        (Values (round1 temperature_c) (round1 temperature_f) humidity)
  | _, _ => say (output_lost p) Failed_to_retrieve
  end.

(** What the two DHT11 scripts do when the sensor object cannot be made:
    they print and leave by [sys.exit()], which is [SystemExit] with
    status 0. *)
Definition construction_failed (c : construction) : Script unit :=
  match c with
  | Named_error =>
      does (Print Library_not_installed) ;;
      does (Print Notice) ;;
      throw (SystemExit 0)
  | _ =>
      does (Print Initialization_error) ;;
      throw (SystemExit 0)
  end.

(** ** [rpi5-trixie-dht11.py] *)

Module rpi5_trixie_dht11.

(** One pass through the body of [while True]: the sleep follows the
    [try] statement.  The clause for [RuntimeError] prints the message
    of the error, [error.args[0]], which the driver always gives, and
    what its [print] raises leaves the [try] statement. *)
Definition iteration (p : Poll) : Script unit :=
  attempt
    (check p InTry ;;
     temperature_c <- sensor_get Get_temperature (poll_temperature p) ;;
     humidity <- sensor_get Get_humidity (poll_humidity p) ;;
     report p temperature_c humidity)
    (fun e =>
       match e with
       | RuntimeError =>
           Some (check p InClause ;; say (output_lost p) Reading_failed)
       | _ =>
           if is_Exception e then Some (does Exit_sensor ;; throw e)
           else None
       end) ;;
  sleep p 20.

Fixpoint loop (polls : list Poll) : Script unit :=
  match polls with
  | [] => pure tt
  | p :: rest => iteration p ;; loop rest
  end.

Definition script (sensor : construction) (polls : list Poll) : Script unit :=
  match sensor with
  | Constructed =>
      does (Print Notice) ;;
      does (Print Notice) ;;
      loop polls
  | failed => construction_failed failed
  end.

End rpi5_trixie_dht11.

(** ** [DHT11/dht11-rpi5-trixie.py] *)

Module dht11_rpi5_trixie.

(** Here the sleep is the last statement of the [try] block, and there
    is a clause for [KeyboardInterrupt]. *)
Definition iteration (p : Poll) : Script unit :=
  attempt
    (check p InTry ;;
     temperature_c <- sensor_get Get_temperature (poll_temperature p) ;;
     humidity <- sensor_get Get_humidity (poll_humidity p) ;;
     report p temperature_c humidity ;;
     sleep p 30)
    (fun e =>
       match e with
       | RuntimeError =>
           Some (check p InClause ;; say (output_lost p) Reading_failed)
       | KeyboardInterrupt =>
           Some (say (output_lost p) Blank ;;
                 does Exit_sensor ;;
                 throw (SystemExit 0))
       | _ =>
           if is_Exception e then Some (does Exit_sensor ;; throw e)
           else None
       end).

Fixpoint loop (polls : list Poll) : Script unit :=
  match polls with
  | [] => pure tt
  | p :: rest => iteration p ;; loop rest
  end.

Definition script (sensor : construction) (polls : list Poll) : Script unit :=
  match sensor with
  | Constructed =>
      does (Print Notice) ;;
      does (Print Notice) ;;
      loop polls
  | failed => construction_failed failed
  end.

End dht11_rpi5_trixie.

(** ** [DHT22/trixie-logger-gen2/main.py] *)

Module trixie_logger_gen2.

Definition header : list (list ascii) :=
  [text "Timestamp"; text "Temperature-C"; text "Temperature-F";
   text "Humidity_Percent"].

(** What the environment does in [main] outside the loop. *)
Record Start := {
  sensor : construction;              (* adafruit_dht.DHT22(...) *)
  makedirs_error : bool;              (* os.makedirs fails *)
  create_error : bool;                (* open(path, 'w') fails *)
  no_output_before : bool;            (* print raises before the loop *)
  no_output_after : bool              (* print raises after the loop *)
}.

(** One pass through the body of [while True].  Each clause prints (the
    first one the message of the error, [error.args[0]], which the
    driver always gives), and what its [print] raises leaves the [try]
    statement and the loop. *)
Definition iteration (p : Poll) : Script unit :=
  attempt
    (check p InTry ;;
     temperature_c <- sensor_get Get_temperature (poll_temperature p) ;;
     humidity <- sensor_get Get_humidity (poll_humidity p) ;;
     match DHT22.logged_row (poll_now p) temperature_c humidity with
     | Some row =>
         say (output_lost p) (Row row) ;;
         (if append_error p then throw OSError else pure tt) ;;
         does (Append row)
     | None => say (output_lost p) Sensor_read_failure
     end)
    (fun e =>
       match e with
       | RuntimeError =>
           Some (check p InClause ;; say (output_lost p) Error_reading)
       | _ =>
           if is_Exception e
           then Some (check p InClause ;; say (output_lost p) Unexpected_error)
           else None
       end) ;;
  sleep p 30.

Fixpoint loop (polls : list Poll) : Script unit :=
  match polls with
  | [] => pure tt
  | p :: rest => iteration p ;; loop rest
  end.

(** [main]: each step before the loop prints and returns when it fails;
    the loop is left by an exception, of which the clause takes
    [KeyboardInterrupt], and the sensor is released in the [finally]
    block.  Before the loop the output is there or lost for all the
    prints alike, and so it is after the loop.  (The [print] that
    reports the new file is in the [try] block of [open]: when it raises,
    the clause for [IOError] prints and raises in turn.) *)
Definition main (start : Start) (polls : list Poll) : Script unit :=
  let before := no_output_before start in
  let after := no_output_after start in
  say before Notice ;;
  say before Blank ;;
  say before Notice ;;
  say before Notice ;;
  say before Blank ;;
  match sensor start with
  | Named_error =>
      say before Initialization_error ;; say before Notice
  | Other_error => say before Initialization_error
  | Constructed =>
      if makedirs_error start then say before Directory_error
      else if create_error start then
        say before File_error ;; say before Notice
      else
        does (Create header) ;;
        say before Logging_to ;;
        say before Blank ;;
        say before Notice ;;
        say before Notice ;;
        say before Blank ;;
        finally
          (attempt (loop polls)
             (fun e =>
                match e with
                | KeyboardInterrupt => Some (say after Stopped_by_user)
                | _ => None
                end))
          (does Exit_sensor ;; say after Resources_released)
  end.

End trixie_logger_gen2.

(** ** [DIYables-WaterSensor/diyables-water-sensor-rpi5-trixie.py] *)

Module diyables_water_sensor.

Definition WATER_THRESHOLD : Z := 4500.

(** Where Ctrl-C reaches an iteration: while the sensor is powered, or
    after it was switched off. *)
Inductive stage := Powered | Unpowered.

Definition stage_eqb (a b : stage) : bool :=
  match a, b with
  | Powered, Powered | Unpowered, Unpowered => true
  | _, _ => false
  end.

(** [chan.value]: a number, or an exception of the bus. *)
Inductive conversion := Converted (raw_value : Z) | Bus_error (e : exn).

(** What the environment does during one iteration. *)
Record Sample := {
  channel : conversion;               (* chan.value *)
  sample_now : datetime;              (* datetime.now() *)
  stop : option stage;                (* Ctrl-C, when control is there *)
  no_output : bool                    (* the standard output is lost:
                                         print raises *)
}.

Definition pending (m : Sample) (here : stage) : Script unit :=
  match stop m with
  | Some q => if stage_eqb here q then throw KeyboardInterrupt else pure tt
  | None => pure tt
  end.

Definition chan_value (m : Sample) : Script Z :=
  does Get_channel ;;
  match channel m with
  | Converted raw_value => pure raw_value
  | Bus_error e => throw e
  end.

(** One pass through the body of [while True]: nothing in it takes an
    exception. *)
Definition iteration (m : Sample) : Script unit :=
  does (Power true) ;;
  (pending m Powered ;; does (Sleep 1)) ;;
  raw_value <- chan_value m ;;
  does (Power false) ;;
  let timestamp := strftime_ymd_hms (sample_now m) in
  say (no_output m) (Time timestamp) ;;
  (if raw_value >? WATER_THRESHOLD
   then say (no_output m) (Water_detected raw_value)
   else say (no_output m) (Dry raw_value)) ;;
  (pending m Unpowered ;; does (Sleep 30)).

Fixpoint loop (samples : list Sample) : Script unit :=
  match samples with
  | [] => pure tt
  | m :: rest => iteration m ;; loop rest
  end.

(** The iteration that ends the loop, if one does: the first one in
    which an exception is raised. *)
Fixpoint ending (samples : list Sample) : option Sample :=
  match samples with
  | [] => None
  | m :: rest =>
      match fst (iteration m) with
      | Normal _ => ending rest
      | Raised _ => Some m
      end
  end.

(** Whether the output is lost when the clause of the script runs: it
    runs in the iteration that ends the loop. *)
Definition no_output_at_end (samples : list Sample) : bool :=
  match ending samples with
  | Some m => no_output m
  | None => false
  end.

(** The script: without the converter it prints and leaves by [exit()];
    otherwise the loop runs inside the [try] with the clause for
    [KeyboardInterrupt], which prints before it switches the sensor
    off. *)
Definition script (ads1115_found : bool) (samples : list Sample)
  : Script unit :=
  if ads1115_found then
    does (Print Notice) ;;
    does (Print Notice) ;;
    attempt (loop samples)
      (fun e =>
         match e with
         | KeyboardInterrupt =>
             Some (say (no_output_at_end samples) Script_stopped ;;
                   does (Power false))
         | _ => None
         end)
  else
    does (Print Initialization_error) ;; throw (SystemExit 0).

End diyables_water_sensor.

(** ** Notions used in the statements about the scripts *)

(** The exception the two accesses of an iteration meet, if any. *)
Definition failure (p : Poll) : option exn :=
  match poll_temperature p with
  | Fails e => Some e
  | Yields _ =>
      match poll_humidity p with
      | Fails e => Some e
      | Yields _ => None
      end
  end.

(** Every access of the temperature but the first comes after a sleep
    that follows the access before it. *)
Fixpoint spaced (rested : bool) (t : list event) : bool :=
  match t with
  | [] => true
  | Get_temperature :: t' => rested && spaced false t'
  | Sleep _ :: t' => spaced true t'
  | _ :: t' => spaced rested t'
  end.

(** Whether the last access of the temperature was followed by a sleep. *)
Fixpoint rested_after (rested : bool) (t : list event) : bool :=
  match t with
  | [] => rested
  | Get_temperature :: t' => rested_after false t'
  | Sleep _ :: t' => rested_after true t'
  | _ :: t' => rested_after rested t'
  end.

Definition is_exit (x : event) : bool :=
  match x with
  | Exit_sensor => true
  | _ => false
  end.

Definition is_read (x : event) : bool :=
  match x with
  | Get_temperature => true
  | _ => false
  end.

(** The calls of [dht_sensor.exit()], and the iterations begun. *)
Definition releases (t : list event) : nat := List.length (filter is_exit t).

Definition reads (t : list event) : nat := List.length (filter is_read t).

(** The log file the events leave. *)
Fixpoint file_after (file : list ascii) (t : list event) : list ascii :=
  match t with
  | [] => file
  | Create row :: t' => file_after (writerow row) t'
  | Append row :: t' => file_after (file ++ writerow row) t'
  | _ :: t' => file_after file t'
  end.

(** The row an iteration of the DHT22 logger appends when no Ctrl-C
    arrives in it. *)
Definition logged (p : Poll) : list (list (list ascii)) :=
  match poll_temperature p, poll_humidity p with
  | Yields t, Yields h =>
      match DHT22.logged_row (poll_now p) t h with
      | Some row => if append_error p then [] else [row]
      | None => []
      end
  | _, _ => []
  end.

(** [main] of the DHT22 logger reaches its loop: it could print, make
    the sensor object and the directory, and create the file. *)
Definition entered (start : trixie_logger_gen2.Start) : bool :=
  match trixie_logger_gen2.sensor start with
  | Constructed =>
      negb (trixie_logger_gen2.makedirs_error start)
      && negb (trixie_logger_gen2.create_error start)
      && negb (trixie_logger_gen2.no_output_before start)
  | _ => false
  end.

(** An iteration that nothing reaches from outside (no Ctrl-C, and the
    output is there) and in which the driver raises nothing but an
    [Exception]. *)
Definition survivable (p : Poll) : Prop :=
  interrupt p = None /\
  forall e, failure p = Some e -> is_Exception e = true.

(** The state of the power pin after the events, from [on]. *)
Fixpoint powered (on : bool) (t : list event) : bool :=
  match t with
  | [] => on
  | Power b :: t' => powered b t'
  | _ :: t' => powered on t'
  end.

(** The sensor has power at every conversion, and none during a sleep
    of three seconds or more. *)
Fixpoint well_powered (on : bool) (t : list event) : bool :=
  match t with
  | [] => true
  | Power b :: t' => well_powered b t'
  | Get_channel :: t' => on && well_powered on t'
  | Sleep n :: t' => (negb on || (n <? 30)) && well_powered on t'
  | _ :: t' => well_powered on t'
  end.

(** An iteration of the water sensor script that nothing reaches from
    outside (no Ctrl-C, and the output is there) and in which the
    conversion gives a number. *)
Definition calm (m : diyables_water_sensor.Sample) : Prop :=
  diyables_water_sensor.stop m = None /\
  diyables_water_sensor.no_output m = false /\
  exists raw_value,
    diyables_water_sensor.channel m
    = diyables_water_sensor.Converted raw_value.

(** An iteration that nothing reaches from outside (no Ctrl-C, and the
    output is there) and that no exception other than [RuntimeError]
    disturbs. *)
Definition undisturbed (p : Poll) : Prop :=
  interrupt p = None /\ (failure p = None \/ failure p = Some RuntimeError).

(** Examples. *)
Definition good_poll : Poll :=
  {| poll_temperature := Yields (Some (215 # 10));
     poll_humidity := Yields (Some (40 # 1));
     poll_now := noon; append_error := false; interrupt := None |}.

Definition bad_frame : Poll :=
  {| poll_temperature := Fails RuntimeError;
     poll_humidity := Yields None;
     poll_now := noon; append_error := false; interrupt := None |}.

Definition broken_sensor : Poll :=
  {| poll_temperature := Yields (Some (215 # 10));
     poll_humidity := Fails OSError;
     poll_now := noon; append_error := false; interrupt := None |}.

Definition ctrl_c (q : place) : Poll :=
  {| poll_temperature := Yields (Some (215 # 10));
     poll_humidity := Yields (Some (40 # 1));
     poll_now := noon; append_error := false; interrupt := Some q |}.

Definition all_well : trixie_logger_gen2.Start :=
  {| trixie_logger_gen2.sensor := Constructed;
     trixie_logger_gen2.makedirs_error := false;
     trixie_logger_gen2.create_error := false;
     trixie_logger_gen2.no_output_before := false;
     trixie_logger_gen2.no_output_after := false |}.

(** The same when the output is lost after the loop. *)
Definition no_farewell : trixie_logger_gen2.Start :=
  {| trixie_logger_gen2.sensor := Constructed;
     trixie_logger_gen2.makedirs_error := false;
     trixie_logger_gen2.create_error := false;
     trixie_logger_gen2.no_output_before := false;
     trixie_logger_gen2.no_output_after := true |}.


(** Both values are read and the output is lost. *)
Definition unseen : Poll :=
  {| poll_temperature := Yields (Some (215 # 10));
     poll_humidity := Yields (Some (40 # 1));
     poll_now := noon; append_error := false; interrupt := Some NoOutput |}.

Definition unwritable : Poll :=
  {| poll_temperature := Yields (Some (215 # 10));
     poll_humidity := Yields (Some (40 # 1));
     poll_now := noon; append_error := true; interrupt := None |}.

(** The water sensor: a dry reading, and a bus that fails. *)
Definition dry_sample : diyables_water_sensor.Sample :=
  {| diyables_water_sensor.channel := diyables_water_sensor.Converted 1200;
     diyables_water_sensor.sample_now := noon;
     diyables_water_sensor.stop := None;
     diyables_water_sensor.no_output := false |}.

Definition bus_failure : diyables_water_sensor.Sample :=
  {| diyables_water_sensor.channel := diyables_water_sensor.Bus_error OSError;
     diyables_water_sensor.sample_now := noon;
     diyables_water_sensor.stop := None;
     diyables_water_sensor.no_output := false |}.

End Console.

(** * Proofs *)

(** ** Rounding *)

Lemma round_half_even_comp (x y : Q) :
  (x == y)%Q -> round_half_even x = round_half_even y.
Proof.
  intros E. unfold round_half_even.
  rewrite (Qfloor_comp _ _ E).
  assert (C : Qcompare (x - inject_Z (Qfloor y)) (1 # 2)
              = Qcompare (y - inject_Z (Qfloor y)) (1 # 2)).
  { apply Qcompare_comp; [rewrite E|]; reflexivity. }
  now rewrite C.
Qed.

Lemma round_half_even_Z (k : Z) : round_half_even (inject_Z k) = k.
Proof.
  unfold round_half_even. rewrite Qfloor_Z.
  assert (C : Qcompare (inject_Z k - inject_Z k) (1 # 2) = Lt).
  { rewrite <- Qlt_alt. setoid_replace (inject_Z k - inject_Z k)%Q with 0%Q by ring.
    reflexivity. }
  now rewrite C.
Qed.

(** Rounding to one decimal place leaves a value of that resolution as it
    is. *)
Lemma round1_tenths (k : Z) : round1 (Q_of_decimal1 k) = k.
Proof.
  unfold round1, Q_of_decimal1.
  rewrite (round_half_even_comp _ (inject_Z k)); [apply round_half_even_Z|].
  unfold Qeq, Qmult, inject_Z; simpl. lia.
Qed.


(** The rounded value is within half a unit of the argument. *)
Lemma round_half_even_near (x : Q) :
  (Qabs (inject_Z (round_half_even x) - x) <= 1 # 2)%Q.
Proof.
  unfold round_half_even.
  pose proof (Qfloor_le x) as Hlo. pose proof (Qlt_floor x) as Hhi.
  rewrite inject_Z_plus in Hhi. change (inject_Z 1) with 1%Q in Hhi.
  apply Qabs_Qle_condition.
  destruct (Qcompare (x - inject_Z (Qfloor x)) (1 # 2)) eqn:C.
  - apply Qeq_alt in C.
    destruct (Z.even (Qfloor x));
      [|rewrite inject_Z_plus; change (inject_Z 1) with 1%Q]; lra.
  - apply Qlt_alt in C. lra.
  - apply Qgt_alt in C. rewrite inject_Z_plus.
    change (inject_Z 1) with 1%Q. lra.
Qed.


(** ** Digits and floats as text *)

Lemma uint_of_chars_of_uint (d : Decimal.uint) :
  uint_of_chars (chars_of_uint d) = Some d.
Proof. induction d; simpl; try rewrite IHd; reflexivity. Qed.

Lemma chars_of_uint_digits (d : Decimal.uint) :
  forallb is_digit (chars_of_uint d) = true.
Proof. induction d; simpl; auto. Qed.

Lemma digit_cases (c : ascii) :
  is_digit c = true ->
  plain_char c = true /\ Ascii.eqb c DOT = false /\
  Ascii.eqb c MINUS = false /\ Ascii.eqb c PLUS = false.
Proof.
  destruct c as [[] [] [] [] [] [] [] []]; cbv; intros H;
    try discriminate H; repeat split.
Qed.

Lemma digits_plain (s : list ascii) :
  forallb is_digit s = true -> plain s = true.
Proof.
  induction s as [|c s IH]; simpl; [reflexivity|].
  intros H. apply andb_true_iff in H as [Hc Hs].
  apply digit_cases in Hc as [-> _]. now apply IH.
Qed.

Lemma split_at_digits (s rest : list ascii) :
  forallb is_digit s = true ->
  split_at DOT (s ++ DOT :: rest) = (s, Some rest).
Proof.
  induction s as [|c s IH]; simpl; intros H.
  - reflexivity.
  - apply andb_true_iff in H as [Hc Hs].
    apply digit_cases in Hc as (_ & -> & _). now rewrite (IH Hs).
Qed.

Lemma str_N_digits (n : N) : forallb is_digit (str_N n) = true.
Proof. apply chars_of_uint_digits. Qed.

Lemma str_N_head (n : N) :
  exists c s, str_N n = c :: s /\ is_digit c = true.
Proof.
  pose proof (str_N_digits n) as D. unfold str_N in *.
  destruct (chars_of_uint (N.to_uint n)) as [|c s] eqn:E.
  - exfalso.
    assert (U : uint_of_chars (chars_of_uint (N.to_uint n)) = Some Decimal.Nil)
      by now rewrite E.
    rewrite uint_of_chars_of_uint in U. injection U as U.
    pose proof (DecimalN.Unsigned.of_to n) as R. rewrite U in R.
    pose proof (DecimalN.Unsigned.to_of Decimal.Nil) as R'.
    simpl in R, R'. subst n. discriminate U.
  - exists c, s. simpl in D. apply andb_true_iff in D as [Hc _]. now split.
Qed.

Lemma str_N_one_digit (d : N) : (d < 10)%N -> List.length (str_N d) = 1%nat.
Proof.
  intros H.
  assert (C : (d = 0 \/ d = 1 \/ d = 2 \/ d = 3 \/ d = 4 \/ d = 5 \/ d = 6
               \/ d = 7 \/ d = 8 \/ d = 9)%N) by lia.
  repeat (destruct C as [-> | C]; [reflexivity|]). now subst.
Qed.

Lemma parse_str_N (n : N) :
  option_map N.of_uint (uint_of_chars (str_N n)) = Some n.
Proof.
  unfold str_N. rewrite uint_of_chars_of_uint. simpl.
  now rewrite DecimalN.Unsigned.of_to.
Qed.

Lemma parse_unsigned_digits (i f : N) :
  (f < 10)%N ->
  parse_unsigned (str_N i ++ DOT :: str_N f)
  = Some (Z.of_N i * 10 + Z.of_N f # 10).
Proof.
  intros Hf. unfold parse_unsigned.
  rewrite split_at_digits by apply str_N_digits. cbv zeta.
  pose proof (parse_str_N i) as Pi. pose proof (parse_str_N f) as Pf.
  destruct (uint_of_chars (str_N i)) as [ui|]; [|discriminate Pi].
  destruct (uint_of_chars (str_N f)) as [uf|]; [|discriminate Pf].
  simpl in Pi, Pf. injection Pi as Pi. injection Pf as Pf.
  destruct (str_N_head i) as (c & s & Ei & _).
  destruct (str_N i ++ str_N f) eqn:Ea; [now rewrite Ei in Ea|].
  now rewrite (str_N_one_digit f Hf), Pi, Pf.
Qed.

(** What [str] prints for a float of one decimal, [float] reads back as the
    same value. *)
Lemma parse_float_str_float (k : decimal1) :
  parse_float (str_float k) = Some (Q_of_decimal1 k).
Proof.
  unfold str_float.
  set (i := Z.to_N (Z.abs k / 10)). set (f := Z.to_N (Z.abs k mod 10)).
  assert (Hf : (f < 10)%N).
  { subst f. pose proof (Z.mod_pos_bound (Z.abs k) 10). lia. }
  assert (E : Z.of_N i * 10 + Z.of_N f = Z.abs k).
  { subst i f. pose proof (Z.mod_pos_bound (Z.abs k) 10).
    pose proof (Z.div_pos (Z.abs k) 10). rewrite !Z2N.id by lia.
    pose proof (Z_div_mod_eq_full (Z.abs k) 10). lia. }
  pose proof (parse_unsigned_digits i f Hf) as P. rewrite E in P.
  unfold parse_float, Q_of_decimal1.
  destruct (k <? 0) eqn:Hk.
  - simpl app. change (Ascii.eqb MINUS MINUS) with true. cbv iota.
    rewrite P. apply Z.ltb_lt in Hk. simpl.
    unfold Qopp; simpl. now rewrite Z.abs_neq, Z.opp_involutive by lia.
  - simpl app. destruct (str_N_head i) as (c & s & Ei & Hc).
    rewrite Ei in *. simpl app in *.
    apply digit_cases in Hc as (_ & _ & -> & ->).
    rewrite P. apply Z.ltb_ge in Hk. now rewrite Z.abs_eq.
Qed.

Lemma str_float_plain (k : decimal1) : plain (str_float k) = true.
Proof.
  unfold str_float, plain. rewrite !forallb_app. simpl.
  rewrite (digits_plain _ (str_N_digits _)).
  fold (plain (str_N (Z.to_N (Z.abs k mod 10)))).
  rewrite (digits_plain _ (str_N_digits _)).
  now destruct (k <? 0).
Qed.

Lemma zero_pad_plain (w : nat) (n : N) : plain (zero_pad w n) = true.
Proof.
  unfold zero_pad, plain. rewrite forallb_app.
  fold (plain (str_N n)). rewrite (digits_plain _ (str_N_digits _)).
  rewrite andb_true_r. induction (w - List.length (str_N n))%nat; simpl; auto.
Qed.

Lemma plain_app (a b : list ascii) :
  plain (a ++ b) = plain a && plain b.
Proof. apply forallb_app. Qed.

Lemma isoformat_plain (t : datetime) : plain (isoformat t) = true.
Proof.
  unfold isoformat.
  repeat (rewrite plain_app || rewrite zero_pad_plain
          || (cbn [plain forallb andb]; change (forallb plain_char) with plain)).
  destruct (N.eqb (microsecond t) 0); cbn [plain forallb];
    change (forallb plain_char) with plain; rewrite ?zero_pad_plain; reflexivity.
Qed.

(** ** Writing and reading rows *)

Lemma plain_char_cases (c : ascii) :
  plain_char c = true ->
  Ascii.eqb c COMMA = false /\ Ascii.eqb c QUOTE = false /\
  Ascii.eqb c CR = false /\ Ascii.eqb c LF = false.
Proof.
  unfold plain_char, special. intros H. apply negb_true_iff in H.
  repeat (apply orb_false_iff in H as [H ?]). auto.
Qed.

Lemma write_field_plain (f : list ascii) :
  plain f = true -> write_field f = f.
Proof.
  intros H. unfold write_field.
  replace (existsb special f) with false; [reflexivity|].
  symmetry. induction f as [|c f IH]; simpl in *; [reflexivity|].
  apply andb_true_iff in H as [Hc Hf]. unfold plain_char in Hc.
  apply negb_true_iff in Hc. rewrite Hc. now apply IH.
Qed.

Lemma map_write_field_plain (row : list (list ascii)) :
  forallb plain row = true -> map write_field row = row.
Proof.
  induction row as [|f row IH]; simpl; intros H; [reflexivity|].
  apply andb_true_iff in H as [Hf Hr].
  now rewrite write_field_plain, IH.
Qed.

Lemma writerow_plain (row : list (list ascii)) :
  plain_row row = true -> writerow row = join COMMA row ++ [CR; LF].
Proof.
  unfold plain_row. intros H. apply andb_true_iff in H as [Hp Hl].
  unfold writerow. rewrite (map_write_field_plain _ Hp).
  destruct row as [|f [|g row]]; try discriminate Hl. now destruct f.
Qed.


Lemma plain_unbroken (f : list ascii) : plain f = true -> unbroken f = true.
Proof.
  induction f as [|c f IH]; simpl; intros H; [reflexivity|].
  apply andb_true_iff in H as [Hc Hf].
  apply plain_char_cases in Hc as (_ & _ & -> & ->). now apply IH.
Qed.

Lemma unbroken_app (a b : list ascii) :
  unbroken (a ++ b) = unbroken a && unbroken b.
Proof. apply forallb_app. Qed.

Lemma join_unbroken (row : list (list ascii)) :
  forallb plain row = true -> unbroken (join COMMA row) = true.
Proof.
  induction row as [|f row IH]; simpl; intros H; [reflexivity|].
  apply andb_true_iff in H as [Hf Hr].
  destruct row as [|g row]; [now apply plain_unbroken|].
  rewrite unbroken_app, (plain_unbroken _ Hf).
  change (unbroken (COMMA :: join COMMA (g :: row)))
    with (unbroken (join COMMA (g :: row))).
  now apply IH.
Qed.

Lemma universal_newlines_line (l rest : list ascii) :
  unbroken l = true ->
  universal_newlines (l ++ CR :: LF :: rest) = l ++ LF :: universal_newlines rest.
Proof.
  induction l as [|c l IH]; intros H.
  - reflexivity.
  - simpl in H. apply andb_true_iff in H as [Hc Hl].
    apply andb_true_iff in Hc as [Hcr _]. apply negb_true_iff in Hcr.
    simpl. rewrite Hcr. now rewrite IH.
Qed.

Lemma universal_newlines_rows (rows : list (list (list ascii))) :
  forallb plain_row rows = true ->
  universal_newlines (List.concat (map writerow rows)) = unix_text rows.
Proof.
  unfold unix_text.
  induction rows as [|row rows IH]; simpl; intros H; [reflexivity|].
  apply andb_true_iff in H as [Hr Hs].
  rewrite (writerow_plain _ Hr), <- !app_assoc. simpl app.
  apply andb_true_iff in Hr as [Hp _].
  rewrite universal_newlines_line by now apply join_unbroken.
  now rewrite IH.
Qed.

(** The reader inside a record, at a plain field that a comma ends. *)
Lemma reader_field_comma (f : list ascii) :
  plain f = true ->
  forall st acc fields rest,
    st <> IN_QUOTED_FIELD -> st <> QUOTE_IN_QUOTED_FIELD ->
    reader st acc fields (f ++ COMMA :: rest)
    = reader START_FIELD [] (fields ++ [acc ++ f]) rest.
Proof.
  induction f as [|c f IH]; intros H st acc fields rest N1 N2.
  - rewrite app_nil_r. destruct st; try congruence; reflexivity.
  - simpl in H. apply andb_true_iff in H as [Hc Hf].
    apply plain_char_cases in Hc as (Hcomma & Hquote & _ & Hlf).
    replace (acc ++ c :: f) with ((acc ++ [c]) ++ f)
      by now rewrite <- app_assoc.
    destruct st; try congruence; simpl; rewrite ?Hlf, ?Hquote, ?Hcomma;
      apply IH; auto; discriminate.
Qed.

(** The same at the last field of a record. *)
Lemma reader_field_end (f : list ascii) :
  plain f = true ->
  forall st acc fields rest,
    st = START_FIELD \/ st = IN_FIELD ->
    reader st acc fields (f ++ LF :: rest)
    = (fields ++ [acc ++ f]) :: reader START_RECORD [] [] rest.
Proof.
  induction f as [|c f IH]; intros H st acc fields rest Hst.
  - rewrite app_nil_r. destruct Hst as [-> | ->]; reflexivity.
  - simpl in H. apply andb_true_iff in H as [Hc Hf].
    apply plain_char_cases in Hc as (Hcomma & Hquote & _ & Hlf).
    replace (acc ++ c :: f) with ((acc ++ [c]) ++ f)
      by now rewrite <- app_assoc.
    destruct Hst as [-> | ->]; simpl; rewrite ?Hlf, ?Hquote, ?Hcomma;
      apply IH; auto.
Qed.

Lemma join_cons (f g : list ascii) (row : list (list ascii))
    (rest : list ascii) :
  join COMMA (f :: g :: row) ++ rest
  = f ++ COMMA :: (join COMMA (g :: row) ++ rest).
Proof.
  change (join COMMA (f :: g :: row)) with (f ++ COMMA :: join COMMA (g :: row)).
  now rewrite <- app_assoc.
Qed.

Lemma reader_fields (row : list (list ascii)) :
  forallb plain row = true -> row <> [] ->
  forall fields rest,
    reader START_FIELD [] fields (join COMMA row ++ LF :: rest)
    = (fields ++ row) :: reader START_RECORD [] [] rest.
Proof.
  induction row as [|f row IH]; intros H N fields rest; [congruence|].
  simpl in H. apply andb_true_iff in H as [Hf Hr].
  destruct row as [|g row].
  - simpl. now rewrite reader_field_end by auto.
  - rewrite join_cons, reader_field_comma by (auto; discriminate).
    rewrite IH by (auto; discriminate).
    now rewrite <- app_assoc.
Qed.

Lemma reader_row (row : list (list ascii)) (rest : list ascii) :
  plain_row row = true ->
  reader START_RECORD [] [] (join COMMA row ++ LF :: rest)
  = row :: reader START_RECORD [] [] rest.
Proof.
  unfold plain_row. intros H. apply andb_true_iff in H as [Hp Hl].
  destruct row as [|f [|g row]]; try discriminate Hl.
  simpl in Hp. apply andb_true_iff in Hp as [Hf Hr].
  rewrite join_cons, reader_field_comma by (auto; discriminate).
  now rewrite reader_fields by (auto; discriminate).
Qed.

Lemma reader_unix_text (rows : list (list (list ascii))) :
  forallb plain_row rows = true ->
  reader START_RECORD [] [] (unix_text rows) = rows.
Proof.
  unfold unix_text.
  induction rows as [|row rows IH]; simpl; intros H; [reflexivity|].
  apply andb_true_iff in H as [Hr Hs].
  rewrite <- app_assoc. simpl app. now rewrite reader_row, IH.
Qed.

Lemma csv_records_rows (rows : list (list (list ascii))) :
  forallb plain_row rows = true ->
  csv_records (List.concat (map writerow rows)) = rows.
Proof.
  intros H. unfold csv_records.
  now rewrite universal_newlines_rows, reader_unix_text.
Qed.

Lemma count_lines_from_line (l rest : list ascii) :
  unbroken l = true ->
  forall b, count_lines_from b (l ++ LF :: rest)
            = S (count_lines_from false rest).
Proof.
  induction l as [|c l IH]; intros H b.
  - reflexivity.
  - simpl in H. apply andb_true_iff in H as [Hc Hl].
    apply andb_true_iff in Hc as [_ Hlf]. apply negb_true_iff in Hlf.
    simpl. rewrite Hlf. now apply IH.
Qed.

Lemma count_lines_rows (rows : list (list (list ascii))) :
  forallb plain_row rows = true ->
  count_lines (List.concat (map writerow rows)) = List.length rows.
Proof.
  intros H. unfold count_lines. rewrite universal_newlines_rows by assumption.
  unfold unix_text.
  induction rows as [|row rows IH]; simpl in *; [reflexivity|].
  apply andb_true_iff in H as [Hr Hs].
  rewrite <- app_assoc. simpl app.
  apply andb_true_iff in Hr as [Hp _].
  rewrite count_lines_from_line by now apply join_unbroken.
  now rewrite IH.
Qed.

(** ** The data file *)

Lemma csv_row_plain (d : Reading) :
  plain (timestamp d) = true -> plain_row (csv_row d) = true.
Proof.
  intros H. unfold plain_row, csv_row. simpl.
  now rewrite H, !str_float_plain.
Qed.

Lemma csv_rows_plain (ds : list Reading) :
  forallb (fun d => plain (timestamp d)) ds = true ->
  forallb plain_row (csv_header :: map csv_row ds) = true.
Proof.
  intros H. change (plain_row csv_header && forallb plain_row (map csv_row ds) = true).
  replace (plain_row csv_header) with true by (vm_compute; reflexivity).
  simpl. induction ds as [|d ds IH]; simpl in *; [reflexivity|].
  apply andb_true_iff in H as [Hd Hs].
  now rewrite csv_row_plain, IH.
Qed.

Lemma csv_text_lines (ds : list Reading) :
  forallb (fun d => plain (timestamp d)) ds = true ->
  count_lines (csv_text ds) = S (List.length ds).
Proof.
  intros H. unfold csv_text.
  rewrite count_lines_rows by now apply csv_rows_plain.
  simpl. now rewrite length_map.
Qed.

Lemma DictReader_csv_text (ds : list Reading) :
  forallb (fun d => plain (timestamp d)) ds = true ->
  DictReader (csv_text ds) = map (fun d => zip_row csv_header (csv_row d)) ds.
Proof.
  intros H. unfold DictReader, csv_text.
  rewrite csv_records_rows by now apply csv_rows_plain.
  rewrite <- map_map with (f := csv_row) (g := zip_row csv_header). f_equal.
  clear H. induction ds as [|d ds IH]; simpl; [reflexivity|]. now rewrite IH.
Qed.

Lemma getitem_row (a b c d : list ascii) :
  let row := zip_row csv_header [a; b; c; d] in
  getitem row (text "timestamp") = Some (Some a) /\
  getitem row (text "temperature_c") = Some (Some b) /\
  getitem row (text "temperature_f") = Some (Some c) /\
  getitem row (text "humidity_percent") = Some (Some d).
Proof. repeat split; reflexivity. Qed.

(** A row written for a reading is read back as that reading. *)
Lemma reading_of_row_csv_row (d : Reading) :
  reading_of_row (zip_row csv_header (csv_row d)) = Some d.
Proof.
  unfold reading_of_row, csv_row.
  destruct (getitem_row (timestamp d) (str_float (temperature_c d))
              (str_float (temperature_f d)) (str_float (humidity_percent d)))
    as (-> & -> & -> & ->).
  rewrite !parse_float_str_float, !round1_tenths. now destruct d.
Qed.

Lemma data_point_csv_row (d : Reading) :
  data_point (zip_row csv_header (csv_row d)) = Some (point_of d).
Proof.
  unfold data_point, csv_row.
  destruct (getitem_row (timestamp d) (str_float (temperature_c d))
              (str_float (temperature_f d)) (str_float (humidity_percent d)))
    as (_ & -> & _ & ->).
  now rewrite !parse_float_str_float.
Qed.

Lemma data_points_csv_text (ds : list Reading) :
  forallb (fun d => plain (timestamp d)) ds = true ->
  data_points (DictReader (csv_text ds)) = Some (map point_of ds).
Proof.
  intros H. rewrite DictReader_csv_text by assumption. clear H.
  induction ds as [|d ds IH]; cbn [map data_points]; [reflexivity|].
  now rewrite data_point_csv_row, IH.
Qed.

(** ** Rules for statements *)

Lemma bind_normal {A B} (m : M A) (k : A -> M B) s a s' :
  m s = (Normal a, s') -> bind m k s = k a s'.
Proof. unfold bind. now intros ->. Qed.

Lemma bind_raised {A B} (m : M A) (k : A -> M B) s e s' :
  m s = (Raised e, s') -> bind m k s = (Raised e, s').
Proof. unfold bind. now intros ->. Qed.

#[local] Instance same_Stable {B} (f : State -> B) : Stable (same f).
Proof.
  split; unfold same; intros; congruence.
Qed.

Section Rules.

Context (T : option exn -> State -> State -> Prop) {HT : Stable T}.

Lemma obeys_ret {A} (a : A) : obeys T (ret a).
Proof. intros s. apply stable_refl. Qed.

Lemma obeys_get {A} (f : State -> A) : obeys T (get f).
Proof. intros s. apply stable_refl. Qed.

Lemma obeys_modify (g : State -> State) :
  (forall s, T None s (g s)) -> obeys T (modify g).
Proof. intros H s. apply H. Qed.

Lemma obeys_raise {A} (e : exn) :
  (forall s, T (Some e) s s) -> obeys T (@raise A e).
Proof. intros H s. apply H. Qed.

Lemma obeys_bind {A B} (m : M A) (k : A -> M B) :
  obeys T m -> (forall a, obeys T (k a)) -> obeys T (bind m k).
Proof.
  intros Hm Hk s. specialize (Hm s). unfold bind.
  destruct (m s) as [[a|e] s1]; simpl in *.
  - eapply stable_seq; [exact Hm | apply Hk].
  - exact Hm.
Qed.

(** A [try] statement under a second relation [T2] for its result. *)
Lemma obeys_try_to (T2 : option exn -> State -> State -> Prop) {A}
    (body : M A) (clauses : exn -> option (M A)) :
  obeys T body ->
  (forall s s1, T None s s1 -> T2 None s s1) ->
  (forall e s s1, clauses e = None -> T (Some e) s s1 -> T2 (Some e) s s1) ->
  (forall e h s s1, clauses e = Some h -> T (Some e) s s1 ->
     T2 (raised (fst (h s1))) s (snd (h s1))) ->
  obeys T2 (try_except body clauses).
Proof.
  intros Hb Hn Hu Hh s. specialize (Hb s). unfold try_except.
  destruct (body s) as [[a|e] s1]; simpl in *.
  - now apply Hn.
  - destruct (clauses e) as [h|] eqn:E.
    + now apply (Hh e h).
    + now apply Hu.
Qed.

Lemma obeys_try {A} (body : M A) (clauses : exn -> option (M A)) :
  obeys T body ->
  (forall e h, clauses e = Some h -> catchable e /\ obeys T h) ->
  obeys T (try_except body clauses).
Proof.
  intros Hb Hc. apply obeys_try_to; auto.
  intros e h s s1 E H. destruct (Hc e h E) as [C Hh].
  eapply stable_caught; [exact C | exact H | apply Hh].
Qed.

Lemma obeys_when (b : bool) (m : M unit) : obeys T m -> obeys T (when b m).
Proof. intros H. destruct b; [exact H | apply obeys_ret]. Qed.

Lemma obeys_may_raise (fails : bool) (e : exn) :
  (forall s, T (Some e) s s) -> obeys T (may_raise fails e).
Proof. intros H. destruct fails; [now apply obeys_raise | apply obeys_ret]. Qed.

Lemma obeys_logger (l : level) (m : message) :
  (forall s, T None s (set_log (log s ++ [(l, m)]) s)) -> obeys T (logger l m).
Proof.
  intros H. destruct l; try apply obeys_ret; apply obeys_modify; intros; apply H.
Qed.

End Rules.

Lemma obeys_weaken (T T' : option exn -> State -> State -> Prop) {A} (m : M A) :
  (forall o s s', T o s s' -> T' o s s') -> obeys T m -> obeys T' m.
Proof. intros H Hm s. apply H, Hm. Qed.

(** ** The methods, one by one *)

Ltac clause_cases e H :=
  destruct e; simpl in H; try discriminate H; injection H as <-;
  (split; [unfold catchable; simpl; auto|]).

Ltac obeys_step leaf :=
  lazymatch goal with
  | |- obeys ?T (ret _) => apply (obeys_ret T)
  | |- obeys ?T (get _) => apply (obeys_get T)
  | |- obeys ?T (bind _ _) => apply (obeys_bind T); [|intros ?]
  | |- obeys ?T (when _ _) => apply (obeys_when T)
  | |- obeys ?T (may_raise _ _) => apply (obeys_may_raise T); intros ?; leaf
  | |- obeys ?T (logger _ _) => apply (obeys_logger T); intros ?; leaf
  | |- obeys ?T (modify _) => apply (obeys_modify T); intros ?; leaf
  | |- obeys ?T (raise _) => apply (obeys_raise T); intros ?; leaf
  | |- obeys ?T (try_except _ _) =>
      apply (obeys_try T);
      [|let e := fresh "e" in let h := fresh "h" in let H := fresh "H" in
        intros e h H; clause_cases e H]
  | |- obeys _ (match ?x with _ => _ end) => destruct x
  | |- obeys _ (if ?x then _ else _) => destruct x
  | |- obeys _ (let _ := _ in _) => cbv zeta
  end.

Ltac obeys_auto leaf := repeat obeys_step leaf.

Lemma tick_quiet (c : Cycle) (p : point) :
  signal c = None -> tick c p = ret tt.
Proof. unfold tick. now intros ->. Qed.

Lemma tick_cases (c : Cycle) (p : point) :
  tick c p = ret tt \/ (signal c <> None /\ tick c p = signal_handler c).
Proof.
  unfold tick. destruct (signal c) as [q|]; [|now left].
  destruct (point_eqb p q); [right; split; [discriminate|reflexivity] | now left].
Qed.

(** [read_sensor] when no signal arrives inside it. *)
Lemma read_sensor_quiet (c : Cycle) (s : State) :
  tick c InReadSensor = ret tt ->
  read_sensor c s = (read_result c, emit (read_log c) s).
Proof.
  intros Q. unfold read_sensor, read_result, read_log, read_error, read_values.
  rewrite Q.
  destruct (sensor_temperature c) as [[t|]|[]];
    destruct (sensor_humidity c) as [[h|]|[]]; reflexivity.
Qed.

(** *** What a method leaves alone *)

Section Frames.

Context {B : Type} (f : State -> B).
Hypothesis f_log : forall s r, f (set_log r s) = f s.
Hypothesis f_running : forall s b, f (set_running b s) = f s.
Hypothesis f_signals : forall s n, f (set_signals_handled n s) = f s.
Hypothesis f_cleanups : forall s n, f (set_cleanup_calls n s) = f s.
Hypothesis f_exits : forall s n, f (set_sensor_exit_calls n s) = f s.

Ltac leaf :=
  unfold same;
  first [reflexivity | match goal with H : _ |- _ => rewrite H; reflexivity end].

Lemma get_statistics_with_same (c : Cycle) (i : M unit) :
  obeys (same f) i -> obeys (same f) (get_statistics_with c i).
Proof.
  intros Hi. unfold get_statistics_with.
  obeys_step leaf; [obeys_step leaf; [exact Hi|] | ..]; obeys_auto leaf.
Qed.

Lemma signal_handler_same (c : Cycle) : obeys (same f) (signal_handler c).
Proof.
  unfold signal_handler, cleanup. obeys_auto leaf.
  all: try (apply get_statistics_with_same); obeys_auto leaf.
Qed.

Lemma tick_same (c : Cycle) (p : point) : obeys (same f) (tick c p).
Proof.
  unfold tick. obeys_auto leaf; apply signal_handler_same.
Qed.

Lemma get_statistics_same (c : Cycle) : obeys (same f) (get_statistics c).
Proof. apply get_statistics_with_same, tick_same. Qed.

Lemma read_sensor_same (c : Cycle) : obeys (same f) (read_sensor c).
Proof.
  unfold read_sensor, sensor_get.
  obeys_step leaf; [obeys_step leaf; [apply tick_same|] | ..]; obeys_auto leaf.
Qed.

Lemma save_to_csv_same (c : Cycle) (data : Reading) :
  (forall s t, f (set_csv_file t s) = f s) ->
  obeys (same f) (save_to_csv c data).
Proof.
  intros f_csv. unfold save_to_csv.
  obeys_step leaf; [obeys_step leaf; [apply tick_same|] | ..]; obeys_auto leaf.
Qed.

Lemma save_to_json_same (c : Cycle) (data : Reading) :
  (forall s t, f (set_json_file t s) = f s) ->
  obeys (same f) (save_to_json c data).
Proof.
  intros f_json. unfold save_to_json.
  obeys_step leaf; [obeys_step leaf; [apply tick_same|] | ..]; obeys_auto leaf;
    apply tick_same.
Qed.

Lemma display_data_same (c : Cycle) (data : Reading) :
  (forall s t, f (set_console t s) = f s) ->
  obeys (same f) (display_data c data).
Proof.
  intros f_console. unfold display_data. obeys_auto leaf.
Qed.

End Frames.

(** ** The failure counter *)

#[local] Instance keeps_Stable (I : State -> Prop) : Stable (keeps I).
Proof. split; unfold keeps; auto. Qed.

Lemma same_keeps {A B} (f : State -> B) (Q : B -> Prop) (m : M A) :
  obeys (same f) m -> obeys (keeps (fun s => Q (f s))) m.
Proof.
  apply obeys_weaken. unfold same, keeps. intros _ s s' E. now rewrite E.
Qed.

Lemma same_below_threshold {A} (m : M A) :
  obeys (same consecutive_errors) m -> obeys (keeps below_threshold) m.
Proof.
  apply (same_keeps consecutive_errors
           (fun n => 0 <= n < max_consecutive_errors)).
Qed.

Ltac untouched :=
  first [ apply tick_same | apply read_sensor_same | apply get_statistics_same
        | apply save_to_csv_same | apply save_to_json_same
        | apply display_data_same ];
  reflexivity.

Ltac threshold_leaf :=
  unfold keeps, below_threshold, max_consecutive_errors; simpl; intros; lia.

Lemma on_failure_below_threshold : obeys (keeps below_threshold) on_failure.
Proof.
  intros s. unfold keeps, below_threshold, on_failure, max_consecutive_errors.
  cbv [bind modify get]. simpl.
  destruct (consecutive_errors s + 1 >=? 10) eqn:E; simpl; intros H; [lia|].
  rewrite Z.geb_leb in E. apply Z.leb_gt in E. lia.
Qed.

Lemma run_body_below_threshold (c : Cycle) (display save_csv save_json : bool) :
  obeys (keeps below_threshold) (run_body c display save_csv save_json).
Proof.
  unfold run_body, run_clauses, on_reading, dispatch, log_statistics.
  obeys_auto threshold_leaf; try (apply same_below_threshold; untouched).
  all: apply on_failure_below_threshold.
Qed.

Lemma run_loop_below_threshold (display save_csv save_json : bool)
    (cycles : list Cycle) :
  obeys (keeps below_threshold) (run_loop display save_csv save_json cycles).
Proof.
  induction cycles as [|c cycles IH]; simpl.
  - apply (obeys_ret _).
  - obeys_auto threshold_leaf; try (apply same_below_threshold; untouched);
      try assumption.
    apply run_body_below_threshold.
Qed.

(** *** One iteration without a signal *)

Lemma failed_read_result (c : Cycle) :
  failed_read c -> read_result c = Normal None.
Proof.
  unfold failed_read, transient_read_failure, fatal_driver_failure, read_result.
  intros [[H | [H1 H2]] | (e & H & He & _)].
  - now rewrite H.
  - now rewrite H1, H2.
  - now rewrite H, He.
Qed.

Lemma threshold_warnings_app (l1 l2 : list (level * message)) :
  threshold_warnings (l1 ++ l2)
  = (threshold_warnings l1 + threshold_warnings l2)%nat.
Proof. unfold threshold_warnings. now rewrite filter_app, length_app. Qed.

Lemma read_log_no_threshold (c : Cycle) : threshold_warnings (read_log c) = 0%nat.
Proof.
  unfold read_log.
  destruct (read_error c) as [[]|]; try reflexivity.
  now destruct (read_values c).
Qed.

Lemma emit_read_log (c : Cycle) (s : State) :
  running (emit (read_log c) s) = running s /\
  consecutive_errors (emit (read_log c) s) = consecutive_errors s /\
  log (emit (read_log c) s) = log s ++ read_log c.
Proof.
  unfold read_log.
  destruct (read_error c) as [[]|]; simpl; rewrite ?app_nil_r; auto.
  destruct (read_values c); simpl; rewrite ?app_nil_r; auto.
Qed.

(** The iteration of a failed read: the counter goes up by one, and at the
    threshold one record is logged and the counter starts again. *)
Lemma run_body_failed (c : Cycle) (display save_csv save_json : bool)
    (s : State) :
  signal c = None -> failed_read c ->
  exists s', run_body c display save_csv save_json s = (Normal tt, s') /\
    running s' = running s /\
    (if consecutive_errors s + 1 >=? max_consecutive_errors
     then consecutive_errors s' = 0 /\
          threshold_warnings (log s') = S (threshold_warnings (log s))
     else consecutive_errors s' = consecutive_errors s + 1 /\
          threshold_warnings (log s') = threshold_warnings (log s)).
Proof.
  intros Hsig Hfail. unfold run_body. rewrite !(tick_quiet c _ Hsig).
  unfold try_except. unfold bind at 1.
  rewrite read_sensor_quiet by now apply tick_quiet.
  rewrite (failed_read_result c Hfail).
  destruct (emit_read_log c s) as (Er & Ec & El).
  pose proof (read_log_no_threshold c) as Ht.
  set (s1 := emit (read_log c) s) in *.
  unfold on_failure. cbv [bind modify get ret]. simpl.
  rewrite Ec.
  destruct (consecutive_errors s + 1 >=? max_consecutive_errors);
    simpl; eexists; (split; [reflexivity|]); simpl;
    rewrite ?Er, ?El, ?threshold_warnings_app, ?Ht; repeat split;
    change (threshold_warnings [(ERROR, TooManyConsecutiveErrors)]) with 1%nat;
    lia.
Qed.

Lemma run_loop_step (c : Cycle) (cycles : list Cycle)
    (display save_csv save_json : bool) (s : State) :
  signal c = None -> running s = true ->
  run_loop display save_csv save_json (c :: cycles) s
  = bind (run_body c display save_csv save_json)
      (fun _ => run_loop display save_csv save_json cycles) s.
Proof.
  intros Hsig Hrun. simpl. rewrite (tick_quiet c _ Hsig).
  cbv [bind ret get]. now rewrite Hrun.
Qed.

(** A run of failed reads that starts at count [j] and does not go past
    the threshold. *)
Lemma run_loop_failed (display save_csv save_json : bool) (cycles : list Cycle) :
  forall s,
    Forall (fun c => failed_read c /\ signal c = None) cycles ->
    running s = true -> 0 <= consecutive_errors s ->
    consecutive_errors s + Z.of_nat (List.length cycles)
      <= max_consecutive_errors ->
    exists s',
      run_loop display save_csv save_json cycles s = (Normal tt, s') /\
      running s' = true /\
      (if consecutive_errors s + Z.of_nat (List.length cycles)
            <? max_consecutive_errors
       then consecutive_errors s'
              = consecutive_errors s + Z.of_nat (List.length cycles) /\
            threshold_warnings (log s') = threshold_warnings (log s)
       else (cycles = [] \/
             (consecutive_errors s' = 0 /\
              threshold_warnings (log s') = S (threshold_warnings (log s))))).
Proof.
  unfold max_consecutive_errors.
  induction cycles as [|c cycles IH]; intros s Hall Hrun Hlo Hhi.
  - exists s. simpl. rewrite Z.add_0_r. split; [reflexivity|]. split; [assumption|].
    destruct (consecutive_errors s <? 10); auto.
  - inversion Hall as [|? ? [Hfail Hsig] Hall']; subst.
    rewrite run_loop_step by assumption.
    destruct (run_body_failed c display save_csv save_json s Hsig Hfail)
      as (s1 & E1 & Hr1 & H1).
    rewrite (bind_normal _ _ _ _ _ E1).
    change (List.length (c :: cycles)) with (S (List.length cycles)) in *.
    rewrite Nat2Z.inj_succ in *. unfold max_consecutive_errors in H1.
    destruct (consecutive_errors s + 1 >=? 10) eqn:G.
    + (* the tenth failure: it is the last of the run *)
      rewrite Z.geb_leb in G. apply Z.leb_le in G.
      assert (cycles = []) as -> by (destruct cycles; [reflexivity|simpl in Hhi; lia]).
      exists s1. split; [reflexivity|]. split; [congruence|].
      replace (consecutive_errors s + Z.succ (Z.of_nat (List.length (@nil Cycle)))
               <? 10) with false
        by (symmetry; apply Z.ltb_ge; simpl; lia).
      right; exact H1.
    + rewrite Z.geb_leb in G. apply Z.leb_gt in G. destruct H1 as [Hc1 Ht1].
      destruct (IH s1 Hall') as (s' & E' & Hr' & H'); try lia; [congruence|].
      exists s'. split; [exact E'|]. split; [exact Hr'|].
      rewrite Hc1 in H'.
      replace (consecutive_errors s + 1 + Z.of_nat (List.length cycles))
        with (consecutive_errors s + Z.succ (Z.of_nat (List.length cycles)))
        in H' by lia.
      destruct (consecutive_errors s + Z.succ (Z.of_nat (List.length cycles)) <? 10)
        eqn:L; [|apply Z.ltb_ge in L].
      * destruct H' as [Ha Hb]. split; [exact Ha | congruence].
      * right. destruct H' as [-> | [Ha Hb]].
        -- exfalso. simpl in L. lia.
        -- split; [exact Ha | congruence].
Qed.

(** The iteration of a successful read, after the two counters were set. *)
Lemma run_body_reading (c : Cycle) (display save_csv save_json : bool)
    (s : State) (data : Reading) :
  tick c InReadSensor = ret tt -> read_result c = Normal (Some data) ->
  run_body c display save_csv save_json s
  = try_except
      (dispatch c display save_csv save_json data ;; tick c AtSleep)
      (run_clauses c)
      (set_consecutive_errors 0
         (set_readings_count (readings_count s + 1) s)).
Proof.
  intros Q R. unfold run_body, try_except. unfold bind at 1.
  rewrite (read_sensor_quiet c s Q), R.
  assert (L : read_log c = []).
  { unfold read_result, read_log in *.
    destruct (read_error c) as [e|]; [now destruct (is_Exception e)|].
    now destruct (read_values c) as [[t h]|]. }
  rewrite L. reflexivity.
Qed.

Lemma run_tail_same_counter (c : Cycle) (display save_csv save_json : bool)
    (data : Reading) :
  obeys (same consecutive_errors)
    (try_except
       (dispatch c display save_csv save_json data ;; tick c AtSleep)
       (run_clauses c)).
Proof.
  unfold dispatch, log_statistics, run_clauses.
  obeys_auto ltac:(reflexivity); untouched.
Qed.

Lemma run_body_reading_counter (c : Cycle) (display save_csv save_json : bool)
    (s : State) (data : Reading) :
  tick c InReadSensor = ret tt -> read_result c = Normal (Some data) ->
  consecutive_errors (snd (run_body c display save_csv save_json s)) = 0.
Proof.
  intros Q R. rewrite (run_body_reading c _ _ _ s data Q R).
  apply (run_tail_same_counter c display save_csv save_json data).
Qed.

(** Without an interrupt a read attempt gives a reading or fails. *)
Lemma read_result_cases (c : Cycle) :
  (exists data, read_result c = Normal (Some data)) \/ failed_read c \/
  (exists e, read_error c = Some e /\ is_Exception e = false).
Proof.
  unfold failed_read, transient_read_failure, fatal_driver_failure, read_result.
  destruct (read_error c) as [e|] eqn:E.
  - destruct e.
    + right; left; left; now left.
    + right; left; right. exists OSError. repeat split; discriminate.
    + right; left; right. exists OtherException. repeat split; discriminate.
    + right; right. now exists KeyboardInterrupt.
    + right; right. now exists (SystemExit status).
  - destruct (read_values c) as [[t h]|]; [left; eauto|].
    right; left; left; right. now split.
Qed.

(** ** What ends the loop *)

#[local] Instance carries_Stable {B} (f : State -> B) : Stable (carries f).
Proof.
  split; unfold carries.
  - intros s. split; [reflexivity | discriminate].
  - intros o s1 s2 s3 [E1 _] [E2 H]. split; [congruence | exact H].
  - intros e o s1 s2 s3 _ [E1 _] [E2 H]. split; [congruence | exact H].
Qed.

Ltac carries_leaf :=
  unfold carries; simpl;
  (split; [reflexivity | intros ? [= <-]; reflexivity || discriminate]).

Section Quiet.

Variable c : Cycle.
Hypothesis quiet : signal c = None.

Lemma dispatch_carries_on (display save_csv save_json : bool) (data : Reading) :
  obeys (carries running) (dispatch c display save_csv save_json data ;; tick c AtSleep).
Proof.
  unfold dispatch, log_statistics, display_data, save_to_csv, save_to_json,
    get_statistics,
    get_statistics_with.
  rewrite !(tick_quiet c _ quiet).
  obeys_auto carries_leaf.
Qed.

(** An iteration without a signal in which [read_sensor] returns: the
    iteration ends normally and [self.running] is as before. *)
Lemma run_body_uninterrupted (display save_csv save_json : bool) (s : State) :
  (forall e, read_error c = Some e -> is_Exception e = true) ->
  exists s', run_body c display save_csv save_json s = (Normal tt, s') /\
             running s' = running s.
Proof.
  intros Hread.
  destruct (read_result_cases c) as [[data R] | [F | (e & E & He)]].
  - rewrite (run_body_reading c _ _ _ s data (tick_quiet c _ quiet) R).
    set (s2 := set_consecutive_errors 0 _).
    assert (H : obeys (fun o s s' => o = None /\ running s' = running s)
                  (try_except
                     (dispatch c display save_csv save_json data ;;
                      tick c AtSleep) (run_clauses c))).
    { apply (obeys_try_to (carries running)).
      - apply dispatch_carries_on.
      - intros s0 s1 [E _]. auto.
      - intros e s0 s1 Hc [_ He]. specialize (He e eq_refl).
        destruct e; try discriminate He; discriminate Hc.
      - intros e h s0 s1 Hc [Er He]. specialize (He e eq_refl).
        destruct e; try discriminate He; simpl in Hc; injection Hc as <-;
          rewrite (tick_quiet c _ quiet); simpl; auto. }
    specialize (H s2).
    destruct (try_except _ _ s2) as [[[]|e] s'] eqn:E; simpl in H;
      destruct H as [H1 H2]; [|discriminate H1].
    exists s'. split; [reflexivity|]. rewrite H2. reflexivity.
  - destruct (run_body_failed c display save_csv save_json s quiet F)
      as (s' & E & Hr & _).
    exists s'. auto.
  - rewrite (Hread e E) in He. discriminate He.
Qed.

End Quiet.

Lemma interrupt_requested_dec (c : Cycle) :
  interrupt_requested c \/
  (signal c = None /\ forall e, read_error c = Some e -> is_Exception e = true).
Proof.
  unfold interrupt_requested.
  destruct (signal c) as [p|]; [left; left; discriminate|].
  destruct (read_error c) as [e|].
  - destruct (is_Exception e) eqn:E.
    + right. split; [reflexivity|]. now intros ? [= <-].
    + left; right. now exists e.
  - right. split; [reflexivity | discriminate].
Qed.

(** When the loop has ended, an iteration met an interrupt. *)
Lemma run_loop_stops_on_interrupt (display save_csv save_json : bool)
    (cycles : list Cycle) :
  forall s,
    running s = true ->
    (exists s', run_loop display save_csv save_json cycles s = (Normal tt, s')
                /\ running s' = true) \/
    (exists c, In c cycles /\ interrupt_requested c).
Proof.
  induction cycles as [|c cycles IH]; intros s Hrun.
  - left. exists s. auto.
  - destruct (interrupt_requested_dec c) as [I | [Hsig Hread]].
    + right. exists c. split; [now left | exact I].
    + rewrite run_loop_step by assumption.
      destruct (run_body_uninterrupted c Hsig display save_csv save_json s Hread)
        as (s1 & E & Hr).
      rewrite (bind_normal _ _ _ _ _ E).
      destruct (IH s1) as [L | (c' & Hin & I)]; [congruence | now left|].
      right. exists c'. split; [now right | exact I].
Qed.

(** ** Signals *)

#[local] Instance served_Stable : Stable served.
Proof.
  split; unfold served.
  - intros s. now left.
  - intros o s1 s2 s3 [E1 | (E1 & _)] H; [|discriminate E1].
    destruct H as [E2 | (Eo & Hr & H1 & H2 & H3)]; [left; congruence|].
    right. unfold calls in E1. injection E1 as <- <- <-. auto.
  - intros e o s1 s2 s3 C [E1 | (E1 & _)] H.
    + destruct H as [E2 | (Eo & Hr & H1 & H2 & H3)]; [left; congruence|].
      right. unfold calls in E1. injection E1 as <- <- <-. auto.
    + injection E1 as ->. destruct C as [C | C]; discriminate C.
Qed.

(** [cleanup] returns, having called [self.sensor.exit()] once. *)
Lemma cleanup_returns (c : Cycle) (s : State) :
  exists s', cleanup c s = (Normal tt, s') /\
    running s' = running s /\ signals_handled s' = signals_handled s /\
    cleanup_calls s' = S (cleanup_calls s) /\
    sensor_exit_calls s' = S (sensor_exit_calls s).
Proof.
  set (f := fun s => (running s, calls s)).
  set (rest :=
         may_raise (sensor_exit_error c) OtherException ;;
         logger INFO SensorCleanupCompleted ;;
         stats <- get_statistics_with c (ret tt) ;;
         match stats with
         | Some stats => logger INFO (FinalStatistics stats)
         | None => ret tt
         end).
  set (clauses := fun e : exn =>
         if is_Exception e then Some (logger ERROR ErrorDuringCleanup) else None).
  set (s1 := set_sensor_exit_calls (S (sensor_exit_calls s))
               (set_cleanup_calls (S (cleanup_calls s)) s)).
  assert (E : cleanup c s = try_except rest clauses s1) by reflexivity.
  assert (H : obeys (fun o s s' => o = None /\ f s' = f s)
                (try_except rest clauses)).
  { apply (obeys_try_to (carries f)).
    - subst rest. unfold get_statistics_with. obeys_auto carries_leaf.
    - intros s0 s2 [E0 _]. auto.
    - intros e s0 s2 Hc [_ He]. specialize (He e eq_refl).
      subst clauses. simpl in Hc. now rewrite He in Hc.
    - intros e h s0 s2 Hc [E0 He]. specialize (He e eq_refl).
      subst clauses. simpl in Hc. rewrite He in Hc. injection Hc as <-.
      simpl. auto. }
  specialize (H s1). rewrite E.
  destruct (try_except rest clauses s1) as [[[]|e] s'] eqn:E'; simpl in H;
    destruct H as [H1 H2]; [|discriminate H1].
  exists s'. split; [reflexivity|].
  subst f. simpl in H2. unfold calls in H2. simpl in H2.
  injection H2 as -> -> -> ->. auto.
Qed.

(** The handler: one more signal served, one [cleanup], then
    [sys.exit(0)]. *)
Lemma signal_handler_exits (c : Cycle) (s : State) :
  exists s', signal_handler c s = (Raised (SystemExit 0), s') /\
    running s' = false /\
    signals_handled s' = S (signals_handled s) /\
    cleanup_calls s' = S (cleanup_calls s) /\
    sensor_exit_calls s' = S (sensor_exit_calls s).
Proof.
  set (s0 := set_running false
               (set_log (log s ++ [(INFO, ShutdownSignalReceived)])
                  (set_signals_handled (S (signals_handled s)) s))).
  assert (E : signal_handler c s
              = bind (cleanup c) (fun _ => raise (SystemExit 0)) s0)
    by reflexivity.
  destruct (cleanup_returns c s0) as (s' & Ec & Hr & H1 & H2 & H3).
  exists s'. rewrite E, (bind_normal _ _ _ _ _ Ec).
  split; [reflexivity|]. rewrite Hr, H1, H2, H3. auto.
Qed.

Lemma tick_served (c : Cycle) (p : point) : obeys served (tick c p).
Proof.
  intros s. destruct (tick_cases c p) as [-> | [_ ->]].
  - now left.
  - destruct (signal_handler_exits c s) as (s' & -> & H). now right.
Qed.

Ltac served_leaf := unfold served; left; reflexivity.

Ltac served_auto :=
  repeat (obeys_auto served_leaf; try apply tick_served).

Lemma run_body_served (c : Cycle) (display save_csv save_json : bool) :
  obeys served (run_body c display save_csv save_json).
Proof.
  unfold run_body, run_clauses, read_sensor, sensor_get, on_reading,
    on_failure, dispatch, log_statistics, display_data, save_to_csv,
    save_to_json,
    get_statistics, get_statistics_with.
  served_auto.
Qed.

Lemma run_loop_served (display save_csv save_json : bool) (cycles : list Cycle) :
  obeys served (run_loop display save_csv save_json cycles).
Proof.
  induction cycles as [|c cycles IH]; simpl.
  - apply (obeys_ret _).
  - served_auto; try assumption. apply run_body_served.
Qed.

Lemma main_served (sensor_error : option exn) (open_error : bool)
    (cycles : list Cycle) :
  obeys served (main sensor_error open_error cycles).
Proof.
  unfold main, __init__, _init_csv_file, run.
  served_auto; apply run_loop_served.
Qed.

(** ** The reading *)

(** A signal inside [read_sensor] leaves it through [sys.exit]. *)
Lemma read_sensor_signalled (c : Cycle) (s : State) :
  tick c InReadSensor = signal_handler c ->
  exists s', read_sensor c s = (Raised (SystemExit 0), s').
Proof.
  intros E. destruct (signal_handler_exits c s) as (s' & H & _).
  exists s'. unfold read_sensor, try_except.
  rewrite (bind_raised _ _ s (SystemExit 0) s') by now rewrite E.
  reflexivity.
Qed.

(** A reading comes from two values of the driver. *)
Lemma read_sensor_reading (c : Cycle) (s : State) (data : Reading) :
  fst (read_sensor c s) = Normal (Some data) ->
  exists t h,
    sensor_temperature c = Yields (Some t) /\
    sensor_humidity c = Yields (Some h) /\
    data = {| timestamp := isoformat (now c);
              temperature_c := round1 t;
              temperature_f := round1 (fahrenheit t);
              humidity_percent := round1 h |}.
Proof.
  intros H. destruct (tick_cases c InReadSensor) as [Q | [_ Q]].
  - rewrite (read_sensor_quiet c s Q) in H. simpl in H.
    unfold read_result, read_error, read_values in H.
    destruct (sensor_temperature c) as [[t|]|e];
      [| |destruct (is_Exception e); discriminate H];
      (destruct (sensor_humidity c) as [[h|]|e];
        [| |destruct (is_Exception e); discriminate H]);
      try discriminate H.
    injection H as <-. now exists t, h.
  - destruct (read_sensor_signalled c s Q) as (s' & E).
    rewrite E in H. discriminate H.
Qed.



(** ** The sinks *)

Lemma save_to_csv_done (c : Cycle) (data : Reading) (s : State) :
  signal c = None -> csv_append_error c = false ->
  save_to_csv c data s
  = (Normal tt, set_csv_file (csv_file s ++ writerow (csv_row data)) s).
Proof.
  intros Hsig Herr. unfold save_to_csv.
  now rewrite (tick_quiet c _ Hsig), Herr.
Qed.

Lemma save_to_csv_failed (c : Cycle) (data : Reading) (s : State) :
  signal c = None -> csv_append_error c = true ->
  save_to_csv c data s
  = (Normal tt, set_log (log s ++ [(ERROR, ErrorSavingCsv)]) s).
Proof.
  intros Hsig Herr. unfold save_to_csv.
  now rewrite (tick_quiet c _ Hsig), Herr.
Qed.

Lemma save_to_json_done (c : Cycle) (data : Reading) (s : State)
    (items : list json) :
  signal c = None -> json_items s = Some items -> json_fails c s = false ->
  save_to_json c data s
  = (Normal tt,
     set_json_file (Some (JArray (items ++ [json_of_reading data]))) s).
Proof.
  intros Hsig Hitems Hok. unfold save_to_json, json_items, json_fails in *.
  rewrite !(tick_quiet c _ Hsig). unfold try_except, bind, get, ret.
  destruct (json_file s) as [[]|]; try discriminate Hitems;
    injection Hitems as <-.
  - apply orb_false_iff in Hok as [-> ->]. reflexivity.
  - rewrite Hok. reflexivity.
Qed.

Lemma save_to_json_failed (c : Cycle) (data : Reading) (s : State)
    (items : list json) :
  signal c = None -> json_items s = Some items -> json_fails c s = true ->
  save_to_json c data s
  = (Normal tt, set_log (log s ++ [(ERROR, ErrorSavingJson)]) s).
Proof.
  intros Hsig Hitems Hfail. unfold save_to_json, json_items, json_fails in *.
  rewrite !(tick_quiet c _ Hsig). unfold try_except, bind, get, ret.
  destruct (json_file s) as [[]|]; try discriminate Hitems;
    injection Hitems as <-.
  - destruct (json_read_error c); [reflexivity|].
    simpl in Hfail. rewrite Hfail. reflexivity.
  - rewrite Hfail. reflexivity.
Qed.

Lemma recorded_timestamp (cd : Cycle * Reading) :
  recorded_in_csv cd -> plain (timestamp (snd cd)) = true.
Proof.
  intros [H _]. specialize (H fresh).
  destruct (read_sensor_reading _ _ _ H) as (t & h & _ & _ & ->).
  apply isoformat_plain.
Qed.

Lemma recorded_timestamps (cds : list (Cycle * Reading)) :
  Forall recorded_in_csv cds ->
  forallb (fun d => plain (timestamp d)) (map snd cds) = true.
Proof.
  induction 1 as [|cd cds H _ IH]; simpl; [reflexivity|].
  now rewrite (recorded_timestamp cd H), IH.
Qed.

(** The data file grows by one row for each reading. *)
Lemma save_all_to_csv_file (cds : list (Cycle * Reading)) :
  Forall recorded_in_csv cds ->
  forall s, exists s',
    save_all_to_csv cds s = (Normal tt, s') /\
    csv_file s'
    = csv_file s ++ List.concat (map writerow (map csv_row (map snd cds))).
Proof.
  induction 1 as [|[c d] cds (_ & Hsig & Hcsv) _ IH]; intros s.
  - exists s. simpl. now rewrite app_nil_r.
  - simpl in Hsig, Hcsv. simpl save_all_to_csv.
    rewrite (bind_normal _ _ _ _ _ (save_to_csv_done c d s Hsig Hcsv)).
    destruct (IH (set_csv_file (csv_file s ++ writerow (csv_row d)) s))
      as (s' & E & F).
    exists s'. split; [exact E|]. rewrite F. simpl. now rewrite <- app_assoc.
Qed.

Lemma init_then_save_all (cds : list (Cycle * Reading)) (s : State) :
  Forall recorded_in_csv cds ->
  exists s',
    (_init_csv_file false ;; save_all_to_csv cds) s = (Normal tt, s') /\
    csv_file s' = csv_text (map snd cds).
Proof.
  intros H.
  set (s0 := set_log (log s ++ [(INFO, CsvFileCreated)])
               (set_csv_file (writerow csv_header) s)).
  destruct (save_all_to_csv_file cds H s0) as (s' & E & F).
  exists s'. split.
  - rewrite <- E. reflexivity.
  - rewrite F. reflexivity.
Qed.

(** The JSON file grows by one object for each reading. *)
Lemma save_all_to_json_file (cds : list (Cycle * Reading)) :
  Forall recorded_in_json cds ->
  forall s items, json_items s = Some items ->
    exists s',
      save_all_to_json cds s = (Normal tt, s') /\
      json_file s'
      = match cds with
        | [] => json_file s
        | _ => Some (JArray (items ++ map json_of_reading (map snd cds)))
        end.
Proof.
  induction 1 as [|[c d] cds (_ & Hsig & Hr & Hw) _ IH]; intros s items Hi.
  - exists s. auto.
  - simpl in Hsig, Hr, Hw. simpl save_all_to_json.
    assert (Hok : json_fails c s = false).
    { unfold json_fails. rewrite Hr, Hw. now destruct (json_file s). }
    rewrite (bind_normal _ _ _ _ _ (save_to_json_done c d s items Hsig Hi Hok)).
    destruct (IH (set_json_file (Some (JArray (items ++ [json_of_reading d]))) s)
                (items ++ [json_of_reading d]) eq_refl) as (s' & E & F).
    exists s'. split; [exact E|]. rewrite F. simpl.
    destruct cds; simpl; now rewrite <- ?app_assoc.
Qed.

Lemma reading_of_json_of_reading (d : Reading) :
  reading_of_json (json_of_reading d) = Some d.
Proof.
  unfold reading_of_json, json_of_reading.
  change (list_ascii_eqb (text "timestamp") (text "timestamp")
          && list_ascii_eqb (text "temperature_c") (text "temperature_c")
          && list_ascii_eqb (text "temperature_f") (text "temperature_f")
          && list_ascii_eqb (text "humidity_percent") (text "humidity_percent"))
    with true.
  cbv iota. rewrite !round1_tenths. now destruct d.
Qed.

(** *** The sinks inside an iteration *)

Lemma step_in_try {A B C} (m : M A) (f : A -> M B) (g : B -> M C)
    (clauses : exn -> option (M C)) (s s1 : State) (a : A) :
  m s = (Normal a, s1) ->
  try_except (bind (bind m f) g) clauses s
  = try_except (bind (f a) g) clauses s1.
Proof. intros E. unfold try_except, bind. now rewrite E. Qed.

Lemma display_done (c : Cycle) (display : bool) (data : Reading) (s : State) :
  signal c = None -> print_error c = false ->
  when display (tick c AtDisplay ;; display_data c data) s
  = (Normal tt, if display then set_console (console s ++ [data]) s else s).
Proof.
  intros Hsig Hprint. destruct display; [|reflexivity].
  unfold when, display_data. now rewrite (tick_quiet c _ Hsig), Hprint.
Qed.

Section Tail.

Variable c : Cycle.
Hypothesis quiet : signal c = None.

(** The end of an iteration, after the sinks: it ends normally and
    leaves the files and the console as they are. *)
Lemma tail_written :
  obeys (fun o s s' => o = None /\ written s' = written s)
    (try_except (log_statistics c ;; tick c AtSleep) (run_clauses c)).
Proof.
  apply (obeys_try_to (carries written)).
  - unfold log_statistics, get_statistics, get_statistics_with.
    rewrite !(tick_quiet c _ quiet). obeys_auto carries_leaf.
  - intros s0 s1 [E _]. auto.
  - intros e s0 s1 Hc [_ He]. specialize (He e eq_refl).
    destruct e; try discriminate He; discriminate Hc.
  - intros e h s0 s1 Hc [Er He]. specialize (He e eq_refl).
    destruct e; try discriminate He; simpl in Hc; injection Hc as <-;
      rewrite (tick_quiet c _ quiet); simpl; auto.
Qed.

(** It removes nothing from the log. *)
Lemma tail_log (r : level * message) :
  obeys (keeps (fun s => In r (log s)))
    (try_except (log_statistics c ;; tick c AtSleep) (run_clauses c)).
Proof.
  unfold log_statistics, get_statistics, get_statistics_with, run_clauses.
  rewrite !(tick_quiet c _ quiet).
  obeys_auto ltac:(unfold keeps; simpl; intros; auto using in_or_app).
Qed.

End Tail.

(** ** Statistics *)

Lemma list_min_is_min (xs : list Q) :
  forall x, is_min (list_min x xs) (x :: xs).
Proof.
  unfold is_min, list_min.
  induction xs as [|y xs IH]; intros x.
  - simpl. split; [now left|]. intros z [<- | []]. apply Qle_refl.
  - cbn [fold_left].
    destruct (Qcompare y x) eqn:C.
    + apply Qeq_alt in C. destruct (IH x) as [Hin Hle].
      split.
      * destruct Hin as [<- | Hin]; [now left | right; now right].
      * intros z [<- | [<- | Hz]].
        -- apply Hle. now left.
        -- rewrite C. apply Hle. now left.
        -- apply Hle. now right.
    + apply Qlt_alt in C. destruct (IH y) as [Hin Hle].
      split.
      * destruct Hin as [<- | Hin]; [right; now left | right; now right].
      * intros z [<- | [<- | Hz]].
        -- apply Qle_trans with y; [apply Hle; now left | now apply Qlt_le_weak].
        -- apply Hle. now left.
        -- apply Hle. now right.
    + apply Qgt_alt in C. destruct (IH x) as [Hin Hle].
      split.
      * destruct Hin as [<- | Hin]; [now left | right; now right].
      * intros z [<- | [<- | Hz]].
        -- apply Hle. now left.
        -- apply Qle_trans with x; [apply Hle; now left | now apply Qlt_le_weak].
        -- apply Hle. now right.
Qed.

Lemma list_max_is_max (xs : list Q) :
  forall x, is_max (list_max x xs) (x :: xs).
Proof.
  unfold is_max, list_max.
  induction xs as [|y xs IH]; intros x.
  - simpl. split; [now left|]. intros z [<- | []]. apply Qle_refl.
  - cbn [fold_left].
    destruct (Qcompare y x) eqn:C.
    + apply Qeq_alt in C. destruct (IH x) as [Hin Hle].
      split.
      * destruct Hin as [<- | Hin]; [now left | right; now right].
      * intros z [<- | [<- | Hz]].
        -- apply Hle. now left.
        -- rewrite C. apply Hle. now left.
        -- apply Hle. now right.
    + apply Qlt_alt in C. destruct (IH x) as [Hin Hle].
      split.
      * destruct Hin as [<- | Hin]; [now left | right; now right].
      * intros z [<- | [<- | Hz]].
        -- apply Hle. now left.
        -- apply Qle_trans with x; [now apply Qlt_le_weak | apply Hle; now left].
        -- apply Hle. now right.
    + apply Qgt_alt in C. destruct (IH y) as [Hin Hle].
      split.
      * destruct Hin as [<- | Hin]; [right; now left | right; now right].
      * intros z [<- | [<- | Hz]].
        -- apply Qle_trans with y; [now apply Qlt_le_weak | apply Hle; now left].
        -- apply Hle. now left.
        -- apply Hle. now right.
Qed.

(** *** The rounding of the average *)

Lemma Qpower_2_pos (z : Z) : (0 < 2 ^ z)%Q.
Proof. apply Qpower_0_lt. reflexivity. Qed.

Lemma Qpower_2_minus (a b : Z) : (2 ^ (a - b) == 2 ^ a / 2 ^ b)%Q.
Proof.
  unfold Z.sub. rewrite Qpower_plus by discriminate.
  rewrite Qpower_opp. reflexivity.
Qed.

(** [2 ^ exponent x <= |x|] when [x] is not zero. *)
Lemma exponent_below (x : Q) :
  Qnum x <> 0 -> (2 ^ exponent x <= Qabs x)%Q.
Proof.
  intros N. unfold exponent.
  set (L := Z.log2 (Z.abs (Qnum x))). set (D := Z.log2 (Zpos (Qden x))).
  destruct (Qle_bool (2 ^ (L - D)) (Qabs x)) eqn:B.
  - now apply Qle_bool_iff.
  - assert (HL : 2 ^ L <= Z.abs (Qnum x)) by (apply Z.log2_spec; lia).
    assert (HD : Zpos (Qden x) < 2 ^ (D + 1)).
    { replace (D + 1) with (Z.succ D) by lia. apply Z.log2_spec. lia. }
    assert (L0 : 0 <= L) by apply Z.log2_nonneg.
    assert (D0 : 0 <= D) by apply Z.log2_nonneg.
    replace (L - D - 1) with (L - (D + 1)) by lia.
    rewrite Qpower_2_minus.
    rewrite <- (Zpower_Qpower 2 L), <- (Zpower_Qpower 2 (D + 1)) by lia.
    destruct x as [n d]. simpl in *.
    assert (P : 0 < 2 ^ (D + 1)) by (apply Z.pow_pos_nonneg; lia).
    apply Qle_shift_div_r.
    + unfold Qlt, inject_Z. simpl. lia.
    + unfold Qle, Qmult, Qabs, inject_Z. simpl.
      rewrite !Z.mul_1_r. nia.
Qed.

Lemma binary64_near (x : Q) :
  (Qabs (binary64 x - x) <= unit_roundoff * Qabs x)%Q.
Proof.
  unfold binary64.
  destruct (Z.eq_dec (Qnum x) 0) as [Z0 | N].
  - rewrite Z0.
    assert (E : (x == 0)%Q) by (unfold Qeq; simpl; lia).
    rewrite E. unfold Qle. simpl. lia.
  - replace (match Qnum x with 0 => 0%Q | _ =>
                (inject_Z (round_half_even (x / 2 ^ (exponent x - 52)))
                 * 2 ^ (exponent x - 52))%Q end)
      with (inject_Z (round_half_even (x / 2 ^ (exponent x - 52)))
            * 2 ^ (exponent x - 52))%Q
      by (destruct (Qnum x); [congruence | reflexivity | reflexivity]).
    pose proof (exponent_below x N) as Hlow.
    set (e := exponent x) in *.
    pose proof (Qpower_2_pos (e - 52)) as Hulp.
    pose proof (Qpower_2_pos e) as He.
    assert (Eulp : (2 ^ (e - 52) == 2 ^ e * (1 # 4503599627370496))%Q).
    { rewrite Qpower_2_minus. unfold Qdiv.
      apply Qmult_comp; [reflexivity|]. reflexivity. }
    set (ulp := (2 ^ (e - 52))%Q) in *.
    pose proof (round_half_even_near (x / ulp)) as Hr.
    set (r := inject_Z (round_half_even (x / ulp))) in *.
    assert (E : (r * ulp - x == (r - x / ulp) * ulp)%Q).
    { field. intros H. rewrite H in Hulp. now apply (Qlt_irrefl 0). }
    rewrite E, Qabs_Qmult, (Qabs_pos ulp) by now apply Qlt_le_weak.
    apply Qle_trans with ((1 # 2) * ulp)%Q.
    + apply Qmult_le_compat_r; [exact Hr | now apply Qlt_le_weak].
    + rewrite Eulp. unfold unit_roundoff.
      setoid_replace ((1 # 2) * (2 ^ e * (1 # 4503599627370496)))%Q
        with ((1 # 9007199254740992) * 2 ^ e)%Q by ring.
      apply Qmult_le_l; [reflexivity | exact Hlow].
Qed.

Lemma compound_ge_1 (n : nat) : (1 <= compound n)%Q.
Proof.
  induction n as [|n IH]; simpl; [apply Qle_refl|].
  assert (U : (0 <= unit_roundoff)%Q) by discriminate.
  assert (P : (0 <= compound n * unit_roundoff)%Q)
    by (apply Qmult_le_0_compat; [lra | exact U]).
  setoid_replace (compound n * (1 + unit_roundoff))%Q
    with (compound n + compound n * unit_roundoff)%Q by ring.
  lra.
Qed.

Lemma compound_double_succ (n : nat) :
  (compound (2 * S n)
   == compound (2 * n) * (1 + unit_roundoff) * (1 + unit_roundoff))%Q.
Proof.
  replace (2 * S n)%nat with (S (S (2 * n))) by lia. simpl. ring.
Qed.

Lemma Qabs_bounds (x b : Q) : (Qabs x <= b)%Q <-> (- b <= x /\ x <= b)%Q.
Proof. apply Qabs_Qle_condition. Qed.

(** One step of the sum: a conversion and an addition, each rounded. *)
Lemma float_add_near (a A T g x : Q) :
  (0 <= g)%Q -> (0 <= T)%Q ->
  (Qabs (a - A) <= g * T)%Q -> (Qabs A <= T)%Q ->
  (Qabs (float_add a (binary64 x) - (A + x))
   <= ((1 + g) * (1 + unit_roundoff) * (1 + unit_roundoff) - 1)
      * (T + Qabs x))%Q /\
  (Qabs (A + x) <= T + Qabs x)%Q.
Proof.
  intros Hg HT Ha HA.
  pose proof (binary64_near x) as Hy.
  pose proof (binary64_near (a + binary64 x)) as Hs.
  fold (float_add a (binary64 x)) in Hs.
  set (y := binary64 x) in *. set (s := float_add a y) in *.
  pose proof (Qabs_nonneg x) as HX. pose proof (Qle_Qabs x) as Hx1.
  assert (Hx2 : (- x <= Qabs x)%Q) by (rewrite <- Qabs_opp; apply Qle_Qabs).
  set (X := Qabs x) in *.
  set (u := unit_roundoff) in *.
  assert (U : (u == 1 # 9007199254740992)%Q) by reflexivity.
  assert (HG : (0 <= g * T)%Q) by now apply Qmult_le_0_compat.
  assert (HGX : (0 <= g * X)%Q) by now apply Qmult_le_0_compat.
  set (G := (g * T)%Q) in *. set (GX := (g * X)%Q) in *.
  apply Qabs_bounds in Ha, HA, Hy.
  assert (HW : (Qabs (a + y) <= T + G + X + u * X)%Q).
  { apply Qabs_bounds. lra. }
  assert (Hs' : (Qabs (s - (a + y)) <= u * (T + G + X + u * X))%Q).
  { eapply Qle_trans; [exact Hs|].
    apply Qmult_le_l; [rewrite U; reflexivity | exact HW]. }
  apply Qabs_bounds in Hs'.
  assert (UX : (0 <= u * (u * X))%Q).
  { apply Qmult_le_0_compat; [rewrite U; discriminate|].
    apply Qmult_le_0_compat; [rewrite U; discriminate | exact HX]. }
  assert (Uat : (u * (T + G + X + u * X) == u * T + u * G + u * X + u * (u * X))%Q)
    by ring.
  rewrite Uat in Hs'.
  assert (E : (((1 + g) * (1 + u) * (1 + u) - 1) * (T + X)
               == (2 * (u * T) + u * (u * T))
                  + (G + 2 * (u * G) + u * (u * G))
                  + (2 * (u * X) + u * (u * X))
                  + (GX + 2 * (u * GX) + u * (u * GX)))%Q)
    by (unfold G, GX; ring).
  assert (UT : (0 <= u * (u * T))%Q).
  { apply Qmult_le_0_compat; [rewrite U; discriminate|].
    apply Qmult_le_0_compat; [rewrite U; discriminate | exact HT]. }
  assert (UG : (0 <= u * (u * G))%Q).
  { apply Qmult_le_0_compat; [rewrite U; discriminate|].
    apply Qmult_le_0_compat; [rewrite U; discriminate | exact HG]. }
  assert (UGX : (0 <= u * (u * GX))%Q).
  { apply Qmult_le_0_compat; [rewrite U; discriminate|].
    apply Qmult_le_0_compat; [rewrite U; discriminate | exact HGX]. }
  assert (U1 : (0 <= u * T)%Q)
    by (apply Qmult_le_0_compat; [rewrite U; discriminate | exact HT]).
  assert (U2 : (0 <= u * G)%Q)
    by (apply Qmult_le_0_compat; [rewrite U; discriminate | exact HG]).
  assert (U3 : (0 <= u * X)%Q)
    by (apply Qmult_le_0_compat; [rewrite U; discriminate | exact HX]).
  assert (U4 : (0 <= u * GX)%Q)
    by (apply Qmult_le_0_compat; [rewrite U; discriminate | exact HGX]).
  split.
  - rewrite E. apply Qabs_bounds.
    set (uT := (u * T)%Q) in *. set (uG := (u * G)%Q) in *.
    set (uX := (u * X)%Q) in *. set (uGX := (u * GX)%Q) in *.
    set (uuT := (u * uT)%Q) in *. set (uuG := (u * uG)%Q) in *.
    set (uuX := (u * uX)%Q) in *. set (uuGX := (u * uGX)%Q) in *.
    lra.
  - apply Qabs_bounds. lra.
Qed.

Lemma total_abs (xs : list Q) : (Qabs (total xs) <= total (map Qabs xs))%Q.
Proof.
  induction xs as [|x xs IH]; simpl; [discriminate|].
  eapply Qle_trans; [apply Qabs_triangle|]. lra.
Qed.

Lemma total_abs_nonneg (xs : list Q) : (0 <= total (map Qabs xs))%Q.
Proof.
  induction xs as [|x xs IH]; simpl; [discriminate|].
  pose proof (Qabs_nonneg x). lra.
Qed.

(** The float sum from an accumulator that is near [A]. *)
Lemma fold_float_add_near (xs : list Q) :
  forall a A T g,
    (0 <= g)%Q -> (0 <= T)%Q ->
    (Qabs (a - A) <= g * T)%Q -> (Qabs A <= T)%Q ->
    (Qabs (fold_left (fun acc y => float_add acc (binary64 y)) xs a
           - (A + total xs))
     <= ((1 + g) * compound (2 * List.length xs) - 1)
        * (T + total (map Qabs xs)))%Q.
Proof.
  induction xs as [|x xs IH]; intros a A T g Hg HT Ha HA.
  - cbn [fold_left total fold_right List.length map].
    change (compound (2 * 0)) with 1%Q.
    assert (E : (a - (A + 0) == a - A)%Q) by ring.
    rewrite E. eapply Qle_trans; [exact Ha|].
    apply Qle_lteq. right. ring.
  - destruct (float_add_near a A T g x Hg HT Ha HA) as [H1 H2].
    set (g' := ((1 + g) * (1 + unit_roundoff) * (1 + unit_roundoff) - 1)%Q)
      in *.
    assert (Hg' : (0 <= g')%Q).
    { subst g'.
      assert (U : (0 <= unit_roundoff)%Q) by discriminate.
      assert (P1 : (0 <= g * unit_roundoff)%Q) by now apply Qmult_le_0_compat.
      assert (P2 : (0 <= unit_roundoff * unit_roundoff)%Q)
        by now apply Qmult_le_0_compat.
      assert (P3 : (0 <= g * (unit_roundoff * unit_roundoff))%Q)
        by now apply Qmult_le_0_compat.
      setoid_replace ((1 + g) * (1 + unit_roundoff) * (1 + unit_roundoff) - 1)%Q
        with (g + 2 * unit_roundoff + 2 * (g * unit_roundoff)
              + unit_roundoff * unit_roundoff
              + g * (unit_roundoff * unit_roundoff))%Q by ring.
      lra. }
    pose proof (Qabs_nonneg x) as HX.
    assert (HT' : (0 <= T + Qabs x)%Q) by lra.
    specialize (IH (float_add a (binary64 x)) (A + x)%Q (T + Qabs x)%Q g'
                  Hg' HT' H1 H2).
    cbn [fold_left total fold_right map List.length].
    change (fold_right Qplus 0%Q xs) with (total xs).
    change (fold_right Qplus 0%Q (map Qabs xs)) with (total (map Qabs xs)).
    setoid_replace (A + (x + total xs))%Q with (A + x + total xs)%Q by ring.
    eapply Qle_trans; [exact IH|].
    rewrite compound_double_succ. subst g'.
    apply Qle_lteq. right. ring.
Qed.

Lemma len_pos {A} (x : A) (xs : list A) : (0 < len (x :: xs))%Q.
Proof. unfold len, Qlt. simpl. lia. Qed.

(** The average that [get_statistics] computes is the arithmetic mean up
    to the roundings. *)
Lemma float_mean_near (x : Q) (xs : list Q) :
  (Qabs (float_div (fsum (x :: xs)) (len (x :: xs))
         - total (x :: xs) / len (x :: xs))
   <= (compound (2 * List.length (x :: xs) + 1) - 1)
      * (total (map Qabs (x :: xs)) / len (x :: xs)))%Q.
Proof.
  set (ys := x :: xs). set (n := len ys).
  assert (Hn : (0 < n)%Q) by apply len_pos.
  assert (Hi : (0 < / n)%Q) by now apply Qinv_lt_0_compat.
  pose proof (fold_float_add_near ys 0 0 0 0) as HS.
  fold (fsum ys) in HS.
  assert (HS' : (Qabs (fsum ys - total ys)
                 <= (compound (2 * List.length ys) - 1)
                    * total (map Qabs ys))%Q).
  { setoid_replace (fsum ys - total ys)%Q with (fsum ys - (0 + total ys))%Q
      by ring.
    eapply Qle_trans; [apply HS; try apply Qle_refl; discriminate|].
    apply Qle_lteq. right. ring. }
  clear HS.
  pose proof (total_abs ys) as HA. pose proof (total_abs_nonneg ys) as HT.
  pose proof (compound_ge_1 (2 * List.length ys)) as HC.
  pose proof (binary64_near (fsum ys / n)) as HD.
  fold (float_div (fsum ys) n) in HD.
  replace (2 * List.length ys + 1)%nat with (S (2 * List.length ys)) by lia.
  cbn [compound].
  set (C := compound (2 * List.length ys)) in *.
  set (S := fsum ys) in *. set (E := total ys) in *.
  set (T := total (map Qabs ys)) in *.
  set (a := float_div S n) in *.
  set (u := unit_roundoff) in *.
  assert (U : (u == 1 # 9007199254740992)%Q) by reflexivity.
  (* everything is scaled by 1 / n *)
  assert (HCT : (0 <= (C - 1) * T)%Q)
    by (apply Qmult_le_0_compat; [lra | exact HT]).
  apply Qabs_bounds in HS', HA.
  assert (HSabs : (Qabs S <= T + (C - 1) * T)%Q) by (apply Qabs_bounds; lra).
  assert (HD' : (Qabs (a - S / n) <= u * ((T + (C - 1) * T) * / n))%Q).
  { eapply Qle_trans; [exact HD|].
    apply Qmult_le_l; [rewrite U; reflexivity|].
    unfold Qdiv. rewrite Qabs_Qmult, (Qabs_pos (/ n)) by now apply Qlt_le_weak.
    apply Qmult_le_compat_r; [exact HSabs | now apply Qlt_le_weak]. }
  assert (HQ : (Qabs (S / n - E / n) <= (C - 1) * T * / n)%Q).
  { setoid_replace (S / n - E / n)%Q with ((S - E) * / n)%Q
      by (unfold Qdiv; ring).
    rewrite Qabs_Qmult, (Qabs_pos (/ n)) by now apply Qlt_le_weak.
    apply Qmult_le_compat_r; [apply Qabs_bounds; lra | now apply Qlt_le_weak]. }
  setoid_replace (a - E / n)%Q with ((a - S / n) + (S / n - E / n))%Q by ring.
  eapply Qle_trans; [apply Qabs_triangle|].
  eapply Qle_trans; [apply Qplus_le_compat; [exact HD' | exact HQ]|].
  apply Qle_lteq. right. unfold Qdiv. ring.
Qed.

Lemma avg_is_rounded_mean (x : Q) (xs : list Q) :
  is_rounded_mean (avg (summary x xs)) (x :: xs).
Proof. split; [discriminate|]. apply float_mean_near. Qed.

(** [get_statistics] on the data file of this run. *)
Lemma get_statistics_csv_text (c : Cycle) (s : State) (ds : list Reading) :
  signal c = None -> csv_read_error c = false ->
  forallb (fun d => plain (timestamp d)) ds = true ->
  csv_file s = csv_text ds ->
  get_statistics c s = (Normal (statistics_of (map point_of ds)), s).
Proof.
  intros Hsig Hread Hplain Hfile.
  unfold get_statistics, get_statistics_with.
  rewrite (tick_quiet c _ Hsig), Hread.
  unfold try_except, bind, may_raise, ret, get.
  now rewrite Hfile, (data_points_csv_text ds Hplain).
Qed.

(** * The claims *)

Lemma returns_no_reading_failed (c : Cycle) :
  signal c = None -> returns_no_reading c -> failed_read c.
Proof.
  intros Hsig H. specialize (H fresh).
  rewrite read_sensor_quiet in H by now apply tick_quiet. simpl in H.
  destruct (read_result_cases c) as [[data R] | [F | (e & E & He)]].
  - rewrite R in H. discriminate H.
  - exact F.
  - unfold read_result in H. rewrite E, He in H. discriminate H.
Qed.

Lemma returns_reading_result (c : Cycle) (data : Reading) :
  signal c = None -> returns_reading c data ->
  read_result c = Normal (Some data).
Proof.
  intros Hsig H. specialize (H fresh).
  now rewrite read_sensor_quiet in H by now apply tick_quiet.
Qed.

(** C2: from a count of zero, ten iterations in a row in which
    [read_sensor] returns no reading (and no signal arrives) leave the loop
    running, with the counter back at zero and exactly one more threshold
    record in the log; after any smaller number of these iterations the
    log has no new threshold record. *)
Theorem ten_failures_one_warning (display save_csv save_json : bool)
    (cycles : list Cycle) (s : State) :
  List.length cycles = 10%nat ->
  Forall (fun c => returns_no_reading c /\ signal c = None) cycles ->
  running s = true -> consecutive_errors s = 0 ->
  (exists s',
     run_loop display save_csv save_json cycles s = (Normal tt, s') /\
     running s' = true /\ consecutive_errors s' = 0 /\
     threshold_warnings (log s') = S (threshold_warnings (log s))) /\
  (forall k, (k < 10)%nat ->
     exists s',
       run_loop display save_csv save_json (firstn k cycles) s
         = (Normal tt, s') /\
       running s' = true /\
       threshold_warnings (log s') = threshold_warnings (log s)).
Proof.
  intros Hlen Hall Hrun Hzero.
  assert (Hall' : Forall (fun c => failed_read c /\ signal c = None) cycles).
  { eapply Forall_impl; [|exact Hall]. intros c [H1 H2].
    split; [now apply returns_no_reading_failed | exact H2]. }
  split.
  - destruct (run_loop_failed display save_csv save_json cycles s Hall' Hrun)
      as (s' & E & Hr & H); rewrite ?Hzero, ?Hlen; unfold max_consecutive_errors;
      try lia.
    rewrite Hzero, Hlen in H. simpl in H.
    destruct H as [-> | [Hc Ht]]; [discriminate Hlen|].
    exists s'. auto.
  - intros k Hk.
    assert (Hf : Forall (fun c => failed_read c /\ signal c = None)
                   (firstn k cycles)).
    { clear -Hall'. revert k.
      induction Hall' as [|c l Hc Hl IH]; intros [|k]; simpl; auto. }
    assert (Lk : List.length (firstn k cycles) = k)
      by (apply firstn_length_le; lia).
    destruct (run_loop_failed display save_csv save_json (firstn k cycles) s
                Hf Hrun) as (s' & E & Hr & H);
      rewrite ?Hzero, ?Lk; unfold max_consecutive_errors; try lia.
    rewrite Hzero, Lk in H. unfold max_consecutive_errors in H.
    replace (0 + Z.of_nat k <? 10) with true in H
      by (symmetry; apply Z.ltb_lt; lia).
    destruct H as [_ Ht]. exists s'. auto.
Qed.

Lemma missed_returns_no_reading : returns_no_reading missed.
Proof. intros s. reflexivity. Qed.

Lemma ten_failures_one_warning_witness :
  (exists s',
     run_loop true true false (repeat missed 10) started = (Normal tt, s') /\
     running s' = true /\ consecutive_errors s' = 0 /\
     threshold_warnings (log s') = S (threshold_warnings (log started))) /\
  (forall k, (k < 10)%nat ->
     exists s',
       run_loop true true false (firstn k (repeat missed 10)) started
         = (Normal tt, s') /\
       running s' = true /\
       threshold_warnings (log s') = threshold_warnings (log started)).
Proof.
  apply (ten_failures_one_warning true true false (repeat missed 10) started).
  - reflexivity.
  - repeat constructor; apply missed_returns_no_reading.
  - reflexivity.
  - reflexivity.
Defined.

(** C10: whatever the environment does, the state in which an iteration
    of [run] starts (the state after any number of iterations) has
    [consecutive_errors] between 0 and 9.  An iteration without a signal
    sets the counter to 0 when [read_sensor] returns a reading, to 0 when
    it returns none and the count was 9, and adds one when it returns none
    and the count was below 9. *)
Theorem consecutive_errors_below_threshold (display save_csv save_json : bool)
    (cycles : list Cycle) (s : State) :
  0 <= consecutive_errors (snd (run display save_csv save_json cycles s)) <= 9
  /\
  (forall c s0,
     signal c = None ->
     let n' := consecutive_errors
                 (snd (run_body c display save_csv save_json s0)) in
     (forall data, returns_reading c data -> n' = 0) /\
     (returns_no_reading c -> consecutive_errors s0 = 9 -> n' = 0) /\
     (returns_no_reading c -> consecutive_errors s0 < 9 ->
      n' = consecutive_errors s0 + 1)).
Proof.
  split.
  - unfold run.
    pose proof (run_loop_below_threshold display save_csv save_json cycles) as H.
    cbv [bind logger modify]. simpl.
    match goal with
    | |- context [run_loop _ _ _ _ ?s0] => specialize (H s0)
    end.
    unfold keeps, below_threshold, max_consecutive_errors in H. simpl in H. lia.
  - intros c s0 Hsig n'. subst n'. repeat split.
    + intros data R. apply (run_body_reading_counter c _ _ _ s0 data).
      * now apply tick_quiet.
      * now apply returns_reading_result.
    + intros F E.
      destruct (run_body_failed c display save_csv save_json s0 Hsig
                  (returns_no_reading_failed c Hsig F)) as (s' & -> & _ & H).
      rewrite E in H. simpl in *. tauto.
    + intros F E.
      destruct (run_body_failed c display save_csv save_json s0 Hsig
                  (returns_no_reading_failed c Hsig F)) as (s' & -> & _ & H).
      unfold max_consecutive_errors in H.
      replace (consecutive_errors s0 + 1 >=? 10) with false in H
        by (symmetry; rewrite Z.geb_leb; apply Z.leb_gt; lia).
      simpl. tauto.
Qed.

Lemma consecutive_errors_below_threshold_witness :
  0 <= consecutive_errors
         (snd (run true true false (repeat missed 25) started)) <= 9
  /\ consecutive_errors (snd (run_body missed true true false started)) = 0 + 1.
Proof.
  destruct (consecutive_errors_below_threshold true true false
              (repeat missed 25) started) as [H1 H2].
  split; [exact H1|].
  apply (H2 missed started).
  - reflexivity.
  - apply missed_returns_no_reading.
  - reflexivity.
Defined.

(** In this script a driver exception of another class than
    [RuntimeError] does not end the loop either: [read_sensor] catches it,
    logs it and returns no reading. *)
Lemma fatal_failure_keeps_running (c : Cycle)
    (display save_csv save_json : bool) (s : State) :
  fatal_driver_failure c -> signal c = None ->
  exists s', run_body c display save_csv save_json s = (Normal tt, s') /\
             running s' = running s.
Proof.
  intros F Hsig.
  destruct (run_body_failed c display save_csv save_json s Hsig (or_intror F))
    as (s' & E & Hr & _).
  exists s'. auto.
Qed.

(** C1: an iteration in which the driver misses the frame (it raises
    [RuntimeError] or gives [None] for a value) and no signal arrives ends
    normally with [self.running] still true; and whatever the driver does
    over any number of iterations, when the loop has ended (an exception
    left it, or [self.running] is false) one of the iterations met a
    driver exception of another class or an interrupt. *)
Theorem loop_ends_only_on_fatal_or_interrupt
    (display save_csv save_json : bool) :
  (forall c s,
     transient_read_failure c -> signal c = None -> running s = true ->
     exists s', run_body c display save_csv save_json s = (Normal tt, s') /\
                running s' = true) /\
  (forall cycles s,
     running s = true ->
     fst (run_loop display save_csv save_json cycles s) <> Normal tt \/
     running (snd (run_loop display save_csv save_json cycles s)) = false ->
     exists c, In c cycles /\
               (fatal_driver_failure c \/ interrupt_requested c)).
Proof.
  split.
  - intros c s T Hsig Hrun.
    destruct (run_body_failed c display save_csv save_json s Hsig (or_introl T))
      as (s' & E & Hr & _).
    exists s'. split; [exact E | congruence].
  - intros cycles s Hrun Hend.
    destruct (run_loop_stops_on_interrupt display save_csv save_json cycles s Hrun)
      as [(s' & E & Hr) | (c & Hin & I)].
    + rewrite E in Hend. simpl in Hend. destruct Hend as [H | H]; congruence.
    + exists c. auto.
Qed.

Lemma missed_transient : transient_read_failure missed.
Proof. now left. Qed.

Lemma loop_ends_only_on_fatal_or_interrupt_witness :
  (exists s', run_body missed true true false started = (Normal tt, s') /\
              running s' = true) /\
  (exists c, In c [missed; signalled AtSleep; missed] /\
             (fatal_driver_failure c \/ interrupt_requested c)).
Proof.
  destruct (loop_ends_only_on_fatal_or_interrupt true true false) as [H1 H2].
  split.
  - apply (H1 missed started).
    + exact missed_transient.
    + reflexivity.
    + reflexivity.
  - apply (H2 [missed; signalled AtSleep; missed] started).
    + reflexivity.
    + left. vm_compute. discriminate.
Defined.

(** The [except KeyboardInterrupt] clause of [run] only clears
    [self.running]: no [cleanup] follows.  No signal leads there, since
    [__init__] gives SIGINT to [signal_handler]. *)
Lemma keyboard_interrupt_clears_running (c : Cycle)
    (display save_csv save_json : bool) (s : State) :
  signal c = None -> sensor_temperature c = Fails KeyboardInterrupt ->
  run_body c display save_csv save_json s
  = (Normal tt,
     set_running false
       (set_log (log s ++ [(INFO, KeyboardInterruptReceived)]) s)).
Proof.
  intros Hsig Ht. unfold run_body, try_except. unfold bind at 1.
  rewrite read_sensor_quiet by now apply tick_quiet.
  unfold read_result, read_log, read_error. now rewrite Ht.
Qed.

(** C6: in every run of [main], either no signal is served and [cleanup]
    is not called, or one signal is served: then [cleanup] ran exactly
    once, [self.sensor.exit()] was called exactly once, and the process
    exits through [sys.exit(0)] afterwards.  Wherever the signal is
    served, the handler does one [cleanup] with one [self.sensor.exit()]
    and then leaves by [SystemExit(0)]; and each point of the iteration
    is a place where an arriving signal is served. *)
Theorem cleanup_exactly_once_on_signal (sensor_error : option exn)
    (open_error : bool) (cycles : list Cycle) :
  let exit := fst (main sensor_error open_error cycles fresh) in
  let s' := snd (main sensor_error open_error cycles fresh) in
  ((signals_handled s' = 0 /\ cleanup_calls s' = 0 /\
    sensor_exit_calls s' = 0)%nat \/
   (exit = Raised (SystemExit 0) /\ signals_handled s' = 1 /\
    cleanup_calls s' = 1 /\ sensor_exit_calls s' = 1)%nat) /\
  (forall c p s,
     signal c = Some p ->
     exists s1, tick c p s = (Raised (SystemExit 0), s1) /\
       running s1 = false /\
       cleanup_calls s1 = S (cleanup_calls s) /\
       sensor_exit_calls s1 = S (sensor_exit_calls s)) /\
  (forall p,
     let c := fst (reaching p) in
     let s := snd (reaching p) in
     signal c = Some p /\
     exists s1, run_loop true true true [c] s = (Raised (SystemExit 0), s1) /\
       cleanup_calls s1 = 1%nat /\ sensor_exit_calls s1 = 1%nat).
Proof.
  split; [|split].
  - pose proof (main_served sensor_error open_error cycles fresh) as H.
    destruct H as [H | (Ho & _ & H1 & H2 & H3)].
    + left. unfold calls in H. simpl in H. injection H as -> -> ->. auto.
    + right. simpl in *.
      destruct (fst (main sensor_error open_error cycles fresh)) as [[]|e];
        [discriminate Ho|]. simpl in Ho. injection Ho as ->.
      rewrite H1, H2, H3. auto.
  - intros c p s Hsig.
    destruct (signal_handler_exits c s) as (s1 & E & Hr & _ & Hc & He).
    exists s1. unfold tick. rewrite Hsig.
    replace (point_eqb p p) with true by now destruct p.
    auto.
  - intros p. split; [now destruct p|].
    destruct p; eexists; (split; [vm_compute; reflexivity|]); split; reflexivity.
Qed.

Lemma cleanup_exactly_once_on_signal_witness :
  exists s1,
    tick (signalled AtSleep) AtSleep started = (Raised (SystemExit 0), s1) /\
    running s1 = false /\
    cleanup_calls s1 = S (cleanup_calls started) /\
    sensor_exit_calls s1 = S (sensor_exit_calls started).
Proof.
  destruct (cleanup_exactly_once_on_signal None false []) as (_ & H & _).
  apply (H (signalled AtSleep) AtSleep started).
  reflexivity.
Defined.




(** C9: [read_sensor] returns a reading only when the driver gave both
    values, and the reading then holds both, rounded; when one of the two
    is [None] no reading is returned.  The DHT22 loop writes a row exactly
    when both values are there. *)
Theorem reading_complete_or_absent :
  (forall c s data,
     fst (read_sensor c s) = Normal (Some data) ->
     exists t h,
       sensor_temperature c = Yields (Some t) /\
       sensor_humidity c = Yields (Some h) /\
       temperature_c data = round1 t /\ humidity_percent data = round1 h) /\
  (forall c s t h,
     sensor_temperature c = Yields t -> sensor_humidity c = Yields h ->
     t = None \/ h = None ->
     forall data, fst (read_sensor c s) <> Normal (Some data)) /\
  (forall now t h,
     DHT22.logged_row now t h = None <-> (t = None \/ h = None)).
Proof.
  repeat split.
  - intros c s data H.
    destruct (read_sensor_reading c s data H) as (t & h & Et & Eh & ->).
    now exists t, h.
  - intros c s t h Et Eh Hnone data H.
    destruct (read_sensor_reading c s data H) as (t' & h' & Et' & Eh' & _).
    rewrite Et in Et'. rewrite Eh in Eh'.
    injection Et' as ->. injection Eh' as ->.
    destruct Hnone; discriminate.
  - unfold DHT22.logged_row, DHT22.temperature_f.
    destruct t, h; simpl; intros H; auto; discriminate H.
  - unfold DHT22.logged_row, DHT22.temperature_f.
    intros [-> | ->]; [now destruct h | now destruct t].
Qed.

Lemma reading_complete_or_absent_witness :
  exists t h,
    sensor_temperature (measured (215 # 10) (40 # 1)) = Yields (Some t) /\
    sensor_humidity (measured (215 # 10) (40 # 1)) = Yields (Some h) /\
    temperature_c sample_reading = round1 t /\
    humidity_percent sample_reading = round1 h.
Proof.
  destruct reading_complete_or_absent as [H _].
  apply (H (measured (215 # 10) (40 # 1)) started sample_reading).
  reflexivity.
Defined.

(** C4: after [_init_csv_file] and one [save_to_csv] for each of N
    readings that [read_sensor] returned, the data file has N+1 lines, and
    its data rows, read by column name, give back the N readings in
    order: the same timestamp and the same three values of one decimal. *)
Theorem csv_round_trip (cds : list (Cycle * Reading)) (s : State) :
  Forall recorded_in_csv cds ->
  exists s',
    (_init_csv_file false ;; save_all_to_csv cds) s = (Normal tt, s') /\
    count_lines (csv_file s') = S (List.length cds) /\
    map reading_of_row (DictReader (csv_file s'))
    = map (fun cd => Some (snd cd)) cds.
Proof.
  intros H. destruct (init_then_save_all cds s H) as (s' & E & F).
  pose proof (recorded_timestamps cds H) as P.
  exists s'. split; [exact E|]. rewrite F. split.
  - rewrite csv_text_lines by exact P. now rewrite length_map.
  - rewrite DictReader_csv_text by exact P. rewrite !map_map.
    apply map_ext. intros cd. apply reading_of_row_csv_row.
Qed.

Lemma measured_returns_reading :
  returns_reading (measured (215 # 10) (40 # 1)) sample_reading.
Proof. intros s. reflexivity. Qed.

Lemma csv_round_trip_witness :
  exists s',
    (_init_csv_file false ;;
     save_all_to_csv [(measured (215 # 10) (40 # 1), sample_reading);
                      (measured (215 # 10) (40 # 1), sample_reading)]) fresh
    = (Normal tt, s') /\
    count_lines (csv_file s') = 3%nat /\
    map reading_of_row (DictReader (csv_file s'))
    = [Some sample_reading; Some sample_reading].
Proof.
  apply (csv_round_trip
           [(measured (215 # 10) (40 # 1), sample_reading);
            (measured (215 # 10) (40 # 1), sample_reading)] fresh).
  repeat constructor; apply measured_returns_reading.
Defined.

(** C5: starting without a JSON file, after one [save_to_json] for each
    of N readings (each call loads the sequence, appends one object and
    writes the sequence back), the file holds a sequence of exactly N
    objects, which read back as the N readings in the order of the
    calls; the file exists as soon as N is at least one. *)
Theorem json_file_in_order (cds : list (Cycle * Reading)) (s : State) :
  json_file s = None -> Forall recorded_in_json cds ->
  exists s' items,
    save_all_to_json cds s = (Normal tt, s') /\
    json_items s' = Some items /\
    (cds <> [] -> json_file s' = Some (JArray items)) /\
    List.length items = List.length cds /\
    map reading_of_json items = map (fun cd => Some (snd cd)) cds.
Proof.
  intros Hnone H.
  assert (Hi : json_items s = Some []) by (unfold json_items; now rewrite Hnone).
  destruct (save_all_to_json_file cds H s [] Hi) as (s' & E & F).
  exists s', (map json_of_reading (map snd cds)).
  split; [exact E|]. unfold json_items. rewrite F.
  split; [destruct cds; [now rewrite Hnone | reflexivity]|].
  split; [now destruct cds|].
  split; [now rewrite !length_map|].
  rewrite !map_map. apply map_ext. intros cd. apply reading_of_json_of_reading.
Qed.

Lemma json_file_in_order_witness :
  exists s' items,
    save_all_to_json [(measured (215 # 10) (40 # 1), sample_reading);
                      (measured (215 # 10) (40 # 1), sample_reading)] started
    = (Normal tt, s') /\
    json_items s' = Some items /\
    ([(measured (215 # 10) (40 # 1), sample_reading);
      (measured (215 # 10) (40 # 1), sample_reading)] <> [] ->
     json_file s' = Some (JArray items)) /\
    List.length items = 2%nat /\
    map reading_of_json items = [Some sample_reading; Some sample_reading].
Proof.
  apply (json_file_in_order
           [(measured (215 # 10) (40 # 1), sample_reading);
            (measured (215 # 10) (40 # 1), sample_reading)] started).
  - reflexivity.
  - repeat constructor; apply measured_returns_reading.
Defined.

(** C7: in an iteration with a reading, both file sinks enabled and no
    signal, the iteration ends normally with [self.running] unchanged
    whatever file operation fails; each sink's outcome depends on its own
    failure only: the data file gets the row unless its own open fails,
    the JSON file gets the object unless one of its own opens fails, and
    a failure is logged at ERROR level by the sink it happens in. *)
Theorem sink_failures_do_not_spread (c : Cycle) (display : bool) (s : State)
    (data : Reading) (items : list json) :
  signal c = None -> print_error c = false ->
  returns_reading c data -> json_items s = Some items ->
  exists s',
    run_body c display true true s = (Normal tt, s') /\
    running s' = running s /\
    (display = true -> console s' = console s ++ [data]) /\
    csv_file s'
    = (if csv_append_error c then csv_file s
       else csv_file s ++ writerow (csv_row data)) /\
    json_file s'
    = (if json_fails c s then json_file s
       else Some (JArray (items ++ [json_of_reading data]))) /\
    (csv_append_error c = true -> In (ERROR, ErrorSavingCsv) (log s')) /\
    (json_fails c s = true -> In (ERROR, ErrorSavingJson) (log s')).
Proof.
  intros Hsig Hprint Hread Hitems.
  rewrite (run_body_reading c display true true s data (tick_quiet c _ Hsig)
             (returns_reading_result c data Hsig Hread)).
  set (s2 := set_consecutive_errors 0 _).
  unfold dispatch.
  rewrite (step_in_try _ _ _ _ _ _ _ (display_done c display data s2 Hsig Hprint)).
  set (s3 := if display then _ else s2).
  assert (F3 : running s3 = running s /\ csv_file s3 = csv_file s /\
               json_file s3 = json_file s /\ log s3 = log s /\
               (display = true -> console s3 = console s ++ [data])).
  { subst s3. destruct display; simpl; repeat split; auto; discriminate. }
  destruct F3 as (R3 & C3 & J3 & L3 & D3).
  cbn [when].
  (* the data file *)
  assert (E4 : exists s4,
    save_to_csv c data s3 = (Normal tt, s4) /\
    running s4 = running s /\ console s4 = console s3 /\
    json_file s4 = json_file s /\
    csv_file s4 = (if csv_append_error c then csv_file s
                   else csv_file s ++ writerow (csv_row data)) /\
    (csv_append_error c = true -> In (ERROR, ErrorSavingCsv) (log s4))).
  { destruct (csv_append_error c) eqn:Hcsv.
    - rewrite (save_to_csv_failed c data s3 Hsig Hcsv). eexists.
      split; [reflexivity|]. simpl. repeat split; auto.
      intros _. apply in_or_app. right. now left.
    - rewrite (save_to_csv_done c data s3 Hsig Hcsv). eexists.
      split; [reflexivity|]. simpl. rewrite C3. repeat split; auto.
      discriminate. }
  destruct E4 as (s4 & E4 & R4 & D4 & J4 & C4 & L4).
  rewrite (step_in_try _ _ _ _ _ _ _ E4).
  (* the JSON file *)
  assert (Hitems4 : json_items s4 = Some items)
    by (unfold json_items in *; now rewrite J4).
  assert (Hfails4 : json_fails c s4 = json_fails c s)
    by (unfold json_fails; now rewrite J4).
  assert (E5 : exists s5,
    save_to_json c data s4 = (Normal tt, s5) /\
    running s5 = running s /\ console s5 = console s3 /\
    csv_file s5 = csv_file s4 /\
    json_file s5 = (if json_fails c s then json_file s
                    else Some (JArray (items ++ [json_of_reading data]))) /\
    (csv_append_error c = true -> In (ERROR, ErrorSavingCsv) (log s5)) /\
    (json_fails c s = true -> In (ERROR, ErrorSavingJson) (log s5))).
  { destruct (json_fails c s) eqn:Hjson.
    - rewrite (save_to_json_failed c data s4 items Hsig Hitems4)
        by now rewrite Hfails4.
      eexists. split; [reflexivity|]. simpl. repeat split; auto.
      + intros H. apply in_or_app. left. auto.
      + intros _. apply in_or_app. right. now left.
    - rewrite (save_to_json_done c data s4 items Hsig Hitems4)
        by now rewrite Hfails4.
      eexists. split; [reflexivity|]. simpl. repeat split; auto.
      discriminate. }
  destruct E5 as (s5 & E5 & R5 & D5 & C5 & J5 & L5c & L5j).
  rewrite (step_in_try _ _ _ _ _ _ _ E5).
  (* the end of the iteration *)
  pose proof (tail_written c Hsig s5) as [Hn Hw].
  pose proof (tail_log c Hsig (ERROR, ErrorSavingCsv) s5) as Kc.
  pose proof (tail_log c Hsig (ERROR, ErrorSavingJson) s5) as Kj.
  unfold keeps in Kc, Kj.
  destruct (try_except _ _ s5) as [[[]|e] s'] eqn:E; [|discriminate Hn].
  simpl in Hw, Kc, Kj. unfold written in Hw.
  injection Hw as Wr Wc Wj Wd.
  exists s'. split; [reflexivity|].
  rewrite Wr, Wc, Wj, Wd, R5, C5, C4, J5. repeat split; auto.
  intros Hd. rewrite D5. auto.
Qed.

(** A [print] that fails is another matter: [display_data] catches
    nothing, so the exception goes to the clause of the loop and the two
    file sinks are skipped in this iteration. *)
Lemma print_failure_skips_files (c : Cycle) (save_csv save_json : bool)
    (s : State) (data : Reading) :
  signal c = None -> print_error c = true -> returns_reading c data ->
  run_body c true save_csv save_json s
  = (Normal tt,
     set_log (log s ++ [(ERROR, UnexpectedMainLoopError)])
       (set_consecutive_errors 0
          (set_readings_count (readings_count s + 1) s))).
Proof.
  intros Hsig Hprint Hread.
  rewrite (run_body_reading c true save_csv save_json s data
             (tick_quiet c _ Hsig) (returns_reading_result c data Hsig Hread)).
  unfold dispatch, display_data, run_clauses, when.
  rewrite !(tick_quiet c _ Hsig), Hprint. reflexivity.
Qed.

Lemma sink_failures_do_not_spread_witness :
  exists s',
    run_body csv_unwritable true true true started = (Normal tt, s') /\
    running s' = running started /\
    (true = true -> console s' = console started ++ [sample_reading]) /\
    csv_file s'
    = (if csv_append_error csv_unwritable then csv_file started
       else csv_file started ++ writerow (csv_row sample_reading)) /\
    json_file s'
    = (if json_fails csv_unwritable started then json_file started
       else Some (JArray ([] ++ [json_of_reading sample_reading]))) /\
    (csv_append_error csv_unwritable = true ->
     In (ERROR, ErrorSavingCsv) (log s')) /\
    (json_fails csv_unwritable started = true ->
     In (ERROR, ErrorSavingJson) (log s')).
Proof.
  apply (sink_failures_do_not_spread csv_unwritable true started
           sample_reading []).
  - reflexivity.
  - reflexivity.
  - intros s. reflexivity.
  - reflexivity.
Defined.

(** C8: on the data file of a run, when no signal arrives and the file
    can be read, [get_statistics] returns the statistics of the rows:
    for rows with temperatures 20.0, 22.0 and 24.0 the count 3, min 20.0,
    max 24.0 and avg 22.0; in general the number of rows and, for the
    temperature and for the humidity column, the least value, the
    greatest value and the float quotient [sum(xs) / len(xs)], which is
    the arithmetic mean up to the rounding of the sum and of the
    division; and nothing for a file without data rows. *)
Theorem statistics_of_data_file (c : Cycle) (s : State) (ds : list Reading) :
  signal c = None -> csv_read_error c = false ->
  forallb (fun d => plain (timestamp d)) ds = true ->
  csv_file s = csv_text ds ->
  get_statistics c s = (Normal (statistics_of (map point_of ds)), s) /\
  (map temperature_c ds = [200; 220; 240] ->
   exists stats,
     statistics_of (map point_of ds) = Some stats /\
     stats_readings_count stats = 3%nat /\
     (min (temperature stats) == 20)%Q /\
     (max (temperature stats) == 24)%Q /\
     (avg (temperature stats) == 22)%Q) /\
  (ds = [] <-> statistics_of (map point_of ds) = None) /\
  (forall stats,
     statistics_of (map point_of ds) = Some stats ->
     let temperatures := map (fun d => Q_of_decimal1 (temperature_c d)) ds in
     let humidities := map (fun d => Q_of_decimal1 (humidity_percent d)) ds in
     stats_readings_count stats = List.length ds /\
     is_min (min (temperature stats)) temperatures /\
     is_max (max (temperature stats)) temperatures /\
     avg (temperature stats) = float_div (fsum temperatures) (len temperatures) /\
     is_rounded_mean (avg (temperature stats)) temperatures /\
     is_min (min (humidity stats)) humidities /\
     is_max (max (humidity stats)) humidities /\
     avg (humidity stats) = float_div (fsum humidities) (len humidities) /\
     is_rounded_mean (avg (humidity stats)) humidities).
Proof.
  intros Hsig Hread Hplain Hfile.
  split; [now apply get_statistics_csv_text|].
  split; [|split].
  - intros Ht.
    destruct ds as [|d1 [|d2 [|d3 [|d4 ds]]]]; try discriminate Ht.
    injection Ht as H1 H2 H3.
    eexists. split; [reflexivity|].
    cbn [statistics_of map point_of fst snd stats_readings_count temperature].
    rewrite H1, H2, H3. repeat split.
  - destruct ds; simpl; split; intros H; try discriminate H; reflexivity.
  - intros stats Hs temperatures humidities.
    destruct ds as [|d ds]; [discriminate Hs|].
    injection Hs as <-. subst temperatures humidities.
    cbn [stats_readings_count temperature humidity map point_of fst snd].
    rewrite !map_map. cbn [point_of fst snd].
    split; [simpl; now rewrite length_map|].
    repeat split; try discriminate;
      first [apply list_min_is_min | apply list_max_is_max
            | apply float_mean_near].
Qed.

Lemma statistics_of_data_file_witness :
  get_statistics (measured (215 # 10) (40 # 1))
    (set_csv_file (csv_text three_readings) started)
  = (Normal (statistics_of (map point_of three_readings)),
     set_csv_file (csv_text three_readings) started) /\
  exists stats,
    statistics_of (map point_of three_readings) = Some stats /\
    stats_readings_count stats = 3%nat /\
    (min (temperature stats) == 20)%Q /\
    (max (temperature stats) == 24)%Q /\
    (avg (temperature stats) == 22)%Q.
Proof.
  destruct (statistics_of_data_file (measured (215 # 10) (40 # 1))
              (set_csv_file (csv_text three_readings) started) three_readings)
    as (H1 & H2 & _).
  - reflexivity.
  - reflexivity.
  - vm_compute. reflexivity.
  - reflexivity.
  - split; [exact H1 | apply H2; reflexivity].
Defined.

(** On a data file with three rows of 21.6 degrees the average that
    [get_statistics] returns is 21.600000000000005: it is not the
    arithmetic mean of the column, whether of the decimals or of their
    doubles, and it is greater than the maximum. *)
Lemma statistics_of_data_file_counterexample :
  exists stats,
    get_statistics (measured (215 # 10) (40 # 1))
      (set_csv_file (csv_text steady_readings) started)
    = (Normal (Some stats), set_csv_file (csv_text steady_readings) started) /\
    (avg (temperature stats) == 6079859496950171 # 281474976710656)%Q /\
    ~ is_mean (avg (temperature stats))
        (map (fun d => Q_of_decimal1 (temperature_c d)) steady_readings) /\
    ~ is_mean (avg (temperature stats))
        (map (fun d => binary64 (Q_of_decimal1 (temperature_c d)))
           steady_readings) /\
    (max (temperature stats) < avg (temperature stats))%Q.
Proof.
  eexists. split; [|split; [|split; [|split]]].
  - rewrite (get_statistics_csv_text _ _ steady_readings)
      by first [reflexivity | vm_compute; reflexivity].
    reflexivity.
  - vm_compute. reflexivity.
  - intros [_ H]. vm_compute in H. discriminate H.
  - intros [_ H]. vm_compute in H. discriminate H.
  - vm_compute. reflexivity.
Qed.

(** * Whole runs of the logger *)

Lemma emit_frame {B} (f : State -> B) (l : list (level * message)) :
  (forall s r, f (set_log r s) = f s) -> forall s, f (emit l s) = f s.
Proof.
  intros H. unfold emit.
  induction l as [|r l IH]; intros s; simpl; [reflexivity|].
  rewrite IH. apply H.
Qed.

Lemma reading_of_quiet (c : Cycle) :
  signal c = None ->
  reading_of c = match read_result c with
                 | Normal data => data
                 | Raised _ => None
                 end.
Proof.
  intros Hsig. unfold reading_of.
  now rewrite read_sensor_quiet by now apply tick_quiet.
Qed.

Lemma on_failure_returns (s : State) :
  on_failure s
  = (Normal tt,
     if consecutive_errors s + 1 >=? max_consecutive_errors
     then set_consecutive_errors 0
            (set_log (log s ++ [(ERROR, TooManyConsecutiveErrors)])
               (set_consecutive_errors (consecutive_errors s + 1) s))
     else set_consecutive_errors (consecutive_errors s + 1) s).
Proof.
  unfold on_failure. cbv [bind modify get]. simpl.
  now destruct (consecutive_errors s + 1 >=? max_consecutive_errors).
Qed.

(** An iteration without a reading is the [else] branch on the state
    [read_sensor] leaves. *)
Lemma run_body_no_reading (c : Cycle) (display save_csv save_json : bool)
    (s : State) :
  signal c = None -> read_result c = Normal None ->
  run_body c display save_csv save_json s = on_failure (emit (read_log c) s).
Proof.
  intros Hsig R. unfold run_body, try_except. unfold bind at 1.
  rewrite read_sensor_quiet by now apply tick_quiet.
  rewrite R, !(tick_quiet c _ Hsig).
  cbv [bind ret]. now rewrite on_failure_returns.
Qed.

Section Tails.

Context {B : Type} (f : State -> B).
Hypothesis f_log : forall s r, f (set_log r s) = f s.
Hypothesis f_json : forall s j, f (set_json_file j s) = f s.

Variable c : Cycle.
Hypothesis quiet : signal c = None.

Ltac leaf :=
  unfold carries;
  (split;
   [ first [reflexivity | rewrite f_log; reflexivity
           | rewrite f_json; reflexivity]
   | intros ? [= <-]; reflexivity || discriminate ]).

(** The end of an iteration, after the console and the data file: it
    ends normally and changes only the JSON file and the log. *)
Lemma tail_kept (save_json : bool) (data : Reading) :
  obeys (fun o s s' => o = None /\ f s' = f s)
    (try_except
       ((when save_json (save_to_json c data) ;; log_statistics c) ;;
        tick c AtSleep)
       (run_clauses c)).
Proof.
  apply (obeys_try_to (carries f)).
  - unfold log_statistics, save_to_json, get_statistics, get_statistics_with.
    rewrite !(tick_quiet c _ quiet). obeys_auto leaf.
  - intros s0 s1 [E _]. auto.
  - intros e s0 s1 Hc [_ He]. specialize (He e eq_refl).
    destruct e; try discriminate He; discriminate Hc.
  - intros e h s0 s1 Hc [Er He]. specialize (He e eq_refl).
    destruct e; try discriminate He; simpl in Hc; injection Hc as <-;
      rewrite (tick_quiet c _ quiet); simpl; rewrite f_log; auto.
Qed.

End Tails.

Lemma rows_of_nil : rows_of [] = [].
Proof. reflexivity. Qed.

Lemma rows_of_app (ds es : list Reading) :
  rows_of (ds ++ es) = rows_of ds ++ rows_of es.
Proof. unfold rows_of. now rewrite !map_app, concat_app. Qed.

Lemma rows_of_one (d : Reading) : rows_of [d] = writerow (csv_row d).
Proof. unfold rows_of. simpl. apply app_nil_r. Qed.

(** One iteration without an interrupt, with [save_csv] set. *)
Lemma run_body_appends (c : Cycle) (display save_json : bool) (s : State) :
  ~ interrupt_requested c ->
  exists s', run_body c display true save_json s = (Normal tt, s') /\
    running s' = running s /\
    csv_file s' = csv_file s ++ rows_of (appended display c) /\
    readings_count s' = readings_count s + counted c.
Proof.
  intros NI.
  destruct (interrupt_requested_dec c) as [I | [Hsig Hread]]; [contradiction|].
  pose proof (reading_of_quiet c Hsig) as Ero.
  unfold appended, counted. rewrite Ero.
  destruct (read_result_cases c) as [[data R] | [F | (e & E & He)]].
  - rewrite R.
    rewrite (run_body_reading c display true save_json s data
               (tick_quiet c _ Hsig) R).
    set (s2 := set_consecutive_errors 0 _).
    destruct (display && print_error c) eqn:P.
    + (* [print] fails: the clause of the loop takes over *)
      apply andb_true_iff in P as [-> Hprint].
      unfold dispatch, display_data, run_clauses, when.
      rewrite !(tick_quiet c _ Hsig), Hprint.
      eexists. split; [reflexivity|]. simpl.
      rewrite app_nil_r. auto.
    + assert (E3 : exists s3,
        when display (tick c AtDisplay ;; display_data c data) s2
        = (Normal tt, s3) /\
        running s3 = running s /\ csv_file s3 = csv_file s /\
        readings_count s3 = readings_count s + 1).
      { destruct display; [|exists s2; auto].
        simpl in P. rewrite (display_done c true data s2 Hsig P).
        eexists. split; [reflexivity|]. auto. }
      destruct E3 as (s3 & E3 & R3 & C3 & N3).
      unfold dispatch. rewrite (step_in_try _ _ _ _ _ _ _ E3). cbn [when].
      assert (E4 : exists s4,
        save_to_csv c data s3 = (Normal tt, s4) /\
        running s4 = running s /\
        csv_file s4
        = csv_file s ++ rows_of (if csv_append_error c then [] else [data]) /\
        readings_count s4 = readings_count s + 1).
      { destruct (csv_append_error c) eqn:Hcsv.
        - rewrite (save_to_csv_failed c data s3 Hsig Hcsv). eexists.
          split; [reflexivity|]. simpl. rewrite app_nil_r. auto.
        - rewrite (save_to_csv_done c data s3 Hsig Hcsv). eexists.
          split; [reflexivity|]. simpl. rewrite rows_of_one, C3. auto. }
      destruct E4 as (s4 & E4 & R4 & C4 & N4).
      rewrite (step_in_try _ _ _ _ _ _ _ E4).
      pose proof (tail_kept (fun s => (running s, csv_file s, readings_count s))
                    (fun _ _ => eq_refl) (fun _ _ => eq_refl)
                    c Hsig save_json data s4) as [Hn Hk].
      destruct (try_except _ _ s4) as [[[]|e] s'] eqn:E; [|discriminate Hn].
      simpl in Hk. injection Hk as Kr Kc Kn.
      exists s'. split; [reflexivity|].
      rewrite Kr, Kc, Kn, R4, C4, N4. simpl. auto.
  - rewrite (failed_read_result c F).
    rewrite (run_body_no_reading c _ _ _ s Hsig (failed_read_result c F)).
    rewrite on_failure_returns. eexists. split; [reflexivity|].
    rewrite rows_of_nil, app_nil_r, Z.add_0_r.
    destruct (_ >=? _); simpl;
      rewrite ?(emit_frame running), ?(emit_frame csv_file),
        ?(emit_frame readings_count); auto.
  - rewrite (Hread e E) in He. discriminate He.
Qed.

Lemma flat_map_cons {A B} (f : A -> list B) (x : A) (xs : list A) :
  flat_map f (x :: xs) = f x ++ flat_map f xs.
Proof. reflexivity. Qed.

(** ** The data file is always the header and complete rows *)

Lemma csv_text_snoc (ds : list Reading) (d : Reading) :
  csv_text (ds ++ [d]) = csv_text ds ++ writerow (csv_row d).
Proof.
  unfold csv_text. cbn [map List.concat].
  rewrite !map_app, concat_app. cbn [map List.concat].
  now rewrite app_nil_r, app_assoc.
Qed.

Lemma header_and_rows_snoc (file : list ascii) (d : Reading) :
  plain (timestamp d) = true ->
  header_and_rows file -> header_and_rows (file ++ writerow (csv_row d)).
Proof.
  intros Hd (ds & Hp & ->). exists (ds ++ [d]). split.
  - rewrite forallb_app, Hp. simpl. now rewrite Hd.
  - now rewrite csv_text_snoc.
Qed.

Lemma obeys_bind_value (T : option exn -> State -> State -> Prop)
    {HT : Stable T} {A B} (P : A -> Prop) (m : M A) (k : A -> M B) :
  obeys T m -> (forall s a, fst (m s) = Normal a -> P a) ->
  (forall a, P a -> obeys T (k a)) -> obeys T (bind m k).
Proof.
  intros Hm HP Hk s. specialize (Hm s). specialize (HP s). unfold bind.
  destruct (m s) as [[a|e] s1]; simpl in *.
  - eapply stable_seq; [exact Hm | apply Hk, HP; reflexivity].
  - exact Hm.
Qed.

Lemma same_header_and_rows {A} (m : M A) :
  obeys (same csv_file) m ->
  obeys (keeps (fun s => header_and_rows (csv_file s))) m.
Proof. apply (same_keeps csv_file header_and_rows). Qed.

Ltac rows_leaf :=
  unfold keeps;
  cbn [csv_file set_csv_file set_log set_running set_consecutive_errors
       set_readings_count set_json_file set_console set_sensor_exit_calls
       set_cleanup_calls set_signals_handled];
  intros; auto using header_and_rows_snoc.

Lemma save_to_csv_header_and_rows (c : Cycle) (data : Reading) :
  plain (timestamp data) = true ->
  obeys (keeps (fun s => header_and_rows (csv_file s))) (save_to_csv c data).
Proof.
  intros Hd. unfold save_to_csv.
  obeys_auto rows_leaf. apply same_header_and_rows. untouched.
Qed.

Lemma run_body_header_and_rows (c : Cycle) (display save_csv save_json : bool) :
  obeys (keeps (fun s => header_and_rows (csv_file s)))
    (run_body c display save_csv save_json).
Proof.
  unfold run_body.
  apply (obeys_try _); [|intros e h H; unfold run_clauses in H; clause_cases e H].
  - apply (obeys_bind_value _
             (fun data => forall d, data = Some d -> plain (timestamp d) = true)).
    + apply same_header_and_rows. untouched.
    + intros s [d|] H d' [= <-].
      destruct (read_sensor_reading c s d H) as (t & h & _ & _ & ->).
      apply isoformat_plain.
    + intros [d|] Hd.
      * specialize (Hd d eq_refl).
        unfold on_reading, dispatch, log_statistics.
        obeys_auto rows_leaf;
          try (apply same_header_and_rows; untouched).
        now apply save_to_csv_header_and_rows.
      * unfold on_failure.
        obeys_auto rows_leaf; apply same_header_and_rows; untouched.
  - obeys_auto rows_leaf; apply same_header_and_rows; untouched.
  - obeys_auto rows_leaf; apply same_header_and_rows; untouched.
  - obeys_auto rows_leaf; apply same_header_and_rows; untouched.
  - obeys_auto rows_leaf.
Qed.

Lemma run_loop_header_and_rows (display save_csv save_json : bool)
    (cycles : list Cycle) :
  obeys (keeps (fun s => header_and_rows (csv_file s)))
    (run_loop display save_csv save_json cycles).
Proof.
  induction cycles as [|c cycles IH]; simpl.
  - apply (obeys_ret _).
  - obeys_auto rows_leaf; try (apply same_header_and_rows; untouched);
      try assumption.
    apply run_body_header_and_rows.
Qed.

Lemma read_back_csv_text (ds : list Reading) :
  forallb (fun d => plain (timestamp d)) ds = true ->
  map reading_of_row (DictReader (csv_text ds)) = map Some ds.
Proof.
  intros H. rewrite DictReader_csv_text by assumption. clear H.
  induction ds as [|d ds IH]; cbn [map]; [reflexivity|].
  now rewrite reading_of_row_csv_row, IH.
Qed.

Lemma started_header_and_rows : header_and_rows (csv_file started).
Proof. exists []. split; reflexivity. Qed.

(** X2: whatever the driver, the files, [print] and the signals do during
    a run entered as [main] enters it, and whichever sinks are enabled,
    the data file is at every end of the run the header followed by
    complete rows of readings: it has one line more than it has readings,
    each row reads back as its reading, and [get_statistics] can convert
    every row. *)
Theorem data_file_always_reads_back (display save_csv save_json : bool)
    (cycles : list Cycle) :
  let file := csv_file (snd (run display save_csv save_json cycles started)) in
  exists ds,
    file = csv_text ds /\
    count_lines file = S (List.length ds) /\
    map reading_of_row (DictReader file) = map Some ds /\
    data_points (DictReader file) = Some (map point_of ds).
Proof.
  assert (H : obeys (keeps (fun s => header_and_rows (csv_file s)))
                (run display save_csv save_json cycles)).
  { unfold run. obeys_auto rows_leaf. apply run_loop_header_and_rows. }
  destruct (H started started_header_and_rows) as (ds & Hp & E).
  cbv zeta. exists ds. rewrite E.
  auto using csv_text_lines, read_back_csv_text, data_points_csv_text.
Qed.

(** X1: a run without signal or [KeyboardInterrupt], with [save_csv] set:
    the loop goes through all its iterations, and the data file gets, in
    order, one row for each iteration that had a reading, except those in
    which [print] failed (with [display] set) or the file could not be
    opened; [readings_count] counts every reading, written or not. *)
Theorem data_file_of_uninterrupted_run (display save_json : bool)
    (cycles : list Cycle) :
  forall s,
    Forall (fun c => ~ interrupt_requested c) cycles -> running s = true ->
    exists s',
      run_loop display true save_json cycles s = (Normal tt, s') /\
      running s' = true /\
      csv_file s' = csv_file s ++ rows_of (flat_map (appended display) cycles) /\
      readings_count s'
      = readings_count s + fold_right Z.add 0 (map counted cycles).
Proof.
  induction cycles as [|c cycles IH]; intros s Hall Hrun.
  - exists s. simpl. rewrite rows_of_nil, app_nil_r, Z.add_0_r. auto.
  - inversion Hall as [|? ? NI Hall']; subst.
    assert (Hsig : signal c = None).
    { destruct (signal c) eqn:E; [|reflexivity].
      exfalso. apply NI. left. congruence. }
    rewrite run_loop_step by assumption.
    destruct (run_body_appends c display save_json s NI)
      as (s1 & E1 & R1 & C1 & N1).
    rewrite (bind_normal _ _ _ _ _ E1).
    destruct (IH s1 Hall') as (s' & E' & R' & C' & N'); [congruence|].
    exists s'. split; [exact E'|]. split; [exact R'|].
    rewrite C', C1, N', N1, flat_map_cons, rows_of_app, <- app_assoc.
    simpl. split; [reflexivity | lia].
Qed.

Lemma data_file_of_uninterrupted_run_witness :
  exists s',
    run_loop true true false [measured (215 # 10) (40 # 1); unprintable;
                              csv_unwritable; missed] started
    = (Normal tt, s') /\
    running s' = true /\
    csv_file s' = csv_file started ++ rows_of [sample_reading] /\
    readings_count s' = 3.
Proof.
  apply (data_file_of_uninterrupted_run true false
           [measured (215 # 10) (40 # 1); unprintable; csv_unwritable; missed]
           started).
  - repeat constructor;
      (intros [H | (e & H & He)]; [now apply H | now inversion H; subst]).
  - reflexivity.
Defined.

(** ** What leaves the loop *)

#[local] Instance passes_Stable : Stable passes.
Proof.
  split; unfold passes; auto. intros s e H. discriminate H.
Qed.

Ltac passes_leaf := unfold passes; intros ? H; discriminate H.

Lemma tick_passes (c : Cycle) (p : point) : obeys passes (tick c p).
Proof.
  intros s. destruct (tick_cases c p) as [-> | [_ ->]].
  - intros e H. discriminate H.
  - destruct (signal_handler_exits c s) as (s' & -> & _).
    intros e [= <-]. reflexivity.
Qed.

(** No [Exception] leaves an iteration. *)
Lemma run_body_passes (c : Cycle) (display save_csv save_json : bool) :
  obeys passes (run_body c display save_csv save_json).
Proof.
  unfold run_body. apply (obeys_try_to anything passes).
  - intros s. exact I.
  - intros s s1 _ e H. discriminate H.
  - intros e s s1 Hc _ e' [= <-].
    destruct e; simpl in Hc; try discriminate Hc; reflexivity.
  - intros e h s s1 Hc _.
    assert (H : obeys passes h).
    { destruct e; simpl in Hc; try discriminate Hc; injection Hc as <-;
        obeys_auto passes_leaf; apply tick_passes. }
    exact (H s1).
Qed.

Lemma run_loop_passes (display save_csv save_json : bool) (cycles : list Cycle) :
  obeys passes (run_loop display save_csv save_json cycles).
Proof.
  induction cycles as [|c cycles IH]; simpl.
  - apply (obeys_ret _).
  - obeys_auto passes_leaf; try assumption;
      first [apply tick_passes | apply run_body_passes].
Qed.

Lemma run_passes (display save_csv save_json : bool) (cycles : list Cycle) :
  obeys passes (run display save_csv save_json cycles).
Proof.
  unfold run. obeys_auto passes_leaf. apply run_loop_passes.
Qed.

(** Once [__init__] is through, the clause of [main] is not entered. *)
Lemma main_after_init (cycles : list Cycle) :
  main None false cycles fresh = run true true false cycles started.
Proof.
  unfold main, try_except. unfold bind at 1.
  change (__init__ None false fresh) with (@Normal unit tt, started).
  cbv iota beta.
  pose proof (run_passes true true false cycles started) as P.
  destruct (run true true false cycles started) as [[[]|e] s'];
    [reflexivity|].
  simpl in P. now rewrite (P e eq_refl).
Qed.

Ltac not_logged_leaf :=
  unfold keeps;
  cbn [log set_csv_file set_log set_running set_consecutive_errors
       set_readings_count set_json_file set_console set_sensor_exit_calls
       set_cleanup_calls set_signals_handled];
  intros H;
  first [ exact H
        | rewrite in_app_iff; intros [? | [? | []]];
          [contradiction | discriminate] ].

Lemma tick_not_fatal (c : Cycle) (p : point) :
  obeys (keeps (fun s => ~ In (ERROR, FatalError) (log s))) (tick c p).
Proof.
  unfold tick, signal_handler, cleanup, get_statistics_with.
  obeys_auto not_logged_leaf.
Qed.

Lemma run_body_not_fatal (c : Cycle) (display save_csv save_json : bool) :
  obeys (keeps (fun s => ~ In (ERROR, FatalError) (log s)))
    (run_body c display save_csv save_json).
Proof.
  unfold run_body, run_clauses, read_sensor, sensor_get, on_reading,
    on_failure, dispatch, log_statistics, display_data, save_to_csv,
    save_to_json, get_statistics, get_statistics_with.
  repeat (obeys_auto not_logged_leaf; try apply tick_not_fatal).
Qed.

Lemma run_not_fatal (display save_csv save_json : bool) (cycles : list Cycle) :
  obeys (keeps (fun s => ~ In (ERROR, FatalError) (log s)))
    (run display save_csv save_json cycles).
Proof.
  unfold run. obeys_auto not_logged_leaf.
  induction cycles as [|c cycles IH]; simpl.
  - apply (obeys_ret _).
  - obeys_auto not_logged_leaf; try assumption;
      first [apply tick_not_fatal | apply run_body_not_fatal].
Qed.

(** X3: [main] reports a fatal error and exits with status 1 exactly
    when [__init__] raises an [Exception] (the sensor object cannot be
    made or the data file cannot be opened); then nothing was read, no
    file was written and nothing is cleaned up.  Once [__init__] is
    through, whatever the driver, the files and the signals do, no fatal
    error is logged and no [Exception] leaves [main]. *)
Theorem fatal_error_only_from_init (sensor_error : option exn)
    (open_error : bool) (cycles : list Cycle) :
  let r := fst (main sensor_error open_error cycles fresh) in
  let s' := snd (main sensor_error open_error cycles fresh) in
  if init_fails sensor_error open_error
  then r = Raised (SystemExit 1) /\ log s' = [(ERROR, FatalError)] /\
       csv_file s' = [] /\ calls s' = (0, 0, 0)%nat
  else ~ In (ERROR, FatalError) (log s') /\
       forall e, r = Raised e -> is_Exception e = false.
Proof.
  cbv zeta. destruct sensor_error as [e|]; simpl init_fails.
  - destruct e; simpl; repeat split; auto; intros e [= <-]; reflexivity.
  - destruct open_error.
    + repeat split.
    + rewrite main_after_init. split.
      * apply (run_not_fatal true true false cycles started).
        vm_compute. intros [H | [H | [H | []]]]; discriminate H.
      * intros e H. apply (run_passes true true false cycles started).
        now rewrite H.
Qed.

(** ** [KeyboardInterrupt] *)

Lemma run_body_keyboard_interrupt (c : Cycle)
    (display save_csv save_json : bool) (s : State) :
  signal c = None -> read_error c = Some KeyboardInterrupt ->
  run_body c display save_csv save_json s
  = (Normal tt,
     set_running false
       (set_log (log s ++ [(INFO, KeyboardInterruptReceived)]) s)).
Proof.
  intros Hsig He. unfold run_body, try_except. unfold bind at 1.
  rewrite read_sensor_quiet by now apply tick_quiet.
  unfold read_result, read_log. now rewrite He.
Qed.

(** With [self.running] cleared the loop is left at its next test. *)
Lemma run_loop_stopped (display save_csv save_json : bool)
    (cycles : list Cycle) (s : State) :
  running s = false -> (forall c, In c cycles -> signal c = None) ->
  run_loop display save_csv save_json cycles s = (Normal tt, s).
Proof.
  intros Hrun Hsig. destruct cycles as [|c cycles]; [reflexivity|].
  simpl. rewrite (tick_quiet c _ (Hsig c (or_introl eq_refl))).
  cbv [bind ret get]. now rewrite Hrun.
Qed.

Lemma run_loop_uninterrupted_prefix (display save_csv save_json : bool)
    (before : list Cycle) :
  forall s,
    Forall (fun c => ~ interrupt_requested c) before -> running s = true ->
    exists s1,
      running s1 = true /\
      forall rest,
        run_loop display save_csv save_json (before ++ rest) s
        = run_loop display save_csv save_json rest s1.
Proof.
  induction before as [|c before IH]; intros s Hall Hrun.
  - exists s. auto.
  - inversion Hall as [|? ? NI Hall']; subst.
    destruct (interrupt_requested_dec c) as [I | [Hsig Hread]];
      [contradiction|].
    destruct (run_body_uninterrupted c Hsig display save_csv save_json s Hread)
      as (s1 & E1 & R1).
    destruct (IH s1 Hall') as (s2 & R2 & E2); [congruence|].
    exists s2. split; [exact R2|]. intros rest.
    rewrite <- app_comm_cons, run_loop_step by assumption.
    rewrite (bind_normal _ _ _ _ _ E1). apply E2.
Qed.

(** X4: when the driver lets a [KeyboardInterrupt] through, in the first
    iteration that is interrupted at all, the clause of the loop logs it
    and clears [self.running]; the loop ends at its next test and [main]
    returns normally, without [cleanup] and without
    [self.sensor.exit()]: on this path the sensor is not released. *)
Theorem keyboard_interrupt_skips_cleanup (before after : list Cycle)
    (c : Cycle) :
  Forall (fun c => ~ interrupt_requested c) before ->
  signal c = None -> read_error c = Some KeyboardInterrupt ->
  (forall c', In c' after -> signal c' = None) ->
  exists s',
    main None false (before ++ c :: after) fresh = (Normal tt, s') /\
    running s' = false /\
    In (INFO, KeyboardInterruptReceived) (log s') /\
    cleanup_calls s' = 0%nat /\ sensor_exit_calls s' = 0%nat.
Proof.
  intros Hbefore Hsig He Hafter.
  pose proof (main_served None false (before ++ c :: after) fresh) as Hs.
  rewrite main_after_init in *.
  set (s0 := set_readings_count 0
               (set_consecutive_errors 0
                  (set_log (log (set_log (log started
                                          ++ [(INFO, StartingMonitoring)])
                                   started)
                            ++ [(INFO, PressCtrlCToStop)])
                     (set_log (log started ++ [(INFO, StartingMonitoring)])
                        started)))).
  change (run true true false (before ++ c :: after) started)
    with (run_loop true true false (before ++ c :: after) s0) in *.
  destruct (run_loop_uninterrupted_prefix true true false before s0 Hbefore
              eq_refl) as (s1 & R1 & E1).
  rewrite E1 in *. rewrite run_loop_step in * by assumption.
  pose proof (run_body_keyboard_interrupt c true true false s1 Hsig He) as E2.
  rewrite (bind_normal _ _ _ _ _ E2) in *.
  rewrite run_loop_stopped in * by auto.
  eexists. split; [reflexivity|]. split; [reflexivity|]. split.
  - simpl. apply in_or_app. right. now left.
  - destruct Hs as [Hc | (Hc & _)]; [|discriminate Hc].
    unfold calls in Hc. simpl in Hc. injection Hc as _ H2 H3.
    simpl. auto.
Qed.

Lemma keyboard_interrupt_skips_cleanup_witness :
  exists s',
    main None false ([measured (215 # 10) (40 # 1); missed]
                     ++ interrupted :: [measured (215 # 10) (40 # 1)]) fresh
    = (Normal tt, s') /\
    running s' = false /\
    In (INFO, KeyboardInterruptReceived) (log s') /\
    cleanup_calls s' = 0%nat /\ sensor_exit_calls s' = 0%nat.
Proof.
  apply (keyboard_interrupt_skips_cleanup
           [measured (215 # 10) (40 # 1); missed]
           [measured (215 # 10) (40 # 1)] interrupted).
  - repeat constructor;
      (intros [H | (e & H & He)]; [now apply H | now inversion H; subst]).
  - reflexivity.
  - reflexivity.
  - intros c' [<- | []]. reflexivity.
Defined.

(** ** Failed reads *)

(** X5: an iteration in which the driver raises [RuntimeError], below the
    threshold and without a signal, changes nothing but the failure
    counter: the record of the failure is a debug record, which the
    logger drops, and nothing is printed or written. *)
Theorem missed_frame_leaves_no_trace (c : Cycle)
    (display save_csv save_json : bool) (s : State) :
  signal c = None -> read_error c = Some RuntimeError ->
  consecutive_errors s + 1 < max_consecutive_errors ->
  run_body c display save_csv save_json s
  = (Normal tt, set_consecutive_errors (consecutive_errors s + 1) s).
Proof.
  intros Hsig He Hlt.
  assert (R : read_result c = Normal None)
    by (unfold read_result; now rewrite He).
  assert (L : read_log c = []) by (unfold read_log; now rewrite He).
  rewrite (run_body_no_reading c _ _ _ s Hsig R), L, on_failure_returns.
  simpl emit.
  replace (consecutive_errors s + 1 >=? max_consecutive_errors) with false;
    [reflexivity|].
  symmetry. rewrite Z.geb_leb. apply Z.leb_gt. exact Hlt.
Qed.

Lemma missed_frame_leaves_no_trace_witness :
  run_body missed true true true started
  = (Normal tt, set_consecutive_errors (consecutive_errors started + 1) started).
Proof.
  apply (missed_frame_leaves_no_trace missed true true true started).
  - reflexivity.
  - reflexivity.
  - vm_compute. reflexivity.
Defined.

(** X6: [n] failed reads in a row, starting with the counter at [j]: the
    loop goes on, the counter ends at [(j + n) mod 10] and
    [(j + n) / 10] threshold records were logged, one at every tenth
    failure. *)
Theorem failures_counted_modulo_ten (display save_csv save_json : bool)
    (cycles : list Cycle) :
  forall s,
    Forall (fun c => failed_read c /\ signal c = None) cycles ->
    running s = true -> below_threshold s ->
    exists s',
      run_loop display save_csv save_json cycles s = (Normal tt, s') /\
      running s' = true /\
      consecutive_errors s'
      = (consecutive_errors s + Z.of_nat (List.length cycles))
          mod max_consecutive_errors /\
      Z.of_nat (threshold_warnings (log s'))
      = Z.of_nat (threshold_warnings (log s))
        + (consecutive_errors s + Z.of_nat (List.length cycles))
            / max_consecutive_errors.
Proof.
  unfold below_threshold, max_consecutive_errors.
  induction cycles as [|c cycles IH]; intros s Hall Hrun Hj.
  - exists s. simpl. rewrite Z.add_0_r, Z.mod_small, Z.div_small by lia.
    repeat split; auto. lia.
  - inversion Hall as [|? ? [Hfail Hsig] Hall']; subst.
    rewrite run_loop_step by assumption.
    destruct (run_body_failed c display save_csv save_json s Hsig Hfail)
      as (s1 & E1 & R1 & H1).
    rewrite (bind_normal _ _ _ _ _ E1).
    change (List.length (c :: cycles)) with (S (List.length cycles)).
    rewrite Nat2Z.inj_succ. unfold max_consecutive_errors in H1.
    set (n := Z.of_nat (List.length cycles)) in *.
    destruct (consecutive_errors s + 1 >=? 10) eqn:G;
      rewrite Z.geb_leb in G; [apply Z.leb_le in G | apply Z.leb_gt in G];
      destruct H1 as [C1 T1];
      (destruct (IH s1 Hall') as (s' & E' & R' & C' & T');
       [congruence | lia |]);
      exists s'; (split; [exact E'|]); (split; [exact R'|]);
      rewrite C', T', C1, T1.
    + replace (consecutive_errors s + Z.succ n) with (0 + n + 1 * 10) by lia.
      rewrite Z_mod_plus_full, Z_div_plus_full by lia. split; lia.
    + replace (consecutive_errors s + Z.succ n)
        with (consecutive_errors s + 1 + n) by lia.
      split; reflexivity.
Qed.

Lemma failures_counted_modulo_ten_witness :
  exists s',
    run_loop true true false (repeat missed 23) started = (Normal tt, s') /\
    running s' = true /\
    consecutive_errors s' = 3 /\
    Z.of_nat (threshold_warnings (log s'))
    = Z.of_nat (threshold_warnings (log started)) + 2.
Proof.
  apply (failures_counted_modulo_ten true true false (repeat missed 23)
           started).
  - repeat constructor.
  - reflexivity.
  - vm_compute. split; [discriminate | reflexivity].
Defined.

(** ** The JSON file *)

Lemma json_grows_same (cut : Prop) (o : option exn) (s s' : State) :
  json_file s' = json_file s -> json_grows cut o s s'.
Proof.
  intros E. unfold json_grows, json_items. rewrite E.
  destruct (json_file s) as [[]|]; try reflexivity;
    left; exists []; simpl; now rewrite ?app_nil_r.
Qed.

Lemma json_grows_seq (cut : Prop) (o o' : option exn) (s1 s2 s3 : State) :
  o <> Some (SystemExit 0) ->
  json_grows cut o s1 s2 -> json_grows cut o' s2 s3 -> json_grows cut o' s1 s3.
Proof.
  unfold json_grows. intros Ho H1 H2.
  destruct (json_items s1) as [items|] eqn:E1.
  - destruct H1 as [(ds & E2) | (_ & E & _)]; [|contradiction].
    rewrite E2 in H2. destruct H2 as [(es & E3) | H2]; [left | now right].
    exists (ds ++ es). now rewrite E3, map_app, app_assoc.
  - assert (E2 : json_items s2 = None)
      by (unfold json_items in *; now rewrite H1).
    rewrite E2 in H2. congruence.
Qed.

#[local] Instance json_grows_Stable (cut : Prop) : Stable (json_grows cut).
Proof.
  split.
  - intros s. now apply json_grows_same.
  - intros o s1 s2 s3. apply json_grows_seq. discriminate.
  - intros e o s1 s2 s3 C. apply json_grows_seq.
    intros [= ->]. destruct C as [C | C]; discriminate C.
Qed.

Lemma same_json_grows (cut : Prop) {A} (m : M A) :
  obeys (same json_file) m -> obeys (json_grows cut) m.
Proof. apply obeys_weaken. intros o s s'. apply json_grows_same. Qed.

Lemma json_grows_weaken (cut cut' : Prop) {A} (m : M A) :
  (cut -> cut') -> obeys (json_grows cut) m -> obeys (json_grows cut') m.
Proof.
  intros H. apply obeys_weaken. intros o s s'. unfold json_grows.
  destruct (json_items s); [|auto].
  intros [G | (F & E & C)]; [now left | right; auto].
Qed.

Lemma point_eqb_eq (p q : point) : point_eqb p q = true -> p = q.
Proof. destruct p, q; simpl; intros H; try discriminate H; reflexivity. Qed.

Lemma tick_arrives (c : Cycle) (p : point) :
  tick c p = ret tt \/ (signal c = Some p /\ tick c p = signal_handler c).
Proof.
  unfold tick. destruct (signal c) as [q|]; [|now left].
  destruct (point_eqb p q) eqn:E; [right | now left].
  apply point_eqb_eq in E. now subst q.
Qed.

Lemma signal_handler_json (c : Cycle) (s : State) :
  exists s', signal_handler c s = (Raised (SystemExit 0), s') /\
    json_file s' = json_file s.
Proof.
  pose proof (signal_handler_same json_file (fun _ _ => eq_refl)
                (fun _ _ => eq_refl) (fun _ _ => eq_refl)
                (fun _ _ => eq_refl) (fun _ _ => eq_refl) c s) as H.
  destruct (signal_handler_exits c s) as (s' & E & _).
  unfold same in H. rewrite E in H. simpl in H. now exists s'.
Qed.

Lemma save_to_json_grows (c : Cycle) (data : Reading) :
  obeys (json_grows (signal c = Some InJsonDump)) (save_to_json c data).
Proof.
  intros s. destruct (tick_cases c InSaveJson) as [Q | [_ Q]].
  - destruct (tick_arrives c InJsonDump) as [D | [Hsig D]].
    + unfold save_to_json. rewrite Q, D.
      unfold json_grows, json_items, try_except, bind, get, ret.
      destruct (json_file s) as [[]|] eqn:F;
        destruct (json_read_error c), (json_write_error c); simpl;
        rewrite ?F;
        first [ reflexivity
              | left; exists []; reflexivity
              | left; exists []; now rewrite app_nil_r
              | left; exists [data]; reflexivity ].
    + unfold save_to_json. rewrite Q, D.
      unfold json_grows, json_items, try_except, bind, get, ret.
      destruct (json_file s) as [[]|] eqn:F;
        destruct (json_read_error c), (json_write_error c); simpl;
        rewrite ?F;
        try first [ reflexivity
                  | left; exists []; reflexivity
                  | left; exists []; now rewrite app_nil_r ].
      all: match goal with
           | |- context [signal_handler ?c0 ?s0] =>
               destruct (signal_handler_json c0 s0) as (s' & -> & E)
           end; simpl; right; auto.
  - apply json_grows_same.
    destruct (signal_handler_json c s) as (s' & E & H).
    unfold save_to_json, try_except.
    rewrite (bind_raised _ _ s (SystemExit 0) s') by now rewrite Q.
    exact H.
Qed.

Ltac grows_leaf := apply json_grows_same; reflexivity.

Lemma run_body_json_grows (c : Cycle) (display save_csv save_json : bool) :
  obeys (json_grows (signal c = Some InJsonDump))
    (run_body c display save_csv save_json).
Proof.
  unfold run_body, run_clauses, on_reading, on_failure, dispatch,
    log_statistics.
  obeys_auto grows_leaf; try (apply same_json_grows; untouched).
  apply save_to_json_grows.
Qed.

Lemma run_loop_json_grows (display save_csv save_json : bool)
    (cycles : list Cycle) :
  obeys (json_grows (cut_in cycles))
    (run_loop display save_csv save_json cycles).
Proof.
  induction cycles as [|c cycles IH]; simpl.
  - apply (obeys_ret _).
  - obeys_auto grows_leaf; try (apply same_json_grows; untouched).
    + apply (json_grows_weaken (signal c = Some InJsonDump));
        [intros H; now left | apply run_body_json_grows].
    + apply (json_grows_weaken (cut_in cycles));
        [intros H; now right | exact IH].
Qed.

(** X7: over any run of the loop, with any sinks enabled and whatever
    fails or interrupts, a JSON file that held a sequence (or did not
    exist) holds the same objects afterwards, followed by objects of
    readings, with one exception: when a signal is served while
    [json.dump] writes to the file it has emptied, the run ends by
    [SystemExit(0)] and leaves the file with a cut text, as it does from
    a file with one stored reading.  A file that holds no sequence is
    left as it was.  (A file operation that fails does so when the file
    is opened.) *)
Theorem json_file_grows_unless_cut (display save_csv save_json : bool)
    (cycles : list Cycle) (s : State) :
  let exit := fst (run_loop display save_csv save_json cycles s) in
  let s' := snd (run_loop display save_csv save_json cycles s) in
  match json_items s with
  | Some items =>
      (exists ds, json_items s' = Some (items ++ map json_of_reading ds)) \/
      (json_file s' = Some JCut /\ exit = Raised (SystemExit 0) /\
       cut_in cycles)
  | None => json_file s' = json_file s
  end /\
  (cut_in cycles \/
   match json_items s with
   | Some items =>
       exists ds, json_items s' = Some (items ++ map json_of_reading ds)
   | None => True
   end) /\
  run_loop true true true [signalled InJsonDump] one_stored
  = (Raised (SystemExit 0),
     snd (run_loop true true true [signalled InJsonDump] one_stored)) /\
  json_items one_stored = Some [json_of_reading sample_reading] /\
  json_file (snd (run_loop true true true [signalled InJsonDump] one_stored))
  = Some JCut.
Proof.
  cbv zeta.
  pose proof (run_loop_json_grows display save_csv save_json cycles s) as H.
  unfold json_grows in H.
  split; [|split; [|split; [|split]]].
  - destruct (json_items s) as [items|]; [|exact H].
    destruct H as [H | (F & E & C)]; [now left | right].
    split; [exact F|]. split; [|exact C].
    destruct (fst (run_loop display save_csv save_json cycles s)) as [[]|e];
      [discriminate E | simpl in E; congruence].
  - destruct (json_items s) as [items|]; [|now right].
    destruct H as [H | (_ & _ & C)]; [now right | now left].
  - vm_compute. reflexivity.
  - reflexivity.
  - vm_compute. reflexivity.
Qed.

(** ** Statistics *)

Lemma len_cons {A} (x : A) (xs : list A) : (len (x :: xs) == len xs + 1)%Q.
Proof.
  unfold len. change (List.length (x :: xs)) with (S (List.length xs)).
  rewrite Nat2Z.inj_succ, <- Z.add_1_r, inject_Z_plus. reflexivity.
Qed.

Lemma len_nonneg {A} (xs : list A) : (0 <= len xs)%Q.
Proof. unfold len, Qle. simpl. lia. Qed.

Lemma total_lower (m : Q) (xs : list Q) :
  (forall y, In y xs -> (m <= y)%Q) -> (m * len xs <= total xs)%Q.
Proof.
  induction xs as [|x xs IH]; intros H.
  - unfold len. simpl. rewrite Qmult_0_r. apply Qle_refl.
  - rewrite len_cons. simpl total.
    assert (Hx : (m <= x)%Q) by (apply H; now left).
    assert (Hxs : (m * len xs <= total xs)%Q)
      by (apply IH; intros y Hy; apply H; now right).
    lra.
Qed.

Lemma total_upper (m : Q) (xs : list Q) :
  (forall y, In y xs -> (y <= m)%Q) -> (total xs <= m * len xs)%Q.
Proof.
  induction xs as [|x xs IH]; intros H.
  - unfold len. simpl. rewrite Qmult_0_r. apply Qle_refl.
  - rewrite len_cons. simpl total.
    assert (Hx : (x <= m)%Q) by (apply H; now left).
    assert (Hxs : (total xs <= m * len xs)%Q)
      by (apply IH; intros y Hy; apply H; now right).
    lra.
Qed.

Lemma mean_between (m M x : Q) (xs : list Q) :
  (forall y, In y (x :: xs) -> (m <= y)%Q) ->
  (forall y, In y (x :: xs) -> (y <= M)%Q) ->
  (m <= total (x :: xs) / len (x :: xs) <= M)%Q.
Proof.
  intros Hmin Hmax.
  apply total_lower in Hmin. apply total_upper in Hmax.
  assert (P : (0 < len (x :: xs))%Q).
  { rewrite len_cons. pose proof (len_nonneg xs). lra. }
  split.
  - apply Qle_shift_div_l; assumption.
  - apply Qle_shift_div_r; assumption.
Qed.

Lemma summary_bounds (x : Q) (xs : list Q) :
  (min (summary x xs) <= max (summary x xs))%Q /\
  (min (summary x xs) - rounding (x :: xs) <= avg (summary x xs))%Q /\
  (avg (summary x xs) <= max (summary x xs) + rounding (x :: xs))%Q.
Proof.
  destruct (list_min_is_min xs x) as [_ Hmin].
  destruct (list_max_is_max xs x) as [Hin Hmax].
  destruct (avg_is_rounded_mean x xs) as [_ Hmean].
  change (min (summary x xs)) with (list_min x xs).
  change (max (summary x xs)) with (list_max x xs).
  split; [now apply Hmin|].
  destruct (mean_between _ _ x xs Hmin Hmax) as [Hlo Hhi].
  apply Qabs_bounds in Hmean. lra.
Qed.

(** X8: the statistics of a non-empty list of data points count its
    points, and for temperature and for humidity the minimum is at most
    the maximum and the average lies between them up to the rounding of
    the float sum and quotient; there are none for the empty list. *)
Theorem statistics_average_near_extremes (points : list (Q * Q)) :
  match statistics_of points with
  | Some st =>
      let temperatures := map fst points in
      let humidities := map snd points in
      stats_readings_count st = List.length points /\
      (min (temperature st) <= max (temperature st))%Q /\
      (min (temperature st) - rounding temperatures <= avg (temperature st))%Q /\
      (avg (temperature st) <= max (temperature st) + rounding temperatures)%Q /\
      (min (humidity st) <= max (humidity st))%Q /\
      (min (humidity st) - rounding humidities <= avg (humidity st))%Q /\
      (avg (humidity st) <= max (humidity st) + rounding humidities)%Q
  | None => points = []
  end.
Proof.
  destruct points as [|p ps]; [reflexivity|].
  cbn [statistics_of]. cbv zeta.
  split; [reflexivity|].
  cbn [temperature humidity map].
  destruct (summary_bounds (fst p) (map fst ps)) as (T1 & T2 & T3).
  destruct (summary_bounds (snd p) (map snd ps)) as (H1 & H2 & H3).
  repeat split; assumption.
Qed.

(** *** A data file with an incomplete last row *)

Lemma universal_newlines_unbroken (l : list ascii) :
  unbroken l = true -> universal_newlines l = l.
Proof.
  induction l as [|c l IH]; simpl; intros H; [reflexivity|].
  apply andb_true_iff in H as [Hc Hl].
  apply andb_true_iff in Hc as [Hcr _]. apply negb_true_iff in Hcr.
  now rewrite Hcr, IH.
Qed.

Lemma universal_newlines_rows_app (rows : list (list (list ascii)))
    (rest : list ascii) :
  forallb plain_row rows = true ->
  universal_newlines (List.concat (map writerow rows) ++ rest)
  = unix_text rows ++ universal_newlines rest.
Proof.
  unfold unix_text.
  induction rows as [|row rows IH]; simpl; intros H; [reflexivity|].
  apply andb_true_iff in H as [Hr Hs].
  rewrite (writerow_plain _ Hr), <- !app_assoc. simpl app.
  apply andb_true_iff in Hr as [Hp _].
  rewrite universal_newlines_line by now apply join_unbroken.
  now rewrite IH.
Qed.

Lemma reader_unix_text_app (rows : list (list (list ascii)))
    (rest : list ascii) :
  forallb plain_row rows = true ->
  reader START_RECORD [] [] (unix_text rows ++ rest)
  = rows ++ reader START_RECORD [] [] rest.
Proof.
  unfold unix_text.
  induction rows as [|row rows IH]; simpl; intros H; [reflexivity|].
  apply andb_true_iff in H as [Hr Hs].
  rewrite <- !app_assoc. simpl app. now rewrite reader_row, IH.
Qed.

(** The reader at a plain field that the end of the file ends. *)
Lemma reader_field_eof (f : list ascii) :
  plain f = true ->
  forall st acc fields,
    st = START_FIELD \/ st = IN_FIELD ->
    reader st acc fields f = [fields ++ [acc ++ f]].
Proof.
  induction f as [|c f IH]; intros H st acc fields Hst.
  - rewrite app_nil_r. destruct Hst as [-> | ->]; reflexivity.
  - simpl in H. apply andb_true_iff in H as [Hc Hf].
    apply plain_char_cases in Hc as (Hcomma & Hquote & _ & Hlf).
    replace (acc ++ c :: f) with ((acc ++ [c]) ++ f)
      by now rewrite <- app_assoc.
    destruct Hst as [-> | ->]; simpl; rewrite ?Hlf, ?Hquote, ?Hcomma;
      apply IH; auto.
Qed.

Lemma reader_two_fields (a b : list ascii) :
  plain a = true -> plain b = true ->
  reader START_RECORD [] [] (join COMMA [a; b]) = [[a; b]].
Proof.
  intros Ha Hb.
  change (join COMMA [a; b]) with (a ++ COMMA :: join COMMA [b]).
  rewrite reader_field_comma by (auto; discriminate).
  replace (join COMMA [b]) with b by (simpl; now rewrite ?app_nil_r).
  now rewrite reader_field_eof by auto.
Qed.

Lemma data_points_bad_row (rows : list row_dict) (bad : row_dict) :
  data_point bad = None -> data_points (rows ++ [bad]) = None.
Proof.
  intros H. induction rows as [|r rows IH]; cbn [app data_points].
  - now rewrite H.
  - rewrite IH. now destruct (data_point r).
Qed.

Lemma data_point_two_fields (a : list ascii) (k : decimal1) :
  data_point (zip_row csv_header [a; str_float k]) = None.
Proof.
  unfold data_point.
  change (getitem (zip_row csv_header [a; str_float k]) (text "temperature_c"))
    with (Some (Some (str_float k))).
  cbv iota beta. rewrite parse_float_str_float. reflexivity.
Qed.

Lemma data_points_cut_short (file : list ascii) :
  cut_short file -> data_points (DictReader file) = None.
Proof.
  intros (ds & ts & k & Hp & Hts & ->).
  unfold DictReader, csv_records, csv_text.
  assert (Hk : plain (str_float k) = true) by apply str_float_plain.
  rewrite universal_newlines_rows_app by now apply csv_rows_plain.
  rewrite universal_newlines_unbroken
    by (apply join_unbroken; simpl; now rewrite Hts, Hk).
  rewrite reader_unix_text_app by now apply csv_rows_plain.
  rewrite reader_two_fields by assumption.
  cbn [app]. rewrite filter_app, map_app. cbn [filter map].
  apply data_points_bad_row, data_point_two_fields.
Qed.

(** X9: when the last row of the data file is incomplete (it ends after
    the temperature), [get_statistics] gives no statistics at all: its
    loop fails at that row, the error is logged once, [None] is returned
    and nothing else changes. *)
Theorem incomplete_row_voids_statistics (c : Cycle) (s : State) :
  signal c = None -> cut_short (csv_file s) ->
  get_statistics c s
  = (Normal None, set_log (log s ++ [(ERROR, ErrorCalculatingStatistics)]) s).
Proof.
  intros Hsig Hfile. apply data_points_cut_short in Hfile.
  unfold get_statistics, get_statistics_with.
  rewrite (tick_quiet c _ Hsig).
  unfold try_except, bind, may_raise, ret, get, raise.
  destruct (csv_read_error c); [reflexivity|].
  now rewrite Hfile.
Qed.

Lemma incomplete_row_voids_statistics_witness :
  get_statistics (measured (215 # 10) (40 # 1))
    (set_csv_file (csv_text three_readings
                   ++ join COMMA [isoformat noon; str_float 215]) started)
  = (Normal None,
     set_log (log started ++ [(ERROR, ErrorCalculatingStatistics)])
       (set_csv_file (csv_text three_readings
                      ++ join COMMA [isoformat noon; str_float 215]) started)).
Proof.
  apply (incomplete_row_voids_statistics (measured (215 # 10) (40 # 1))
           (set_csv_file (csv_text three_readings
                          ++ join COMMA [isoformat noon; str_float 215])
              started)).
  - reflexivity.
  - exists three_readings, (isoformat noon), 215. repeat split.
Defined.

(** ** [cleanup] and the statistics records *)

(** X11: [cleanup] always returns.  When [self.sensor.exit()] fails, the
    error is logged and the final statistics are skipped; otherwise the
    completion is logged, followed by the final statistics of the data
    file, by nothing when the file has no data row, or by the error of
    [get_statistics] when the file cannot be opened. *)
Theorem cleanup_reports (c : Cycle) (s : State) (ds : list Reading) :
  forallb (fun d => plain (timestamp d)) ds = true ->
  csv_file s = csv_text ds ->
  exists s',
    cleanup c s = (Normal tt, s') /\
    log s'
    = log s ++
      (if sensor_exit_error c then [(ERROR, ErrorDuringCleanup)]
       else (INFO, SensorCleanupCompleted) ::
            (if csv_read_error c then [(ERROR, ErrorCalculatingStatistics)]
             else match statistics_of (map point_of ds) with
                  | Some st => [(INFO, FinalStatistics st)]
                  | None => []
                  end)).
Proof.
  intros Hp Hfile. unfold cleanup, get_statistics_with.
  cbv [bind modify try_except may_raise raise ret get logger].
  destruct (sensor_exit_error c); [eexists; split; reflexivity|].
  destruct (csv_read_error c).
  - eexists. split; [reflexivity|]. simpl. now rewrite <- app_assoc.
  - cbn [csv_file set_log set_sensor_exit_calls set_cleanup_calls].
    rewrite Hfile, (data_points_csv_text ds Hp).
    destruct (statistics_of (map point_of ds)) as [st|];
      eexists; (split; [reflexivity|]); simpl; now rewrite <- ?app_assoc.
Qed.


Lemma cleanup_reports_witness :
  exists s',
    cleanup (measured (215 # 10) (40 # 1))
      (set_csv_file (csv_text three_readings) started)
    = (Normal tt, s') /\
    log s'
    = log started
      ++ (INFO, SensorCleanupCompleted)
         :: match statistics_of (map point_of three_readings) with
            | Some st => [(INFO, FinalStatistics st)]
            | None => []
            end.
Proof.
  apply (cleanup_reports (measured (215 # 10) (40 # 1))
           (set_csv_file (csv_text three_readings) started) three_readings);
    reflexivity.
Defined.

Lemma statistics_of_nonempty (points : list (Q * Q)) :
  points <> [] ->
  exists st, statistics_of points = Some st /\
             stats_readings_count st = List.length points.
Proof.
  destruct points as [|p ps]; [congruence|]. intros _.
  eexists. split; reflexivity.
Qed.

(** X10: an iteration with a reading in which nothing fails, with the
    data file enabled: when the count of readings reaches a multiple of
    ten, one statistics record is logged, computed from the rows of the
    data file including the one just written (its count is the number of
    rows in the file, not the count of readings); otherwise nothing is
    logged. *)
Theorem statistics_after_every_tenth_reading (c : Cycle) (display : bool)
    (s : State) (data : Reading) (ds : list Reading) :
  signal c = None -> returns_reading c data ->
  print_error c = false -> csv_append_error c = false ->
  csv_read_error c = false ->
  forallb (fun d => plain (timestamp d)) ds = true ->
  csv_file s = csv_text ds ->
  exists s' st,
    run_body c display true false s = (Normal tt, s') /\
    statistics_of (map point_of (ds ++ [data])) = Some st /\
    stats_readings_count st = S (List.length ds) /\
    log s'
    = log s ++ (if (readings_count s + 1) mod 10 =? 0
                then [(INFO, StatisticsAfter st)] else []).
Proof.
  intros Hsig Hread Hprint Hcsv Hopen Hp Hfile.
  assert (Hd : plain (timestamp data) = true).
  { destruct (read_sensor_reading c fresh data (Hread fresh))
      as (t & h & _ & _ & ->). apply isoformat_plain. }
  assert (Hp' : forallb (fun d => plain (timestamp d)) (ds ++ [data]) = true).
  { rewrite forallb_app, Hp. simpl. now rewrite Hd. }
  destruct (statistics_of_nonempty (map point_of (ds ++ [data])))
    as (st & St & Hn).
  { intros H. apply (f_equal (@List.length _)) in H.
    rewrite length_map, length_app in H. simpl in H. lia. }
  rewrite length_map, length_app, Nat.add_1_r in Hn.
  rewrite (run_body_reading c display true false s data (tick_quiet c _ Hsig)
             (returns_reading_result c data Hsig Hread)).
  set (s2 := set_consecutive_errors 0 _).
  unfold dispatch.
  rewrite (step_in_try _ _ _ _ _ _ _ (display_done c display data s2 Hsig Hprint)).
  set (s3 := if display then _ else s2).
  assert (F3 : csv_file s3 = csv_file s /\ log s3 = log s /\
               readings_count s3 = readings_count s + 1).
  { subst s3. destruct display; simpl; auto. }
  destruct F3 as (C3 & L3 & N3).
  cbn [when].
  rewrite (step_in_try _ _ _ _ _ _ _ (save_to_csv_done c data s3 Hsig Hcsv)).
  set (s4 := set_csv_file _ s3).
  assert (F4 : csv_file s4 = csv_text (ds ++ [data])).
  { subst s4. simpl. now rewrite C3, Hfile, csv_text_snoc. }
  pose proof (get_statistics_csv_text c s4 (ds ++ [data]) Hsig Hopen Hp' F4) as G.
  unfold log_statistics. rewrite (tick_quiet c _ Hsig).
  unfold try_except, bind, ret, get.
  change (readings_count s4) with (readings_count s3). rewrite N3.
  destruct ((readings_count s + 1) mod 10 =? 0).
  - rewrite G, St. exists (set_log (log s4 ++ [(INFO, StatisticsAfter st)]) s4), st.
    repeat split; auto. simpl. now rewrite L3.
  - exists s4, st. repeat split; auto. simpl. now rewrite L3, app_nil_r.
Qed.

Lemma statistics_after_every_tenth_reading_witness :
  exists s' st,
    run_body (measured (215 # 10) (40 # 1)) true true false
      (set_readings_count 9
         (set_csv_file (csv_text three_readings) started))
    = (Normal tt, s') /\
    statistics_of (map point_of (three_readings ++ [sample_reading]))
    = Some st /\
    stats_readings_count st = 4%nat /\
    log s'
    = log started ++ [(INFO, StatisticsAfter st)].
Proof.
  apply (statistics_after_every_tenth_reading (measured (215 # 10) (40 # 1))
           true
           (set_readings_count 9
              (set_csv_file (csv_text three_readings) started))
           sample_reading three_readings).
  - reflexivity.
  - exact measured_returns_reading.
  - reflexivity.
  - reflexivity.
  - reflexivity.
  - reflexivity.
  - reflexivity.
Defined.

(** * The console scripts *)

Lemma spaced_app (t1 t2 : list Console.event) :
  forall r,
    Console.spaced r (t1 ++ t2)
    = Console.spaced r t1 && Console.spaced (Console.rested_after r t1) t2.
Proof.
  induction t1 as [|x t1 IH]; intros r; [reflexivity|].
  destruct x; simpl; rewrite ?IH; try reflexivity.
  now rewrite andb_assoc.
Qed.

Lemma rested_after_app (t1 t2 : list Console.event) :
  forall r,
    Console.rested_after r (t1 ++ t2)
    = Console.rested_after (Console.rested_after r t1) t2.
Proof.
  induction t1 as [|x t1 IH]; intros r; [reflexivity|].
  destruct x; simpl; now rewrite ?IH.
Qed.

Lemma releases_app (t1 t2 : list Console.event) :
  Console.releases (t1 ++ t2)
  = (Console.releases t1 + Console.releases t2)%nat.
Proof. unfold Console.releases. now rewrite filter_app, length_app. Qed.

Lemma reads_app (t1 t2 : list Console.event) :
  Console.reads (t1 ++ t2) = (Console.reads t1 + Console.reads t2)%nat.
Proof. unfold Console.reads. now rewrite filter_app, length_app. Qed.

Lemma powered_app (t1 t2 : list Console.event) :
  forall on,
    Console.powered on (t1 ++ t2)
    = Console.powered (Console.powered on t1) t2.
Proof.
  induction t1 as [|x t1 IH]; intros on; [reflexivity|].
  destruct x; simpl; now rewrite ?IH.
Qed.

Lemma file_after_app (t1 t2 : list Console.event) :
  forall file,
    Console.file_after file (t1 ++ t2)
    = Console.file_after (Console.file_after file t1) t2.
Proof.
  induction t1 as [|x t1 IH]; intros file; [reflexivity|].
  destruct x; simpl; now rewrite ?IH.
Qed.

(** The two ways a sequence ends. *)
Lemma andthen_cases {E A B} (m : Console.T E A) (k : A -> Console.T E B) :
  (exists a, fst m = Normal a /\
             Console.andthen m k = (fst (k a), snd m ++ snd (k a))) \/
  (exists e, fst m = Raised e /\ Console.andthen m k = (Raised e, snd m)).
Proof.
  unfold Console.andthen, Console.after.
  destruct (fst m) as [a|e]; [left; exists a | right; exists e]; auto.
Qed.

Ltac poll_cases p :=
  let t := fresh "t" in let h := fresh "h" in
  let e := fresh "e" in let e' := fresh "e" in
  let now := fresh "now" in let ae := fresh "ae" in
  destruct p as [[[t|]|e] [[h|]|e'] now [|] [[]|]];
  try destruct e; try destruct e'.

Ltac prefix_of_length :=
  first [ refine (ex_intro _ [] _); split; reflexivity
        | refine (ex_intro _ [_] _); split; reflexivity
        | refine (ex_intro _ [_; _] _); split; reflexivity
        | refine (ex_intro _ [_; _; _] _); split; reflexivity
        | refine (ex_intro _ [_; _; _; _] _); split; reflexivity
        | refine (ex_intro _ [_; _; _; _; _] _); split; reflexivity ].

(** ** Sleeps between reads *)

Lemma rpi5_iteration_spaced (p : Console.Poll) :
  Console.spaced true (snd (Console.rpi5_trixie_dht11.iteration p)) = true /\
  (forall a, fst (Console.rpi5_trixie_dht11.iteration p) = Normal a ->
     Console.rested_after true
       (snd (Console.rpi5_trixie_dht11.iteration p)) = true).
Proof.
  poll_cases p; (split; [reflexivity | intros a H; try discriminate H; reflexivity]).
Qed.

Lemma gen2_iteration_spaced (p : Console.Poll) :
  Console.spaced true (snd (Console.trixie_logger_gen2.iteration p)) = true /\
  (forall a, fst (Console.trixie_logger_gen2.iteration p) = Normal a ->
     Console.rested_after true
       (snd (Console.trixie_logger_gen2.iteration p)) = true).
Proof.
  poll_cases p; (split; [reflexivity | intros a H; try discriminate H; reflexivity]).
Qed.

(** A loop whose iterations each keep the reads spaced and end rested. *)
Lemma loop_spaced (iteration : Console.Poll -> Console.Script unit)
    (loop : list Console.Poll -> Console.Script unit) :
  loop [] = Console.pure tt ->
  (forall p rest,
     loop (p :: rest) = Console.andthen (iteration p) (fun _ => loop rest)) ->
  (forall p,
     Console.spaced true (snd (iteration p)) = true /\
     (forall a, fst (iteration p) = Normal a ->
        Console.rested_after true (snd (iteration p)) = true)) ->
  forall polls, Console.spaced true (snd (loop polls)) = true.
Proof.
  intros Hnil Hcons Hit polls.
  induction polls as [|p polls IH]; [now rewrite Hnil|].
  rewrite Hcons. destruct (Hit p) as [Hs Hr].
  destruct (andthen_cases (iteration p) (fun _ => loop polls))
    as [(a & Ha & ->) | (e & He & ->)]; simpl.
  - now rewrite spaced_app, Hs, (Hr a Ha), IH.
  - exact Hs.
Qed.

(** X12: in [rpi5-trixie-dht11.py] and in the DHT22 logger the sleep
    follows the [try] statement, so whatever the driver does and whenever
    Ctrl-C arrives, no read of the sensor follows another without a
    sleep in between (2 and 3 seconds): a failed read is not retried at
    once. *)
Theorem reads_are_spaced (polls : list Console.Poll) :
  Console.spaced true (snd (Console.rpi5_trixie_dht11.loop polls)) = true /\
  Console.spaced true (snd (Console.trixie_logger_gen2.loop polls)) = true.
Proof.
  split.
  - apply (loop_spaced Console.rpi5_trixie_dht11.iteration); auto.
    apply rpi5_iteration_spaced.
  - apply (loop_spaced Console.trixie_logger_gen2.iteration); auto.
    apply gen2_iteration_spaced.
Qed.

Lemma snd_andthen {E A B} (m : Console.T E A) (k : A -> Console.T E B) :
  exists t, snd (Console.andthen m k) = snd m ++ t.
Proof.
  destruct (andthen_cases m k) as [(a & _ & ->) | (e & _ & ->)]; simpl.
  - now exists (snd (k a)).
  - exists []. now rewrite app_nil_r.
Qed.

Lemma dht11_iteration_reads_first (q : Console.Poll) :
  Console.interrupt q <> Some Console.InTry ->
  exists t,
    snd (Console.dht11_rpi5_trixie.iteration q) = Console.Get_temperature :: t.
Proof.
  intros H. poll_cases q; simpl in H; try congruence; eexists; reflexivity.
Qed.

(** X13: in [DHT11/dht11-rpi5-trixie.py] the sleep is inside the [try]
    block: when the driver raises [RuntimeError], the clause prints and
    the next iteration reads the sensor at once, without any sleep in
    between. *)
Theorem failed_read_is_retried_at_once (p q : Console.Poll)
    (rest : list Console.Poll) :
  Console.failure p = Some RuntimeError ->
  Console.interrupt p = None ->
  Console.interrupt q <> Some Console.InTry ->
  fst (Console.dht11_rpi5_trixie.iteration p) = Normal tt /\
  Console.rested_after true (snd (Console.dht11_rpi5_trixie.iteration p))
  = false /\
  Console.spaced true
    (snd (Console.dht11_rpi5_trixie.loop (p :: q :: rest))) = false.
Proof.
  intros Hf Hi Hq.
  assert (Hp : fst (Console.dht11_rpi5_trixie.iteration p) = Normal tt /\
               Console.spaced true
                 (snd (Console.dht11_rpi5_trixie.iteration p)) = true /\
               Console.rested_after true
                 (snd (Console.dht11_rpi5_trixie.iteration p)) = false).
  { unfold Console.failure in Hf.
    poll_cases p; try discriminate Hf; try discriminate Hi;
      repeat split. }
  destruct Hp as (Hn & Hs & Hr). split; [exact Hn|]. split; [exact Hr|].
  cbn [Console.dht11_rpi5_trixie.loop].
  destruct (andthen_cases (Console.dht11_rpi5_trixie.iteration p)
              (fun _ => Console.andthen (Console.dht11_rpi5_trixie.iteration q)
                          (fun _ => Console.dht11_rpi5_trixie.loop rest)))
    as [(a & _ & ->) | (e & He & _)]; [|congruence].
  cbn [snd]. rewrite spaced_app, Hs, Hr.
  destruct (snd_andthen (Console.dht11_rpi5_trixie.iteration q)
              (fun _ => Console.dht11_rpi5_trixie.loop rest)) as (t & ->).
  destruct (dht11_iteration_reads_first q Hq) as (t' & ->).
  reflexivity.
Qed.

Lemma failed_read_is_retried_at_once_witness :
  fst (Console.dht11_rpi5_trixie.iteration Console.bad_frame) = Normal tt /\
  Console.rested_after true
    (snd (Console.dht11_rpi5_trixie.iteration Console.bad_frame)) = false /\
  Console.spaced true
    (snd (Console.dht11_rpi5_trixie.loop
            (Console.bad_frame :: Console.good_poll :: [Console.good_poll])))
  = false.
Proof.
  apply (failed_read_is_retried_at_once Console.bad_frame Console.good_poll
           [Console.good_poll]).
  - reflexivity.
  - reflexivity.
  - discriminate.
Defined.

(** ** Releasing the sensor *)





(** *** Iterations that do not end the loop *)

Lemma loop_prefix (iteration : Console.Poll -> Console.Script unit)
    (loop : list Console.Poll -> Console.Script unit)
    (P : Console.Poll -> Prop) :
  loop [] = Console.pure tt ->
  (forall p rest,
     loop (p :: rest) = Console.andthen (iteration p) (fun _ => loop rest)) ->
  (forall p, P p ->
     exists t, iteration p = (Normal tt, t) /\ Console.releases t = 0%nat) ->
  forall before,
    Forall P before ->
    exists t,
      Console.releases t = 0%nat /\
      forall rest,
        loop (before ++ rest) = (fst (loop rest), t ++ snd (loop rest)).
Proof.
  intros Hnil Hcons Hit before Hall.
  induction Hall as [|p before Hp _ (t & Ht & IH)].
  - exists []. split; [reflexivity|]. intros rest. simpl.
    now destruct (loop rest).
  - destruct (Hit p Hp) as (tp & Ep & Rp).
    exists (tp ++ t). split; [now rewrite releases_app, Rp, Ht|].
    intros rest. rewrite <- app_comm_cons, Hcons, Ep, IH.
    unfold Console.andthen, Console.after. simpl.
    now rewrite app_assoc.
Qed.

Lemma rpi5_iteration_undisturbed (p : Console.Poll) :
  Console.undisturbed p ->
  exists t, Console.rpi5_trixie_dht11.iteration p = (Normal tt, t) /\
            Console.releases t = 0%nat.
Proof.
  unfold Console.undisturbed, Console.failure. intros [Hi Hf].
  poll_cases p; simpl in Hi, Hf; try discriminate Hi;
    try (destruct Hf as [Hf | Hf]; discriminate Hf);
    eexists; split; reflexivity.
Qed.

Lemma dht11_iteration_undisturbed (p : Console.Poll) :
  Console.undisturbed p ->
  exists t, Console.dht11_rpi5_trixie.iteration p = (Normal tt, t) /\
            Console.releases t = 0%nat.
Proof.
  unfold Console.undisturbed, Console.failure. intros [Hi Hf].
  poll_cases p; simpl in Hi, Hf; try discriminate Hi;
    try (destruct Hf as [Hf | Hf]; discriminate Hf);
    eexists; split; reflexivity.
Qed.

Lemma dht11_iteration_interrupted (p : Console.Poll) :
  Console.interrupt p = Some Console.InTry \/
  (Console.interrupt p = Some Console.AtSleep /\ Console.failure p = None) ->
  exists t,
    Console.dht11_rpi5_trixie.iteration p
    = (Raised (SystemExit 0),
       t ++ [Console.Print Console.Blank; Console.Exit_sensor]) /\
    Console.releases t = 0%nat.
Proof.
  unfold Console.failure. intros H.
  poll_cases p; simpl in H;
    try (destruct H as [H | [H H']]; discriminate);
    prefix_of_length.
Qed.

(** X15: in [DHT11/dht11-rpi5-trixie.py], when Ctrl-C arrives in the
    [try] block (at a read or during the sleep) of the first iteration
    that is disturbed at all, the script prints an empty line, calls
    [dht_sensor.exit()] once, as the last thing it does, and leaves by
    [sys.exit(0)]. *)
Theorem ctrl_c_in_try_releases_sensor (before after : list Console.Poll)
    (p : Console.Poll) :
  Forall Console.undisturbed before ->
  Console.interrupt p = Some Console.InTry \/
  (Console.interrupt p = Some Console.AtSleep /\ Console.failure p = None) ->
  exists t,
    Console.dht11_rpi5_trixie.script Console.Constructed
      (before ++ p :: after)
    = (Raised (SystemExit 0),
       t ++ [Console.Print Console.Blank; Console.Exit_sensor]) /\
    Console.releases t = 0%nat.
Proof.
  intros Hbefore Hp.
  destruct (loop_prefix Console.dht11_rpi5_trixie.iteration
              Console.dht11_rpi5_trixie.loop Console.undisturbed
              eq_refl (fun _ _ => eq_refl) dht11_iteration_undisturbed
              before Hbefore) as (tb & Rb & Eb).
  destruct (dht11_iteration_interrupted p Hp) as (tp & Ep & Rp).
  exists ([Console.Print Console.Notice; Console.Print Console.Notice]
          ++ tb ++ tp).
  split; [|now rewrite !releases_app, Rb, Rp].
  unfold Console.dht11_rpi5_trixie.script.
  rewrite Eb. cbn [Console.dht11_rpi5_trixie.loop]. rewrite Ep.
  unfold Console.andthen, Console.does, Console.after. cbn [fst snd app].
  now rewrite app_assoc.
Qed.

Lemma ctrl_c_in_try_releases_sensor_witness :
  exists t,
    Console.dht11_rpi5_trixie.script Console.Constructed
      ([Console.good_poll; Console.bad_frame]
       ++ Console.ctrl_c Console.AtSleep :: [Console.good_poll])
    = (Raised (SystemExit 0),
       t ++ [Console.Print Console.Blank; Console.Exit_sensor]) /\
    Console.releases t = 0%nat.
Proof.
  apply (ctrl_c_in_try_releases_sensor
           [Console.good_poll; Console.bad_frame] [Console.good_poll]
           (Console.ctrl_c Console.AtSleep)).
  - constructor; [split; [reflexivity | left; reflexivity]|].
    constructor; [split; [reflexivity | right; reflexivity]|].
    constructor.
  - right. split; reflexivity.
Defined.

Lemma fatal_iteration (p : Console.Poll) (e : exn) :
  Console.interrupt p = None -> Console.failure p = Some e ->
  is_Exception e = true -> e <> RuntimeError ->
  (exists t,
     Console.rpi5_trixie_dht11.iteration p
     = (Raised e, t ++ [Console.Exit_sensor]) /\
     Console.releases t = 0%nat) /\
  (exists t,
     Console.dht11_rpi5_trixie.iteration p
     = (Raised e, t ++ [Console.Exit_sensor]) /\
     Console.releases t = 0%nat).
Proof.
  unfold Console.failure. intros Hi Hf He Hn.
  poll_cases p; simpl in Hi, Hf; try discriminate Hi; try discriminate Hf;
    injection Hf as <-; try discriminate He; try congruence;
    split; prefix_of_length.
Qed.

(** X16: in the two DHT11 console scripts, an [Exception] of the driver
    other than [RuntimeError], in the first iteration that is disturbed
    at all, ends the script: [dht_sensor.exit()] is called once, as the
    last thing the script does, the same exception is raised again, and
    no later iteration runs. *)
Theorem fatal_exception_releases_sensor (before after : list Console.Poll)
    (p : Console.Poll) (e : exn) :
  Forall Console.undisturbed before ->
  Console.interrupt p = None -> Console.failure p = Some e ->
  is_Exception e = true -> e <> RuntimeError ->
  (exists t,
     Console.rpi5_trixie_dht11.loop (before ++ p :: after)
     = (Raised e, t ++ [Console.Exit_sensor]) /\
     Console.releases t = 0%nat) /\
  (exists t,
     Console.dht11_rpi5_trixie.loop (before ++ p :: after)
     = (Raised e, t ++ [Console.Exit_sensor]) /\
     Console.releases t = 0%nat).
Proof.
  intros Hbefore Hi Hf He Hn.
  destruct (fatal_iteration p e Hi Hf He Hn)
    as [(t1 & E1 & R1) (t2 & E2 & R2)].
  split.
  - destruct (loop_prefix Console.rpi5_trixie_dht11.iteration
                Console.rpi5_trixie_dht11.loop Console.undisturbed
                eq_refl (fun _ _ => eq_refl) rpi5_iteration_undisturbed
                before Hbefore) as (tb & Rb & Eb).
    exists (tb ++ t1). split; [|now rewrite releases_app, Rb, R1].
    rewrite Eb. cbn [Console.rpi5_trixie_dht11.loop]. rewrite E1.
    unfold Console.andthen. cbn [fst snd]. now rewrite app_assoc.
  - destruct (loop_prefix Console.dht11_rpi5_trixie.iteration
                Console.dht11_rpi5_trixie.loop Console.undisturbed
                eq_refl (fun _ _ => eq_refl) dht11_iteration_undisturbed
                before Hbefore) as (tb & Rb & Eb).
    exists (tb ++ t2). split; [|now rewrite releases_app, Rb, R2].
    rewrite Eb. cbn [Console.dht11_rpi5_trixie.loop]. rewrite E2.
    unfold Console.andthen. cbn [fst snd]. now rewrite app_assoc.
Qed.

Lemma fatal_exception_releases_sensor_witness :
  (exists t,
     Console.rpi5_trixie_dht11.loop
       ([Console.good_poll; Console.bad_frame]
        ++ Console.broken_sensor :: [Console.good_poll])
     = (Raised OSError, t ++ [Console.Exit_sensor]) /\
     Console.releases t = 0%nat) /\
  (exists t,
     Console.dht11_rpi5_trixie.loop
       ([Console.good_poll; Console.bad_frame]
        ++ Console.broken_sensor :: [Console.good_poll])
     = (Raised OSError, t ++ [Console.Exit_sensor]) /\
     Console.releases t = 0%nat).
Proof.
  apply (fatal_exception_releases_sensor
           [Console.good_poll; Console.bad_frame] [Console.good_poll]
           Console.broken_sensor OSError).
  - constructor; [split; [reflexivity | left; reflexivity]|].
    constructor; [split; [reflexivity | right; reflexivity]|].
    constructor.
  - reflexivity.
  - reflexivity.
  - reflexivity.
  - discriminate.
Defined.

(** ** The DHT22 logger *)

Lemma gen2_iteration_quiet (p : Console.Poll) :
  Console.releases (snd (Console.trixie_logger_gen2.iteration p)) = 0%nat.
Proof. poll_cases p; reflexivity. Qed.

Lemma gen2_loop_quiet (polls : list Console.Poll) :
  Console.releases (snd (Console.trixie_logger_gen2.loop polls)) = 0%nat.
Proof.
  induction polls as [|p polls IH]; [reflexivity|].
  cbn [Console.trixie_logger_gen2.loop].
  pose proof (gen2_iteration_quiet p) as Hr.
  destruct (andthen_cases (Console.trixie_logger_gen2.iteration p)
              (fun _ => Console.trixie_logger_gen2.loop polls))
    as [(a & Ha & ->) | (e & He' & ->)]; cbn [fst snd].
  - now rewrite releases_app, Hr, IH.
  - exact Hr.
Qed.

(** X17: [main] of the DHT22 logger, when it reaches its loop, calls
    [dht_sensor.exit()] exactly once, in the [finally] block: after every
    read of the sensor, however the loop ends (by Ctrl-C, by what the
    driver raises that is no [Exception], or by what a [print] raises in
    a clause of the loop), and followed by the last [print] only.  An
    [Exception] can leave [main]: [OSError] does when the output is lost
    in an iteration, or after the loop.  When a step before the loop
    fails, [main] reads nothing and releases nothing, also when the
    sensor object was already made, and it returns normally when it
    could print. *)
Theorem logger_releases_sensor_after_loop
    (start : Console.trixie_logger_gen2.Start) (polls : list Console.Poll) :
  let r := fst (Console.trixie_logger_gen2.main start polls) in
  let t := snd (Console.trixie_logger_gen2.main start polls) in
  (if Console.entered start
   then exists t0 t1,
          t = t0 ++ Console.Exit_sensor :: t1 /\
          Console.releases t0 = 0%nat /\
          Console.reads t0
          = Console.reads (snd (Console.trixie_logger_gen2.loop polls)) /\
          t1 = (if Console.trixie_logger_gen2.no_output_after start
                then [] else [Console.Print Console.Resources_released])
   else Console.releases t = 0%nat /\ Console.reads t = 0%nat /\
        (Console.trixie_logger_gen2.no_output_before start = false ->
         r = Normal tt)) /\
  fst (Console.trixie_logger_gen2.main Console.all_well
         [Console.good_poll; Console.unseen; Console.good_poll])
  = Raised OSError /\
  fst (Console.trixie_logger_gen2.main Console.no_farewell []) = Raised OSError.
Proof.
  cbv zeta. split; [|split; reflexivity].
  pose proof (gen2_loop_quiet polls) as Hr.
  destruct start as [[| |] [|] [|] [|] after];
    try (destruct after; repeat split;
         first [intros H; discriminate H | intros _; reflexivity]).
  unfold Console.entered, Console.trixie_logger_gen2.main.
  cbn [Console.trixie_logger_gen2.sensor
       Console.trixie_logger_gen2.makedirs_error
       Console.trixie_logger_gen2.create_error
       Console.trixie_logger_gen2.no_output_before
       Console.trixie_logger_gen2.no_output_after negb andb].
  cbv zeta.
  destruct (Console.trixie_logger_gen2.loop polls) as [r0 tl].
  cbn [snd] in *.
  assert (E : Console.reads
                (Console.Print Console.Notice :: Console.Print Console.Blank
                 :: Console.Print Console.Notice :: Console.Print Console.Notice
                 :: Console.Print Console.Blank
                 :: Console.Create Console.trixie_logger_gen2.header
                 :: Console.Print Console.Logging_to
                 :: Console.Print Console.Blank :: Console.Print Console.Notice
                 :: Console.Print Console.Notice :: Console.Print Console.Blank
                 :: tl) = Console.reads tl) by reflexivity.
  destruct r0 as [[]|e]; [|destruct e]; destruct after;
    cbv [Console.andthen Console.does Console.after Console.finally
         Console.attempt Console.say Console.throw fst snd];
    cbn [app].
  all: rewrite ?app_nil_r.
  all: try
    ( refine (ex_intro _ (_ :: _ :: _ :: _ :: _ :: _ :: _ :: _ :: _ :: _ :: _
                            :: tl) _);
      eexists; split; [reflexivity|];
      split; [exact Hr|]; split; [exact E | reflexivity] ).
  refine (ex_intro _ (_ :: _ :: _ :: _ :: _ :: _ :: _ :: _ :: _ :: _ :: _
                        :: tl ++ [Console.Print Console.Stopped_by_user]) _).
  eexists. split; [reflexivity|].
  change (Console.releases (tl ++ [Console.Print Console.Stopped_by_user])
          = 0%nat /\
          Console.reads (tl ++ [Console.Print Console.Stopped_by_user])
          = Console.reads tl /\
          [Console.Print Console.Resources_released]
          = [Console.Print Console.Resources_released]).
  rewrite releases_app, reads_app, Hr. cbn. repeat split. lia.
Qed.

Lemma gen2_iteration_survivable (p : Console.Poll) :
  Console.survivable p ->
  exists t,
    Console.trixie_logger_gen2.iteration p = (Normal tt, t) /\
    Console.reads t = 1%nat /\
    forall file,
      Console.file_after file t
      = file ++ List.concat (map writerow (Console.logged p)).
Proof.
  unfold Console.survivable, Console.failure, Console.logged. intros [Hi Hf].
  poll_cases p; simpl in Hi, Hf; try discriminate Hi;
    try (specialize (Hf _ eq_refl); discriminate Hf);
    (eexists; split; [reflexivity|]; split; [reflexivity|]; intros file;
     cbn [Console.file_after Console.poll_temperature Console.poll_humidity
          Console.poll_now Console.append_error DHT22.logged_row
          DHT22.temperature_f map List.concat];
     now rewrite ?app_nil_r).
Qed.

(** The loop over iterations without Ctrl-C in which the driver raises
    nothing but [Exception]s. *)
Lemma gen2_loop_survivable (polls : list Console.Poll) :
  Forall Console.survivable polls ->
  exists t,
    Console.trixie_logger_gen2.loop polls = (Normal tt, t) /\
    Console.reads t = List.length polls /\
    forall file,
      Console.file_after file t
      = file ++ List.concat (map writerow (flat_map Console.logged polls)).
Proof.
  induction 1 as [|p polls Hp _ (t & E & R & F)].
  - exists []. repeat split. intros file. simpl. now rewrite app_nil_r.
  - destruct (gen2_iteration_survivable p Hp) as (tp & Ep & Rp & Fp).
    exists (tp ++ t). cbn [Console.trixie_logger_gen2.loop].
    rewrite Ep, E. split; [reflexivity|]. split.
    + rewrite reads_app, Rp, R. reflexivity.
    + intros file.
      rewrite file_after_app, Fp, F, flat_map_cons, map_app, concat_app.
      now rewrite app_assoc.
Qed.

Lemma strftime_ymd_hms_plain (t : datetime) :
  plain (strftime_ymd_hms t) = true.
Proof.
  unfold strftime_ymd_hms.
  repeat (rewrite plain_app || rewrite zero_pad_plain
          || (cbn [plain forallb andb]; change (forallb plain_char) with plain)).
  reflexivity.
Qed.

Lemma logged_plain (p : Console.Poll) :
  forallb plain_row (Console.logged p) = true.
Proof.
  unfold Console.logged, DHT22.logged_row, DHT22.temperature_f,
    DHT22.format_1f.
  destruct (Console.poll_temperature p) as [[t|]|e];
    destruct (Console.poll_humidity p) as [[h|]|e'];
    destruct (Console.append_error p); try reflexivity.
  cbn [forallb]. unfold plain_row. cbn [forallb List.length].
  now rewrite strftime_ymd_hms_plain, !str_float_plain.
Qed.

Lemma flat_map_plain (polls : list Console.Poll) :
  forallb plain_row (flat_map Console.logged polls) = true.
Proof.
  induction polls as [|p polls IH]; [reflexivity|].
  now rewrite flat_map_cons, forallb_app, logged_plain, IH.
Qed.

(** X18: in the DHT22 logger, when [main] reaches its loop, nothing
    reaches the iterations from outside (no Ctrl-C, and the output is
    there) and the driver raises nothing but [Exception]s, every
    iteration reads the sensor, whatever failed in the iterations before
    (also a failed append), and [main] returns normally, unless the
    output is lost after the loop: then the last [print] raises.  The
    log file it leaves, whatever it held before, is the header row
    followed by one row for each iteration that had both values and
    could open the file: read with [csv.reader] it gives the header and
    these rows back, and it has one line for each. *)
Theorem logger_file_reads_back (start : Console.trixie_logger_gen2.Start)
    (polls : list Console.Poll) (file : list ascii) :
  Console.entered start = true -> Forall Console.survivable polls ->
  let r := fst (Console.trixie_logger_gen2.main start polls) in
  let t := snd (Console.trixie_logger_gen2.main start polls) in
  let file' := Console.file_after file t in
  r = (if Console.trixie_logger_gen2.no_output_after start
       then Raised OSError else Normal tt) /\
  Console.reads t = List.length polls /\
  csv_records file'
  = Console.trixie_logger_gen2.header :: flat_map Console.logged polls /\
  count_lines file' = S (List.length (flat_map Console.logged polls)).
Proof.
  intros Hs Hpolls.
  destruct (gen2_loop_survivable polls Hpolls) as (t & E & R & F).
  assert (Hmain :
    exists t0 t1 t2,
      Console.trixie_logger_gen2.main start polls
      = (if Console.trixie_logger_gen2.no_output_after start
         then Raised OSError else Normal tt,
         t0 ++ Console.Create Console.trixie_logger_gen2.header
               :: t1 ++ t ++ Console.Exit_sensor :: t2) /\
      Console.reads t0 = 0%nat /\ Console.reads t1 = 0%nat /\
      Console.reads t2 = 0%nat /\
      (forall f, Console.file_after f t1 = f) /\
      (forall f, Console.file_after f t2 = f)).
  { destruct start as [[| |] [|] [|] [|] [|]]; try discriminate Hs.
    all: unfold Console.trixie_logger_gen2.main.
    all: cbn [Console.trixie_logger_gen2.sensor
              Console.trixie_logger_gen2.makedirs_error
              Console.trixie_logger_gen2.create_error
              Console.trixie_logger_gen2.no_output_before
              Console.trixie_logger_gen2.no_output_after].
    all: rewrite E.
    all: cbv [Console.andthen Console.does Console.after Console.finally
              Console.attempt Console.say Console.throw fst snd].
    all: cbn [app].
    all: refine (ex_intro _ [_; _; _; _; _] _).
    all: refine (ex_intro _ [_; _; _; _; _] _).
    all: eexists; repeat split. }
  destruct Hmain as (t0 & t1 & t2 & Em & R0 & R1 & R2 & F1 & F2).
  assert (Hfile :
    Console.file_after file
      (snd (Console.trixie_logger_gen2.main start polls))
    = List.concat
        (map writerow
           (Console.trixie_logger_gen2.header
            :: flat_map Console.logged polls))).
  { rewrite Em. cbn [snd].
    rewrite file_after_app. cbn [Console.file_after].
    rewrite !file_after_app, F1, F. cbn [Console.file_after map List.concat].
    now rewrite F2. }
  assert (Hplain :
    forallb plain_row
      (Console.trixie_logger_gen2.header :: flat_map Console.logged polls)
    = true).
  { cbn [forallb]. rewrite flat_map_plain. reflexivity. }
  cbv zeta. rewrite Hfile. split; [now rewrite Em|]. split; [|split].
  - rewrite Em. cbn [snd].
    rewrite reads_app, R0.
    change (Console.Create Console.trixie_logger_gen2.header
            :: t1 ++ t ++ Console.Exit_sensor :: t2)
      with ([Console.Create Console.trixie_logger_gen2.header]
            ++ t1 ++ t ++ [Console.Exit_sensor] ++ t2).
    rewrite !reads_app, R1, R, R2. cbn. lia.
  - now apply csv_records_rows.
  - now rewrite count_lines_rows.
Qed.

Lemma logger_file_reads_back_witness :
  let polls := [Console.good_poll; Console.bad_frame; Console.broken_sensor;
                Console.unwritable; Console.good_poll] in
  let r := fst (Console.trixie_logger_gen2.main Console.all_well polls) in
  let t := snd (Console.trixie_logger_gen2.main Console.all_well polls) in
  let file' := Console.file_after [] t in
  r = Normal tt /\
  Console.reads t = 5%nat /\
  csv_records file'
  = Console.trixie_logger_gen2.header :: flat_map Console.logged polls /\
  count_lines file' = S (List.length (flat_map Console.logged polls)).
Proof.
  apply (logger_file_reads_back Console.all_well
           [Console.good_poll; Console.bad_frame; Console.broken_sensor;
            Console.unwritable; Console.good_poll] []).
  - reflexivity.
  - repeat constructor; intros e H; inversion H; reflexivity.
Defined.

(** ** The water sensor *)

Lemma water_iteration_power (m : Console.diyables_water_sensor.Sample) :
  forall a, fst (Console.diyables_water_sensor.iteration m) = Normal a ->
  forall on,
    Console.powered on (snd (Console.diyables_water_sensor.iteration m))
    = false.
Proof.
  destruct m as [[v|e] now [[]|] [|]]; try destruct e; simpl;
    try destruct (v >? Console.diyables_water_sensor.WATER_THRESHOLD);
    simpl; congruence.
Qed.

Lemma water_loop_power (samples : list Console.diyables_water_sensor.Sample) :
  forall a, fst (Console.diyables_water_sensor.loop samples) = Normal a ->
  Console.powered false (snd (Console.diyables_water_sensor.loop samples))
  = false.
Proof.
  induction samples as [|m samples IH]; [reflexivity|].
  cbn [Console.diyables_water_sensor.loop].
  pose proof (water_iteration_power m) as Hm.
  destruct (andthen_cases (Console.diyables_water_sensor.iteration m)
              (fun _ => Console.diyables_water_sensor.loop samples))
    as [(a & Ha & ->) | (e & He & ->)]; cbn [fst snd].
  - intros b Hb. rewrite powered_app, (Hm a Ha). now apply (IH b).
  - discriminate.
Qed.

Lemma water_script_normal
    (samples : list Console.diyables_water_sensor.Sample) :
  fst (Console.diyables_water_sensor.script true samples) = Normal tt ->
  Console.powered false
    (snd (Console.diyables_water_sensor.script true samples)) = false.
Proof.
  pose proof (water_loop_power samples) as H.
  unfold Console.diyables_water_sensor.script, Console.attempt.
  destruct (fst (Console.diyables_water_sensor.loop samples)) as [[]|e] eqn:E;
    [|destruct e];
    try destruct (Console.diyables_water_sensor.no_output_at_end samples);
    cbv [Console.andthen Console.does Console.after Console.say Console.throw
         fst snd];
    change (let (x, _) := Console.diyables_water_sensor.loop samples in x)
      with (fst (Console.diyables_water_sensor.loop samples));
    change (let (_, y) := Console.diyables_water_sensor.loop samples in y)
      with (snd (Console.diyables_water_sensor.loop samples));
    rewrite ?E; try discriminate.
  - intros _. now apply (H tt).
  - intros _. now apply (H tt).
  - intros _. cbn [app Console.powered]. rewrite !powered_app. reflexivity.
Qed.

Lemma water_iteration_calm (m : Console.diyables_water_sensor.Sample) :
  Console.calm m ->
  exists t, Console.diyables_water_sensor.iteration m = (Normal tt, t).
Proof.
  intros (Hs & Ho & v & Hv). destruct m as [c now s o].
  simpl in Hs, Ho, Hv. subst c s o.
  unfold Console.diyables_water_sensor.iteration.
  cbn [Console.diyables_water_sensor.chan_value
       Console.diyables_water_sensor.channel Console.andthen Console.does
       Console.after Console.pure fst snd].
  destruct (v >? Console.diyables_water_sensor.WATER_THRESHOLD);
    eexists; reflexivity.
Qed.

Lemma water_loop_calm (before : list Console.diyables_water_sensor.Sample) :
  Forall Console.calm before ->
  exists t,
    forall rest,
      Console.diyables_water_sensor.loop (before ++ rest)
      = (fst (Console.diyables_water_sensor.loop rest),
         t ++ snd (Console.diyables_water_sensor.loop rest)) /\
      Console.diyables_water_sensor.ending (before ++ rest)
      = Console.diyables_water_sensor.ending rest.
Proof.
  induction 1 as [|m before Hm _ (t & IH)].
  - exists []. intros rest. simpl.
    now destruct (Console.diyables_water_sensor.loop rest).
  - destruct (water_iteration_calm m Hm) as (tm & Em).
    exists (tm ++ t). intros rest. destruct (IH rest) as [IH1 IH2].
    rewrite <- app_comm_cons.
    cbn [Console.diyables_water_sensor.loop
         Console.diyables_water_sensor.ending].
    rewrite Em, IH1, IH2. unfold Console.andthen, Console.after. simpl.
    now rewrite app_assoc.
Qed.

(** How the iteration that ends the loop ends the script. *)
Lemma water_script_ends
    (before after : list Console.diyables_water_sensor.Sample)
    (m : Console.diyables_water_sensor.Sample) (e : exn)
    (tm : list Console.event) :
  Forall Console.calm before ->
  Console.diyables_water_sensor.iteration m = (Raised e, tm) ->
  exists t,
    Console.diyables_water_sensor.script true (before ++ m :: after)
    = match e with
      | KeyboardInterrupt =>
          if Console.diyables_water_sensor.no_output m
          then (Raised OSError, t ++ tm)
          else (Normal tt,
                t ++ tm ++ [Console.Print Console.Script_stopped;
                            Console.Power false])
      | _ => (Raised e, t ++ tm)
      end.
Proof.
  intros Hb Em. destruct (water_loop_calm before Hb) as (t & Et).
  destruct (Et (m :: after)) as [El Ee].
  exists (Console.Print Console.Notice :: Console.Print Console.Notice :: t).
  unfold Console.diyables_water_sensor.script,
    Console.diyables_water_sensor.no_output_at_end.
  rewrite El, Ee.
  cbn [Console.diyables_water_sensor.loop
       Console.diyables_water_sensor.ending].
  rewrite Em. cbn [fst].
  destruct e; try destruct (Console.diyables_water_sensor.no_output m);
    cbv [Console.andthen Console.does Console.after Console.attempt
         Console.say Console.throw fst snd];
    cbn [app]; rewrite <- ?app_assoc, ?app_nil_r; reflexivity.
Qed.

Lemma water_iteration_bus (m : Console.diyables_water_sensor.Sample) (e : exn) :
  Console.diyables_water_sensor.channel m
  = Console.diyables_water_sensor.Bus_error e ->
  Console.diyables_water_sensor.stop m
  <> Some Console.diyables_water_sensor.Powered ->
  exists t,
    Console.diyables_water_sensor.iteration m
    = (Raised e, t ++ [Console.Get_channel]) /\
    forall on, Console.powered on (t ++ [Console.Get_channel]) = true.
Proof.
  intros Hc Hs. destruct m as [c now s o]. simpl in Hc, Hs. subst c.
  destruct s as [[]|]; try congruence;
    (exists [Console.Power true; Console.Sleep 1]; split; reflexivity).
Qed.

Lemma water_iteration_mute (m : Console.diyables_water_sensor.Sample) (v : Z) :
  Console.diyables_water_sensor.channel m
  = Console.diyables_water_sensor.Converted v ->
  Console.diyables_water_sensor.stop m
  <> Some Console.diyables_water_sensor.Powered ->
  Console.diyables_water_sensor.no_output m = true ->
  exists t,
    Console.diyables_water_sensor.iteration m = (Raised OSError, t) /\
    forall on, Console.powered on t = false.
Proof.
  intros Hc Hs Ho. destruct m as [c now s o]. simpl in Hc, Hs, Ho. subst c o.
  destruct s as [[]|]; try congruence; eexists; split; reflexivity.
Qed.

Lemma water_iteration_stop (m : Console.diyables_water_sensor.Sample) :
  Console.diyables_water_sensor.stop m
  = Some Console.diyables_water_sensor.Powered \/
  (Console.diyables_water_sensor.stop m
   = Some Console.diyables_water_sensor.Unpowered /\
   Console.diyables_water_sensor.no_output m = false /\
   exists v, Console.diyables_water_sensor.channel m
             = Console.diyables_water_sensor.Converted v) ->
  exists t,
    Console.diyables_water_sensor.iteration m = (Raised KeyboardInterrupt, t) /\
    (Console.diyables_water_sensor.stop m
     = Some Console.diyables_water_sensor.Powered ->
     forall on, Console.powered on t = true).
Proof.
  destruct m as [c now s o]. simpl. intros [-> | (-> & -> & v & ->)].
  - eexists. split; reflexivity.
  - unfold Console.diyables_water_sensor.iteration.
    cbn [Console.diyables_water_sensor.chan_value
         Console.diyables_water_sensor.channel Console.andthen Console.does
         Console.after Console.pure fst snd].
    destruct (v >? Console.diyables_water_sensor.WATER_THRESHOLD);
      eexists; (split; [reflexivity | discriminate]).
Qed.

(** X19: the water sensor script, once the converter is found.  However
    it runs, when it ends normally the sensor is left without power.  In
    the first iteration that is disturbed at all: an exception of the
    bus during the conversion ends the script by that exception, with
    the sensor still powered; a [print] of the loop that raises ends the
    script by [OSError], the sensor being switched off before; Ctrl-C,
    while the sensor is powered or during the long sleep, takes the
    script to its clause, which prints and then switches the sensor off,
    and the script ends normally; but when the [print] of the clause
    raises, the script ends by [OSError], and the sensor is left powered
    if it was. *)
Theorem sensor_power_at_exit
    (before after : list Console.diyables_water_sensor.Sample)
    (m : Console.diyables_water_sensor.Sample) :
  Forall Console.calm before ->
  let r :=
    fst (Console.diyables_water_sensor.script true (before ++ m :: after)) in
  let t :=
    snd (Console.diyables_water_sensor.script true (before ++ m :: after)) in
  (forall samples,
     fst (Console.diyables_water_sensor.script true samples) = Normal tt ->
     Console.powered false
       (snd (Console.diyables_water_sensor.script true samples)) = false) /\
  (forall e,
     Console.diyables_water_sensor.channel m
     = Console.diyables_water_sensor.Bus_error e ->
     e <> KeyboardInterrupt ->
     Console.diyables_water_sensor.stop m
     <> Some Console.diyables_water_sensor.Powered ->
     r = Raised e /\ Console.powered false t = true /\
     exists t', t = t' ++ [Console.Get_channel]) /\
  (forall v,
     Console.diyables_water_sensor.channel m
     = Console.diyables_water_sensor.Converted v ->
     Console.diyables_water_sensor.stop m
     <> Some Console.diyables_water_sensor.Powered ->
     Console.diyables_water_sensor.no_output m = true ->
     r = Raised OSError /\ Console.powered false t = false) /\
  (Console.diyables_water_sensor.no_output m = false ->
   Console.diyables_water_sensor.stop m
   = Some Console.diyables_water_sensor.Powered \/
   (Console.diyables_water_sensor.stop m
    = Some Console.diyables_water_sensor.Unpowered /\
    exists v, Console.diyables_water_sensor.channel m
              = Console.diyables_water_sensor.Converted v) ->
   r = Normal tt /\
   exists t', t = t' ++ [Console.Print Console.Script_stopped;
                         Console.Power false]) /\
  (Console.diyables_water_sensor.no_output m = true ->
   Console.diyables_water_sensor.stop m
   = Some Console.diyables_water_sensor.Powered ->
   r = Raised OSError /\ Console.powered false t = true).
Proof.
  intros Hb. cbv zeta.
  split; [exact water_script_normal|]. split; [|split; [|split]].
  - intros e Hc He Hs.
    destruct (water_iteration_bus m e Hc Hs) as (tm & Em & Pm).
    destruct (water_script_ends before after m e _ Hb Em) as (t & Et).
    assert (E : Console.diyables_water_sensor.script true (before ++ m :: after)
                = (Raised e, t ++ tm ++ [Console.Get_channel]))
      by (rewrite Et; destruct e; congruence).
    rewrite E. cbn [fst snd]. split; [reflexivity|].
    split; [now rewrite powered_app, Pm|].
    exists (t ++ tm). now rewrite app_assoc.
  - intros v Hc Hs Ho.
    destruct (water_iteration_mute m v Hc Hs Ho) as (tm & Em & Pm).
    destruct (water_script_ends before after m OSError _ Hb Em) as (t & ->).
    cbn [fst snd]. split; [reflexivity|]. now rewrite powered_app, Pm.
  - intros Ho Hs.
    assert (Hs' : Console.diyables_water_sensor.stop m
                  = Some Console.diyables_water_sensor.Powered \/
                  (Console.diyables_water_sensor.stop m
                   = Some Console.diyables_water_sensor.Unpowered /\
                   Console.diyables_water_sensor.no_output m = false /\
                   exists v, Console.diyables_water_sensor.channel m
                             = Console.diyables_water_sensor.Converted v))
      by (destruct Hs as [Hs | [Hs Hv]]; auto).
    destruct (water_iteration_stop m Hs') as (tm & Em & _).
    destruct (water_script_ends before after m KeyboardInterrupt _ Hb Em)
      as (t & ->).
    rewrite Ho. cbn [fst snd]. split; [reflexivity|].
    exists (t ++ tm). now rewrite <- app_assoc.
  - intros Ho Hs.
    destruct (water_iteration_stop m (or_introl Hs)) as (tm & Em & Pm).
    destruct (water_script_ends before after m KeyboardInterrupt _ Hb Em)
      as (t & ->).
    rewrite Ho. cbn [fst snd]. split; [reflexivity|].
    now rewrite powered_app, (Pm Hs).
Qed.

Lemma sensor_power_at_exit_witness :
  fst (Console.diyables_water_sensor.script true
         ([Console.dry_sample] ++ Console.bus_failure :: [Console.dry_sample]))
  = Raised OSError /\
  Console.powered false
    (snd (Console.diyables_water_sensor.script true
            ([Console.dry_sample] ++ Console.bus_failure
             :: [Console.dry_sample])))
  = true.
Proof.
  destruct (sensor_power_at_exit [Console.dry_sample] [Console.dry_sample]
              Console.bus_failure) as (_ & H & _).
  - constructor;
      [split; [reflexivity | split; [reflexivity | exists 1200; reflexivity]]|].
    constructor.
  - destruct (H OSError) as (Hr & Hp & _).
    + reflexivity.
    + discriminate.
    + discriminate.
    + split; [exact Hr | exact Hp].
Defined.

Lemma well_powered_app (t1 t2 : list Console.event) :
  forall on,
    Console.well_powered on (t1 ++ t2)
    = Console.well_powered on t1
      && Console.well_powered (Console.powered on t1) t2.
Proof.
  induction t1 as [|x t1 IH]; intros on; [reflexivity|].
  destruct x; simpl; rewrite ?IH; try reflexivity;
    now rewrite andb_assoc.
Qed.

Lemma water_iteration_well_powered
    (m : Console.diyables_water_sensor.Sample) (on : bool) :
  Console.well_powered on (snd (Console.diyables_water_sensor.iteration m))
  = true.
Proof.
  destruct m as [[v|e] now [[]|] [|]]; try destruct e; simpl;
    try destruct (v >? Console.diyables_water_sensor.WATER_THRESHOLD);
    reflexivity.
Qed.

Lemma water_loop_well_powered
    (samples : list Console.diyables_water_sensor.Sample) :
  forall on,
    Console.well_powered on (snd (Console.diyables_water_sensor.loop samples))
    = true.
Proof.
  induction samples as [|m samples IH]; intros on; [reflexivity|].
  cbn [Console.diyables_water_sensor.loop].
  destruct (andthen_cases (Console.diyables_water_sensor.iteration m)
              (fun _ => Console.diyables_water_sensor.loop samples))
    as [(a & Ha & ->) | (e & He & ->)]; cbn [fst snd].
  - now rewrite well_powered_app, water_iteration_well_powered, IH.
  - apply water_iteration_well_powered.
Qed.

(** X20: in every run of the water sensor script, whatever the bus does
    and whenever Ctrl-C arrives, every conversion is made with the
    sensor powered, and the sensor has no power during any of the waits
    of three seconds. *)
Theorem power_only_around_conversion (ads1115_found : bool)
    (samples : list Console.diyables_water_sensor.Sample) :
  Console.well_powered false
    (snd (Console.diyables_water_sensor.script ads1115_found samples))
  = true.
Proof.
  destruct ads1115_found; [|reflexivity].
  pose proof (water_loop_well_powered samples false) as H.
  unfold Console.diyables_water_sensor.script, Console.attempt.
  destruct (fst (Console.diyables_water_sensor.loop samples)) as [[]|e] eqn:E;
    [|destruct e];
    try destruct (Console.diyables_water_sensor.no_output_at_end samples);
    cbv [Console.andthen Console.does Console.after Console.say Console.throw
         fst snd];
    change (let (_, y) := Console.diyables_water_sensor.loop samples in y)
      with (snd (Console.diyables_water_sensor.loop samples));
    cbn [app Console.well_powered]; rewrite ?app_nil_r; try exact H.
  rewrite well_powered_app, H. cbn [Console.well_powered andb].
  reflexivity.
Qed.
